(** * Argo CD operator: namespace bookkeeping, cleanup order and capability
      flags

    A shallow embedding of the parts of the operator that keep namespaces,
    RBAC objects and the cluster secret consistent:

    - [controllers/argocd/TOBEREMOVED.go]: [allowedNamespace], [splitList],
      [removeString], the capability probes ([verifyRouteAPI] and friends),
      [InspectCluster], [setManagedNamespaces],
      [removeManagedByLabelFromNamespaces], [removeDeletionFinalizer],
      [namespaceFilterPredicate], [deleteRBACsForNamespace],
      [deleteManagedNamespaceFromClusterSecret], [reconcileResources];
    - [controllers/argocd/server/server.go]: [ServerReconciler.Reconcile] and
      [ServerReconciler.DeleteResources];
    - the newer [InspectCluster] of package [argocd] together with
      [pkg/cluster/openshift.go].

    Go values are modelled as follows.  A Go [string] and a [[]byte] are a
    Rocq [string] (a sequence of bytes).  A Go [map[string]string] is a
    [gmap string string].  A Go [error] is an [option error], [None] being
    [nil].  The Kubernetes API server is an explicit store ([Cluster]); every
    client call can be made to fail through a fault table ([Faults]) and is
    recorded in a trace of calls so that orderings can be stated. *)

From Stdlib Require Import Ascii String.
From stdpp Require Import base option list sorting strings gmap.

Local Open Scope string_scope.
Local Open Scope list_scope.

(* ===================================================================== *)
(** * The Go library functions used by the operator *)
(* ===================================================================== *)

(** [strings.Split(s, ",")] for a one byte separator: the substrings between
    the separators, in order; the empty string gives one empty substring. *)
Fixpoint strings_Split (s : string) (sep : ascii) : list string :=
  match s with
  | EmptyString => [EmptyString]
  | String c s' =>
      if Ascii.eqb c sep then EmptyString :: strings_Split s' sep
      else match strings_Split s' sep with
           | [] => [String c EmptyString]
           | w :: ws => String c w :: ws
           end
  end.

(** [strings.Join(elems, sep)]. *)
Definition strings_Join (elems : list string) (sep : string) : string :=
  String.concat sep elems.

Definition isByte (n : nat) (c : ascii) : bool := Nat.eqb (nat_of_ascii c) n.
Definition inRange (lo hi : nat) (c : ascii) : bool :=
  Nat.leb lo (nat_of_ascii c) && Nat.leb (nat_of_ascii c) hi.

(** The table [asciiSpace] of package [strings]: tab, line feed, vertical
    tab, form feed, carriage return and space. *)
Definition asciiSpace (c : ascii) : bool :=
  isByte 9 c || isByte 10 c || isByte 11 c || isByte 12 c || isByte 13 c
  || isByte 32 c.

(** [unicode.IsSpace] on the UTF-8 encodings of the white space runes beyond
    ASCII.  Two bytes: U+0085 and U+00A0. *)
Definition space2 (a b : ascii) : bool :=
  isByte 194 a && (isByte 133 b || isByte 160 b).

(** Three bytes: U+1680, U+2000 to U+200A, U+2028, U+2029, U+202F, U+205F
    and U+3000. *)
Definition space3 (a b c : ascii) : bool :=
  (isByte 225 a && isByte 154 b && isByte 128 c)
  || (isByte 226 a && isByte 128 b
      && (inRange 128 138 c || isByte 168 c || isByte 169 c || isByte 175 c))
  || (isByte 226 a && isByte 129 b && isByte 159 c)
  || (isByte 227 a && isByte 128 b && isByte 128 c).

(** Dropping the white space runes at the front of a byte string.  The
    predicates say which one, two and three byte sequences are white space,
    so that the same function serves at the back of the string, on the
    reversed bytes. *)
Fixpoint dropSpaces (p2 : ascii → ascii → bool)
    (p3 : ascii → ascii → ascii → bool) (s : string) : string :=
  match s with
  | EmptyString => EmptyString
  | String a s1 =>
      if asciiSpace a then dropSpaces p2 p3 s1
      else match s1 with
           | EmptyString => s
           | String b s2 =>
               if p2 a b then dropSpaces p2 p3 s2
               else match s2 with
                    | EmptyString => s
                    | String c s3 =>
                        if p3 a b c then dropSpaces p2 p3 s3 else s
                    end
           end
  end.

Definition strings_TrimLeftSpace (s : string) : string :=
  dropSpaces space2 space3 s.

Definition strings_TrimRightSpace (s : string) : string :=
  String.rev
    (dropSpaces (λ a b, space2 b a) (λ a b c, space3 c b a) (String.rev s)).

(** [strings.TrimSpace(s)]: [s] without its leading and trailing white
    space, as defined by Unicode. *)
Definition strings_TrimSpace (s : string) : string :=
  strings_TrimRightSpace (strings_TrimLeftSpace s).

(** [sort.Strings(x)]: [x] in increasing byte order.  The order is total and
    antisymmetric, so the sorted slice does not depend on the algorithm. *)
Definition sort_Strings (x : list string) : list string :=
  merge_sort String.le x.

(* ===================================================================== *)
(** * Small helpers of package [argocd] *)
(* ===================================================================== *)

(** [splitList]: split on commas and trim every element. *)
Definition splitList (s : string) : list string :=
  strings_TrimSpace <$> strings_Split s ",".

(** The [for _, n := range ... { if n == current { return true } }] loop. *)
Fixpoint rangeEquals (elems : list string) (current : string) : bool :=
  match elems with
  | [] => false
  | n :: rest => if String.eqb n current then true else rangeEquals rest current
  end.

Definition allowedNamespace (current namespaces : string) : bool :=
  let clusterConfigNamespaces := splitList namespaces in
  if Nat.ltb 0 (length clusterConfigNamespaces) then
    match clusterConfigNamespaces with
    | first :: _ =>
        if String.eqb first "*" then true
        else rangeEquals clusterConfigNamespaces current
    | [] => false
    end
  else false.

(** [containsString]: membership after trimming the elements. *)
Fixpoint containsString (arr : list string) (s : string) : bool :=
  match arr with
  | [] => false
  | val :: rest =>
      if String.eqb (strings_TrimSpace val) s then true
      else containsString rest s
  end.

(** [removeString]: the elements different from [s], in order. *)
Fixpoint removeString (slice : list string) (s : string) : list string :=
  match slice with
  | [] => []
  | item :: rest =>
      if String.eqb item s then removeString rest s
      else item :: removeString rest s
  end.

(* ===================================================================== *)
(** * Kubernetes objects and the API server *)
(* ===================================================================== *)

(** A Go [error], by its message; [fmt.Errorf("...: %w", err)] builds the
    message of the wrapping error. *)
Record error := Err { Error : string }.

Global Instance error_eq_dec : EqDecision error.
Proof. solve_decision. Defined.

(** A [(value, error)] pair of results, of which one is meaningful. *)
Inductive result (A : Type) :=
  | Ok (a : A)
  | Fail (e : error).
Global Arguments Ok {A} a.
Global Arguments Fail {A} e.

(** [metav1.ObjectMeta], with the fields the operator reads.  [Labels] is
    [None] for a nil map. *)
Record ObjectMeta := {
  Name : string;
  Namespace : string;
  Labels : option (gmap string string);
  Finalizers : list string;
}.

(** [GetLabels]: reading a nil map finds nothing. *)
Definition GetLabels (m : ObjectMeta) : gmap string string :=
  default ∅ (Labels m).

Definition withLabels (m : ObjectMeta) (l : option (gmap string string))
    : ObjectMeta :=
  {| Name := Name m; Namespace := Namespace m; Labels := l;
     Finalizers := Finalizers m |}.

Definition withFinalizers (m : ObjectMeta) (f : list string) : ObjectMeta :=
  {| Name := Name m; Namespace := Namespace m; Labels := Labels m;
     Finalizers := f |}.

(** [metav1.ObjectMeta{Name: name}]. *)
Definition metaNamed (name : string) : ObjectMeta :=
  {| Name := name; Namespace := ""; Labels := None; Finalizers := [] |}.

(** [corev1.Secret]: metadata and the [Data] map of byte strings. *)
Record Secret := {
  SecretMeta : ObjectMeta;
  Data : gmap string string;
}.

Definition withData (s : Secret) (d : gmap string string) : Secret :=
  {| SecretMeta := SecretMeta s; Data := d |}.

(** The objects held by the API server.  Namespaces, roles, role bindings
    and Argo CD instances are represented by their metadata. *)
Record Cluster := {
  namespaces : list ObjectMeta;
  roles : list ObjectMeta;
  roleBindings : list ObjectMeta;
  secrets : list Secret;
  argocds : list ObjectMeta;
}.

(** The calls made by the operator on its clients. *)
Inductive Call :=
  | NewClient
  | ListNamespaces (key value : string)
  | GetNamespace (name : string)
  | UpdateNamespace (name : string)
  | ListRoles (ns key value : string)
  | DeleteRole (ns name : string)
  | ListRoleBindings (ns key value : string)
  | DeleteRoleBinding (ns name : string)
  | ListSecrets (ns key value : string)
  | UpdateSecret (ns name : string)
  | UpdateArgoCD (ns name : string).

Global Instance Call_eq_dec : EqDecision Call.
Proof. solve_decision. Defined.

(** The state threaded through the operator's code: the cluster and the
    calls made so far, oldest first. *)
Record World := {
  cluster : Cluster;
  calls : list Call;
}.

(** A fault table decides, from the calls made so far, whether the next call
    fails and with which error (a conflict, a timeout, a missing
    permission). *)
Definition Faults := list Call → Call → option error.

Definition noFaults : Faults := λ _ _, None.

(** Code that reads and writes a state of type [S]. *)
Definition State (S A : Type) : Type := S → A * S.

Definition ret {S A} (a : A) : State S A := λ w, (a, w).
Definition bind {S A B} (m : State S A) (k : A → State S B) : State S B :=
  λ w, let '(a, w') := m w in k a w'.

Declare Scope state_scope.
Delimit Scope state_scope with state.
Notation "x <- m ;; k" := (bind m (λ x, k))
  (at level 100, m at next level, right associativity) : state_scope.
Notation "m ;;; k" := (bind m (λ _, k))
  (at level 100, right associativity) : state_scope.
(** [if err := m; err != nil { return err }], then [k]. *)
Notation "'check' m ;; k" :=
  (bind m (λ err, match err with Some e => ret (Some e) | None => k end))
  (at level 100, m at next level, right associativity) : state_scope.
Local Open Scope state_scope.

(** Code running against the API server. *)
Definition K8s (A : Type) : Type := State World A.

Definition errNotFound (kind name : string) : error :=
  Err (kind +:+ " " +:+ name +:+ " not found").

Definition hasLabel (key value : string) (m : ObjectMeta) : Prop :=
  GetLabels m !! key = Some value.

Definition hasKey (ns name : string) (m : ObjectMeta) : Prop :=
  Namespace m = ns ∧ Name m = name.

Global Instance hasLabel_dec key value m : Decision (hasLabel key value m).
Proof. unfold hasLabel. apply _. Defined.

Global Instance hasKey_dec ns name m : Decision (hasKey ns name m).
Proof. unfold hasKey. apply _. Defined.

(** Replace the stored object that has the key of [x]. *)
Fixpoint storeUpdate {A} (meta : A → ObjectMeta) (x : A) (l : list A)
    : list A :=
  match l with
  | [] => []
  | y :: rest =>
      if decide (hasKey (Namespace (meta x)) (Name (meta x)) (meta y))
      then x :: rest
      else y :: storeUpdate meta x rest
  end.

(** The first stored object with the given key. *)
Fixpoint storeGet {A} (meta : A → ObjectMeta) (ns name : string)
    (l : list A) : option A :=
  match l with
  | [] => None
  | y :: rest =>
      if decide (hasKey ns name (meta y)) then Some y
      else storeGet meta ns name rest
  end.

Definition storeDelete {A} (meta : A → ObjectMeta) (ns name : string)
    (l : list A) : list A :=
  filter (λ y, ¬ hasKey ns name (meta y)) l.

Definition storeList {A} (meta : A → ObjectMeta) (ns key value : string)
    (l : list A) : list A :=
  filter (λ y, Namespace (meta y) = ns ∧ hasLabel key value (meta y)) l.

Definition setNamespaces (c : Cluster) (l : list ObjectMeta) : Cluster :=
  {| namespaces := l; roles := roles c; roleBindings := roleBindings c;
     secrets := secrets c; argocds := argocds c |}.
Definition setRoles (c : Cluster) (l : list ObjectMeta) : Cluster :=
  {| namespaces := namespaces c; roles := l; roleBindings := roleBindings c;
     secrets := secrets c; argocds := argocds c |}.
Definition setRoleBindings (c : Cluster) (l : list ObjectMeta) : Cluster :=
  {| namespaces := namespaces c; roles := roles c; roleBindings := l;
     secrets := secrets c; argocds := argocds c |}.
Definition setSecrets (c : Cluster) (l : list Secret) : Cluster :=
  {| namespaces := namespaces c; roles := roles c;
     roleBindings := roleBindings c; secrets := l; argocds := argocds c |}.
Definition setArgoCDs (c : Cluster) (l : list ObjectMeta) : Cluster :=
  {| namespaces := namespaces c; roles := roles c;
     roleBindings := roleBindings c; secrets := secrets c; argocds := l |}.

(** The call [c] has been made. *)
Definition record (c : Call) (w : World) : World :=
  {| cluster := cluster w; calls := calls w ++ [c] |}.

Section Client.
Variable F : Faults.

(** Every call is recorded; a call the fault table fails has no effect. *)
Definition call {A} (c : Call) (run : Cluster → result A * Cluster)
    : K8s (result A) :=
  λ w,
    match F (calls w) c with
    | Some e => (Fail e, record c w)
    | None =>
        let '(r, cl) := run (cluster w) in
        (r, {| cluster := cl; calls := calls w ++ [c] |})
    end.

(** [initK8sClient]. *)
Definition initK8sClient : K8s (result unit) :=
  call NewClient (λ c, (Ok (), c)).

(** [List] of namespaces with [client.MatchingLabels{key: value}]. *)
Definition listNamespaces (key value : string)
    : K8s (result (list ObjectMeta)) :=
  call (ListNamespaces key value)
       (λ c, (Ok (filter (hasLabel key value) (namespaces c)), c)).

Definition getNamespace (name : string) : K8s (result ObjectMeta) :=
  call (GetNamespace name)
       (λ c, match storeGet id "" name (namespaces c) with
             | Some ns => (Ok ns, c)
             | None => (Fail (errNotFound "namespaces" name), c)
             end).

Definition updateNamespace (ns : ObjectMeta) : K8s (result unit) :=
  call (UpdateNamespace (Name ns))
       (λ c, match storeGet id (Namespace ns) (Name ns) (namespaces c) with
             | Some _ =>
                 (Ok (), setNamespaces c (storeUpdate id ns (namespaces c)))
             | None => (Fail (errNotFound "namespaces" (Name ns)), c)
             end).

Definition listRoles (ns key value : string)
    : K8s (result (list ObjectMeta)) :=
  call (ListRoles ns key value)
       (λ c, (Ok (storeList id ns key value (roles c)), c)).

Definition deleteRole (ns name : string) : K8s (result unit) :=
  call (DeleteRole ns name)
       (λ c, match storeGet id ns name (roles c) with
             | Some _ => (Ok (), setRoles c (storeDelete id ns name (roles c)))
             | None => (Fail (errNotFound "roles" name), c)
             end).

Definition listRoleBindings (ns key value : string)
    : K8s (result (list ObjectMeta)) :=
  call (ListRoleBindings ns key value)
       (λ c, (Ok (storeList id ns key value (roleBindings c)), c)).

Definition deleteRoleBinding (ns name : string) : K8s (result unit) :=
  call (DeleteRoleBinding ns name)
       (λ c, match storeGet id ns name (roleBindings c) with
             | Some _ =>
                 (Ok (),
                  setRoleBindings c (storeDelete id ns name (roleBindings c)))
             | None => (Fail (errNotFound "rolebindings" name), c)
             end).

Definition listSecrets (ns key value : string)
    : K8s (result (list Secret)) :=
  call (ListSecrets ns key value)
       (λ c, (Ok (storeList SecretMeta ns key value (secrets c)), c)).

(** [Secrets(ns).Update]: the object is looked up in namespace [ns]. *)
Definition updateSecret (ns : string) (s : Secret) : K8s (result unit) :=
  call (UpdateSecret ns (Name (SecretMeta s)))
       (λ c, match storeGet SecretMeta ns (Name (SecretMeta s)) (secrets c)
             with
             | Some _ =>
                 (Ok (),
                  setSecrets c (storeUpdate SecretMeta s (secrets c)))
             | None => (Fail (errNotFound "secrets" (Name (SecretMeta s))), c)
             end).

Definition updateArgoCD (a : ObjectMeta) : K8s (result unit) :=
  call (UpdateArgoCD (Namespace a) (Name a))
       (λ c, match storeGet id (Namespace a) (Name a) (argocds c) with
             | Some _ => (Ok (), setArgoCDs c (storeUpdate id a (argocds c)))
             | None => (Fail (errNotFound "argocds" (Name a)), c)
             end).
End Client.

(* ===================================================================== *)
(** * Constants of package [common] *)
(* ===================================================================== *)

Definition ArgoCDKeyPartOf : string := "app.kubernetes.io/part-of".
Definition ArgoCDManagedByLabel : string := "argocd.argoproj.io/managed-by".
Definition ArgoCDDeletionFinalizer : string := "argoproj.io/finalizer".
Definition ArgoCDSecretTypeLabel : string := "argocd.argoproj.io/secret-type".
Definition ArgoCDAppName : string := "argocd".

(* ===================================================================== *)
(** * Cleanup of a namespace that is no longer managed *)
(* ===================================================================== *)

Section Cleanup.
Variable F : Faults.

(** The declaration of [common.ArgoCDDefaultServer] is not among the
    sources; the code only compares it with the [server] field. *)
Variable ArgoCDDefaultServer : string.

(** [for _, role := range roles.Items]: a failed delete is logged and the
    loop goes on. *)
Fixpoint deleteRoles (sourceNS : string) (items : list ObjectMeta)
    : K8s unit :=
  match items with
  | [] => ret ()
  | role :: rest =>
      _ <- deleteRole F sourceNS (Name role) ;;
      deleteRoles sourceNS rest
  end.

Fixpoint deleteRoleBindings (sourceNS : string) (items : list ObjectMeta)
    : K8s unit :=
  match items with
  | [] => ret ()
  | roleBinding :: rest =>
      _ <- deleteRoleBinding F sourceNS (Name roleBinding) ;;
      deleteRoleBindings sourceNS rest
  end.

(** [deleteRBACsForNamespace] deletes the RBACs when the label from the
    namespace is removed. *)
Definition deleteRBACsForNamespace (ownerNS sourceNS : string)
    : K8s (option error) :=
  roles <- listRoles F sourceNS ArgoCDKeyPartOf ArgoCDAppName ;;
  match roles with
  | Fail err => ret (Some err)
  | Ok roles =>
      deleteRoles sourceNS roles ;;;
      roleBindings <- listRoleBindings F sourceNS ArgoCDKeyPartOf ArgoCDAppName ;;
      match roleBindings with
      | Fail err => ret (Some err)
      | Ok roleBindings =>
          deleteRoleBindings sourceNS roleBindings ;;;
          ret None
      end
  end.

(** The loop over [namespaceList]: [result] is the slice built so far and
    [data] the [Data] map of the secret, which the loop body overwrites
    after each element it keeps. *)
Fixpoint removeFromList (sourceNS : string) (namespaceList : list string)
    (result : list string) (data : gmap string string)
    : list string * gmap string string :=
  match namespaceList with
  | [] => (result, data)
  | n :: rest =>
      if String.eqb (strings_TrimSpace n) sourceNS
      then removeFromList sourceNS rest result data
      else
        let result := sort_Strings (result ++ [strings_TrimSpace n]) in
        let data := <["namespaces" := strings_Join result ","]> data in
        removeFromList sourceNS rest result data
  end.

(** [string(secret.Data["server"])]: a missing key reads as the empty
    string. *)
Definition dataString (s : Secret) (key : string) : string :=
  default "" (Data s !! key).

(** [for _, secret := range secrets.Items]. *)
Fixpoint updateClusterSecrets (ownerNS sourceNS : string)
    (items : list Secret) : K8s (option error) :=
  match items with
  | [] => ret None
  | secret :: rest =>
      if decide (dataString secret "server" ≠ ArgoCDDefaultServer)
      then updateClusterSecrets ownerNS sourceNS rest
      else
        match Data secret !! "namespaces" with
        | Some namespaces =>
            let namespaceList := strings_Split namespaces "," in
            let '(_, data) :=
              removeFromList sourceNS namespaceList [] (Data secret) in
            r <- updateSecret F ownerNS (withData secret data) ;;
            match r with
            | Fail err => ret (Some err)
            | Ok _ => updateClusterSecrets ownerNS sourceNS rest
            end
        | None => updateClusterSecrets ownerNS sourceNS rest
        end
  end.

Definition deleteManagedNamespaceFromClusterSecret (ownerNS sourceNS : string)
    : K8s (option error) :=
  secrets <- listSecrets F ownerNS ArgoCDSecretTypeLabel "cluster" ;;
  match secrets with
  | Fail err => ret (Some err)
  | Ok secrets => updateClusterSecrets ownerNS sourceNS secrets
  end.

(** [event.UpdateEvent] and [event.DeleteEvent], by the metadata of their
    objects. *)
Record UpdateEvent := { ObjectOld : ObjectMeta; ObjectNew : ObjectMeta }.
Record DeleteEvent := { Object : ObjectMeta }.

(** The cleanup both branches of [UpdateFunc] run for the old value of the
    label.  The errors of the two steps are logged. *)
Definition cleanupOldOwner (owner name : string) : K8s unit :=
  _ <- deleteRBACsForNamespace owner name ;;
  _ <- deleteManagedNamespaceFromClusterSecret owner name ;;
  ret ().

(** [namespaceFilterPredicate().UpdateFunc]. *)
Definition UpdateFunc (e : UpdateEvent) : K8s bool :=
  match GetLabels (ObjectNew e) !! ArgoCDManagedByLabel with
  | Some valNew =>
      match GetLabels (ObjectOld e) !! ArgoCDManagedByLabel with
      | Some valOld =>
          if decide (valOld ≠ valNew) then
            k8sClient <- initK8sClient F ;;
            match k8sClient with
            | Fail _ => ret false
            | Ok _ =>
                cleanupOldOwner valOld (Name (ObjectOld e)) ;;;
                ret true
            end
          else ret true
      | None => ret true
      end
  | None =>
      match GetLabels (ObjectOld e) !! ArgoCDManagedByLabel with
      | Some ns =>
          if decide (ns ≠ "") then
            k8sClient <- initK8sClient F ;;
            match k8sClient with
            | Fail _ => ret false
            | Ok _ =>
                cleanupOldOwner ns (Name (ObjectOld e)) ;;;
                ret false
            end
          else ret false
      | None => ret false
      end
  end.

(** [namespaceFilterPredicate().DeleteFunc]. *)
Definition DeleteFunc (e : DeleteEvent) : K8s bool :=
  match GetLabels (Object e) !! ArgoCDManagedByLabel with
  | Some ns =>
      if decide (ns ≠ "") then
        k8sClient <- initK8sClient F ;;
        match k8sClient with
        | Fail _ => ret false
        | Ok _ =>
            _ <- deleteManagedNamespaceFromClusterSecret ns (Name (Object e)) ;;
            ret false
        end
      else ret false
  | None => ret false
  end.

End Cleanup.

(* ===================================================================== *)
(** * The managed namespaces of an instance *)
(* ===================================================================== *)

(** The reconciler, by the field this development reads: the pointer
    [ManagedNamespaces] to the list of namespaces, nil before the first
    reconcile. *)
Record ReconcileArgoCD := {
  ManagedNamespaces : option (list ObjectMeta);
}.

Section Reconciler.
Variable F : Faults.

(** [setManagedNamespaces]: the namespaces labelled with the namespace of
    the instance, and that namespace itself. *)
Definition setManagedNamespaces (r : ReconcileArgoCD) (cr : ObjectMeta)
    : K8s (option error * ReconcileArgoCD) :=
  namespaces <- listNamespaces F ArgoCDManagedByLabel (Namespace cr) ;;
  match namespaces with
  | Fail err => ret (Some err, r)
  | Ok items =>
      let items := items ++ [metaNamed (Namespace cr)] in
      ret (None, {| ManagedNamespaces := Some items |})
  end.

(** [delete(ns.Labels, key)] on a map that is not nil. *)
Definition deleteLabel (key : string) (ns : ObjectMeta) : ObjectMeta :=
  withLabels ns (delete key <$> Labels ns).

(** The loop of [removeManagedByLabelFromNamespaces]: a failed [Get] ends
    the function with its error, a failed [Update] is logged. *)
Fixpoint removeManagedByLabelLoop (namespace : string)
    (items : list ObjectMeta) : K8s (option error) :=
  match items with
  | [] => ret None
  | n :: rest =>
      ns <- getNamespace F (Name n) ;;
      match ns with
      | Fail err => ret (Some err)
      | Ok ns =>
          match Labels ns with
          | None => removeManagedByLabelLoop namespace rest
          | Some labels =>
              match labels !! ArgoCDManagedByLabel with
              | Some n' =>
                  if decide (n' ≠ namespace)
                  then removeManagedByLabelLoop namespace rest
                  else
                    _ <- updateNamespace F (deleteLabel ArgoCDManagedByLabel ns) ;;
                    removeManagedByLabelLoop namespace rest
              | None => removeManagedByLabelLoop namespace rest
              end
          end
      end
  end.

Definition removeManagedByLabelFromNamespaces (namespace : string)
    : K8s (option error) :=
  nsList <- listNamespaces F ArgoCDManagedByLabel namespace ;;
  match nsList with
  | Fail err => ret (Some err)
  | Ok items =>
      removeManagedByLabelLoop namespace (items ++ [metaNamed namespace])
  end.

(** [fmt.Errorf(format + ": %w", name, err)]. *)
Definition Errorf (prefix name : string) (err : error) : error :=
  Err (prefix +:+ name +:+ ": " +:+ Error err).

(** [removeDeletionFinalizer]: the finalizer is taken out of the object in
    memory, and the object is written back. *)
Definition removeDeletionFinalizer (argocd : ObjectMeta)
    : K8s (option error * ObjectMeta) :=
  let argocd :=
    withFinalizers argocd
      (removeString (Finalizers argocd) ArgoCDDeletionFinalizer) in
  r <- updateArgoCD F argocd ;;
  match r with
  | Fail err =>
      ret (Some (Errorf "failed to remove deletion finalizer from "
                        (Name argocd) err), argocd)
  | Ok _ => ret (None, argocd)
  end.

(** [addDeletionFinalizer]. *)
Definition addDeletionFinalizer (argocd : ObjectMeta)
    : K8s (option error * ObjectMeta) :=
  let argocd :=
    withFinalizers argocd (Finalizers argocd ++ [ArgoCDDeletionFinalizer]) in
  r <- updateArgoCD F argocd ;;
  match r with
  | Fail err =>
      ret (Some (Errorf "failed to add deletion finalizer for "
                        (Name argocd) err), argocd)
  | Ok _ => ret (None, argocd)
  end.

End Reconciler.

Section Deletion.
Variable F : Faults.

(** Modelled from the spec: the cleanup steps of a deletion, which are not
    among the sources.  Section 4.4: they run in order, and a step that
    fails ends the pass with its error. *)
Fixpoint runCleanup (steps : list (K8s (option error))) : K8s (option error) :=
  match steps with
  | [] => ret None
  | step :: rest => check step ;; runCleanup rest
  end.

(** Modelled from the spec: the branch of [Reconcile] that handles an
    instance whose deletion timestamp is set is not among the sources.
    Section 4.4: the cleanup steps run in order, the label is removed from
    the managed namespaces, a step that fails ends the pass with its error,
    and the finalizer is removed last.  [steps] are the cleanup steps that
    come before the removal of the label. *)
Definition deletionPass (steps : list (K8s (option error)))
    (argocd : ObjectMeta) : K8s (option error) :=
  check runCleanup steps ;;
  check removeManagedByLabelFromNamespaces F (Namespace argocd) ;;
  r <- removeDeletionFinalizer F argocd ;;
  ret (fst r).

End Deletion.

(* ===================================================================== *)
(** * The capability gate *)
(* ===================================================================== *)

(** The package level flags. *)
Record Flags := {
  versionAPIFound : bool;
  prometheusAPIFound : bool;
  routeAPIFound : bool;
  templateAPIFound : bool;
}.

(** [var ( versionAPIFound = false ... )]. *)
Definition initialFlags : Flags :=
  {| versionAPIFound := false; prometheusAPIFound := false;
     routeAPIFound := false; templateAPIFound := false |}.

(** The API groups probed, as named by the imported API packages. *)
Inductive API := ConfigV1 | RouteV1 | MonitoringV1 | TemplateV1.

Global Instance API_eq_dec : EqDecision API.
Proof. solve_decision. Defined.

(** The flags and the discovery calls made so far, oldest first. *)
Record Gate := {
  flags : Flags;
  probed : list API;
}.

Definition setVersion (b : bool) (f : Flags) : Flags :=
  {| versionAPIFound := b; prometheusAPIFound := prometheusAPIFound f;
     routeAPIFound := routeAPIFound f; templateAPIFound := templateAPIFound f |}.
Definition setPrometheus (b : bool) (f : Flags) : Flags :=
  {| versionAPIFound := versionAPIFound f; prometheusAPIFound := b;
     routeAPIFound := routeAPIFound f; templateAPIFound := templateAPIFound f |}.
Definition setRoute (b : bool) (f : Flags) : Flags :=
  {| versionAPIFound := versionAPIFound f;
     prometheusAPIFound := prometheusAPIFound f;
     routeAPIFound := b; templateAPIFound := templateAPIFound f |}.
Definition setTemplate (b : bool) (f : Flags) : Flags :=
  {| versionAPIFound := versionAPIFound f;
     prometheusAPIFound := prometheusAPIFound f;
     routeAPIFound := routeAPIFound f; templateAPIFound := b |}.

Definition assign (set : bool → Flags → Flags) (b : bool) : State Gate unit :=
  λ g, ((), {| flags := set b (flags g); probed := probed g |}).

Section CapabilityGate.

(** What the discovery client answers for each API group. *)
Variable discovery : API → result bool.

(** [argoutil.VerifyAPI(group, version)]. *)
Definition VerifyAPI (api : API) : State Gate (result bool) :=
  λ g, (discovery api, {| flags := flags g; probed := probed g ++ [api] |}).

(** [verifyVersionAPI]. *)
Definition verifyVersionAPI : State Gate (option error) :=
  found <- VerifyAPI ConfigV1 ;;
  match found with
  | Fail err => ret (Some err)
  | Ok found => assign setVersion found ;;; ret None
  end.

Definition verifyRouteAPI : State Gate (option error) :=
  found <- VerifyAPI RouteV1 ;;
  match found with
  | Fail err => ret (Some err)
  | Ok found => assign setRoute found ;;; ret None
  end.

Definition verifyPrometheusAPI : State Gate (option error) :=
  found <- VerifyAPI MonitoringV1 ;;
  match found with
  | Fail err => ret (Some err)
  | Ok found => assign setPrometheus found ;;; ret None
  end.

Definition verifyTemplateAPI : State Gate (option error) :=
  found <- VerifyAPI TemplateV1 ;;
  match found with
  | Fail err => ret (Some err)
  | Ok found => assign setTemplate found ;;; ret None
  end.

(** [InspectCluster] of [controllers/argocd/TOBEREMOVED.go]. *)
Definition InspectCluster : State Gate (option error) :=
  check verifyPrometheusAPI ;;
  check verifyRouteAPI ;;
  check verifyTemplateAPI ;;
  check verifyVersionAPI ;;
  ret None.

(** Modelled from the spec: [monitoring.VerifyPrometheusAPI] is not among
    the sources.  Section 4.5: each flag is discovered by a support check of
    its API group, and a failure leaves the flag at its last known value;
    this is the body of [cluster.VerifyVersionAPI], which is among them. *)
Definition monitoring_VerifyPrometheusAPI : State Gate (option error) :=
  verifyPrometheusAPI.

(** Modelled from the spec: [networking.VerifyRouteAPI] is not among the
    sources; see [monitoring_VerifyPrometheusAPI]. *)
Definition networking_VerifyRouteAPI : State Gate (option error) :=
  verifyRouteAPI.

(** Modelled from the spec: [workloads.VerifyTemplateAPI] is not among the
    sources; see [monitoring_VerifyPrometheusAPI]. *)
Definition workloads_VerifyTemplateAPI : State Gate (option error) :=
  verifyTemplateAPI.

(** [cluster.VerifyVersionAPI] of [pkg/cluster/openshift.go]. *)
Definition cluster_VerifyVersionAPI : State Gate (option error) :=
  verifyVersionAPI.

(** [if err := m; err != nil { inspectError = err }]. *)
Definition keepError (m : State Gate (option error))
    (inspectError : option error) : State Gate (option error) :=
  err <- m ;;
  match err with
  | Some e => ret (Some e)
  | None => ret inspectError
  end.

(** The newer [InspectCluster], which remembers the last error and goes
    on. *)
Definition InspectCluster_pkg : State Gate (option error) :=
  let inspectError := None in
  inspectError <- keepError monitoring_VerifyPrometheusAPI inspectError ;;
  inspectError <- keepError networking_VerifyRouteAPI inspectError ;;
  inspectError <- keepError workloads_VerifyTemplateAPI inspectError ;;
  inspectError <- keepError cluster_VerifyVersionAPI inspectError ;;
  ret inspectError.

End CapabilityGate.

(* ===================================================================== *)
(** * The order of the per resource reconcilers *)
(* ===================================================================== *)

(** The resources of the server component. *)
Inductive ServerResource :=
  | ServiceAccount | ClusterRole | ClusterRoleBinding | Roles | RoleBindings
  | Deployment | Service | HorizontalPodAutoscaler | Ingresses | Route.

Global Instance ServerResource_eq_dec : EqDecision ServerResource.
Proof. solve_decision. Defined.

(** A method of [ServerReconciler] that reconciles or deletes one kind of
    resource. *)
Inductive ServerOp :=
  | OpReconcile (res : ServerResource)
  | OpDelete (res : ServerResource).

Global Instance ServerOp_eq_dec : EqDecision ServerOp.
Proof. solve_decision. Defined.

Definition resourceOf (op : ServerOp) : ServerResource :=
  match op with OpReconcile res => res | OpDelete res => res end.

(** What [cluster.GetNamespace] finds: whether the deletion timestamp of
    the namespace is set. *)
Record NamespaceStatus := { DeletionTimestamp : bool }.

Section ServerReconciler.

(** The per resource methods are external to this development: each is
    represented by its outcome, and its invocation is recorded. *)
Variable outcome : ServerOp → option error.
Variable GetNamespace_result : result NamespaceStatus.
Variable IsRouteAPIAvailable : bool.

Definition invoke (op : ServerOp) : State (list ServerOp) (option error) :=
  λ t, (outcome op, t ++ [op]).

(** [ServerReconciler.DeleteResources]. *)
Definition DeleteResources : State (list ServerOp) (option error) :=
  check (if IsRouteAPIAvailable then invoke (OpDelete Route) else ret None) ;;
  check invoke (OpDelete Ingresses) ;;
  check invoke (OpDelete HorizontalPodAutoscaler) ;;
  check invoke (OpDelete Service) ;;
  check invoke (OpDelete Deployment) ;;
  check invoke (OpDelete RoleBindings) ;;
  check invoke (OpDelete Roles) ;;
  check invoke (OpDelete ClusterRoleBinding) ;;
  check invoke (OpDelete ClusterRole) ;;
  check invoke (OpDelete ServiceAccount) ;;
  ret None.

(** The steady state part of [ServerReconciler.Reconcile]: the namespace
    exists and is not being deleted. *)
Definition reconcileAll : State (list ServerOp) (option error) :=
  check invoke (OpReconcile ServiceAccount) ;;
  check invoke (OpReconcile ClusterRole) ;;
  check invoke (OpReconcile ClusterRoleBinding) ;;
  check invoke (OpReconcile Roles) ;;
  check invoke (OpReconcile RoleBindings) ;;
  check invoke (OpReconcile Deployment) ;;
  check invoke (OpReconcile Service) ;;
  check invoke (OpReconcile HorizontalPodAutoscaler) ;;
  check invoke (OpReconcile Ingresses) ;;
  check (if IsRouteAPIAvailable then invoke (OpReconcile Route) else ret None) ;;
  ret None.

(** [ServerReconciler.Reconcile]. *)
Definition Reconcile : State (list ServerOp) (option error) :=
  match GetNamespace_result with
  | Fail err => ret (Some err)
  | Ok ns =>
      if DeletionTimestamp ns then DeleteResources else reconcileAll
  end.

End ServerReconciler.

(** The reconcilers called by [reconcileResources]. *)
Inductive Reconciler :=
  | reconcileStatus | reconcileRoles | reconcileRoleBindings
  | reconcileServiceAccounts | reconcileCertificateAuthority
  | reconcileSecrets | reconcileConfigMaps | reconcileServices
  | reconcileDeployments | reconcileStatefulSets | reconcileAutoscalers
  | reconcileIngresses | reconcileRoutes | reconcilePrometheus
  | reconcileMetricsServiceMonitor | reconcileRepoServerServiceMonitor
  | reconcileServerMetricsServiceMonitor | reconcileApplicationSetController
  | reconcileRepoServerTLSSecret | reconcileSSO.

Global Instance Reconciler_eq_dec : EqDecision Reconciler.
Proof. solve_decision. Defined.

(** The parts of the instance and of the capability flags that
    [reconcileResources] reads. *)
Record ReconcileInput := {
  routeAPI : bool;
  prometheusAPI : bool;
  hasApplicationSet : bool;
  hasSSO : bool;
}.

Section ReconcileResources.

Variable outcome : Reconciler → option error.
Variable cr : ReconcileInput.

Definition run (f : Reconciler) : State (list Reconciler) (option error) :=
  λ t, (outcome f, t ++ [f]).

(** [reconcileResources] will reconcile common ArgoCD resources. *)
Definition reconcileResources : State (list Reconciler) (option error) :=
  check run reconcileStatus ;;
  check run reconcileRoles ;;
  check run reconcileRoleBindings ;;
  check run reconcileServiceAccounts ;;
  check run reconcileCertificateAuthority ;;
  check run reconcileSecrets ;;
  check run reconcileConfigMaps ;;
  check run reconcileServices ;;
  check run reconcileDeployments ;;
  check run reconcileStatefulSets ;;
  check run reconcileAutoscalers ;;
  check run reconcileIngresses ;;
  check (if routeAPI cr then run reconcileRoutes else ret None) ;;
  check (if prometheusAPI cr then
           check run reconcilePrometheus ;;
           check run reconcileMetricsServiceMonitor ;;
           check run reconcileRepoServerServiceMonitor ;;
           check run reconcileServerMetricsServiceMonitor ;;
           ret None
         else ret None) ;;
  check (if hasApplicationSet cr then run reconcileApplicationSetController
         else ret None) ;;
  check run reconcileRepoServerTLSSecret ;;
  check (if hasSSO cr then run reconcileSSO else ret None) ;;
  ret None.

End ReconcileResources.


(* ===================================================================== *)
(** * Notions used to state the properties *)
(* ===================================================================== *)

(** The flag that the probe of an API group writes. *)
Definition flagOf (api : API) (f : Flags) : bool :=
  match api with
  | ConfigV1 => versionAPIFound f
  | RouteV1 => routeAPIFound f
  | MonitoringV1 => prometheusAPIFound f
  | TemplateV1 => templateAPIFound f
  end.

(** The verification function of an API group. *)
Definition verify (discovery : API → result bool) (api : API)
    : State Gate (option error) :=
  match api with
  | ConfigV1 => verifyVersionAPI discovery
  | RouteV1 => verifyRouteAPI discovery
  | MonitoringV1 => verifyPrometheusAPI discovery
  | TemplateV1 => verifyTemplateAPI discovery
  end.

(** The probes of [InspectCluster], in the order of the calls. *)
Definition allProbes : list API := [MonitoringV1; RouteV1; TemplateV1; ConfigV1].

(** The probes up to and including the first one that fails. *)
Fixpoint untilFirstFailure (discovery : API → result bool) (l : list API)
    : list API :=
  match l with
  | [] => []
  | api :: rest =>
      match discovery api with
      | Fail _ => [api]
      | Ok _ => api :: untilFirstFailure discovery rest
      end
  end.

Fixpoint firstError (discovery : API → result bool) (l : list API)
    : option error :=
  match l with
  | [] => None
  | api :: rest =>
      match discovery api with
      | Fail err => Some err
      | Ok _ => firstError discovery rest
      end
  end.

Fixpoint lastError (discovery : API → result bool) (l : list API)
    (acc : option error) : option error :=
  match l with
  | [] => acc
  | api :: rest =>
      match discovery api with
      | Fail err => lastError discovery rest (Some err)
      | Ok _ => lastError discovery rest acc
      end
  end.

(** The value of the flag of [api] after the probes [attempted] have run
    from the flags [f]. *)
Definition flagAfter (discovery : API → result bool) (attempted : list API)
    (f : Flags) (api : API) : bool :=
  match discovery api with
  | Ok found => if decide (api ∈ attempted) then found else flagOf api f
  | Fail _ => flagOf api f
  end.

(** An inspection attempts every probe, whatever the other probes answer,
    and every probe that succeeds writes its flag. *)
Definition attemptsEveryProbe
    (inspect : (API → result bool) → State Gate (option error)) : Prop :=
  ∀ discovery g,
    probed (snd (inspect discovery g)) = probed g ++ allProbes
    ∧ ∀ api, flagOf api (flags (snd (inspect discovery g)))
             = flagAfter discovery allProbes (flags g) api.

(** Running a fixed list of steps as the specification describes it: the
    steps are invoked in order and the first one that returns an error ends
    the pass with that error.  The result is the error and the steps
    invoked. *)
Fixpoint firstFailure {Op} (outcome : Op → option error) (l : list Op)
    : option error * list Op :=
  match l with
  | [] => (None, [])
  | op :: rest =>
      match outcome op with
      | Some e => (Some e, [op])
      | None =>
          let '(e, t) := firstFailure outcome rest in (e, op :: t)
      end
  end.

(** The resources of the server component in the order in which
    [ServerReconciler.Reconcile] handles them. *)
Definition serverOrder (route : bool) : list ServerResource :=
  [ServiceAccount; ClusterRole; ClusterRoleBinding; Roles; RoleBindings;
   Deployment; Service; HorizontalPodAutoscaler; Ingresses]
  ++ (if route then [Route] else []).

(** The reconcilers in the order in which [reconcileResources] calls
    them. *)
Definition resourcesOrder (cr : ReconcileInput) : list Reconciler :=
  [reconcileStatus; reconcileRoles; reconcileRoleBindings;
   reconcileServiceAccounts; reconcileCertificateAuthority; reconcileSecrets;
   reconcileConfigMaps; reconcileServices; reconcileDeployments;
   reconcileStatefulSets; reconcileAutoscalers; reconcileIngresses]
  ++ (if routeAPI cr then [reconcileRoutes] else [])
  ++ (if prometheusAPI cr
      then [reconcilePrometheus; reconcileMetricsServiceMonitor;
            reconcileRepoServerServiceMonitor;
            reconcileServerMetricsServiceMonitor]
      else [])
  ++ (if hasApplicationSet cr then [reconcileApplicationSetController] else [])
  ++ [reconcileRepoServerTLSSecret]
  ++ (if hasSSO cr then [reconcileSSO] else []).

(** The groups of resource kinds that the specification orders: service
    accounts, roles and bindings, workloads, services, ingress and route,
    and the extras that depend on a capability. *)
Inductive Group :=
  | GServiceAccounts | GRolesBindings | GWorkloads | GServices
  | GIngressRoute | GExtras.

Definition rank (g : Group) : nat :=
  match g with
  | GServiceAccounts => 0 | GRolesBindings => 1 | GWorkloads => 2
  | GServices => 3 | GIngressRoute => 4 | GExtras => 5
  end.

(** The group of a server resource; the autoscaler is in none of them. *)
Definition groupOfResource (res : ServerResource) : option Group :=
  match res with
  | ServiceAccount => Some GServiceAccounts
  | ClusterRole | ClusterRoleBinding | Roles | RoleBindings =>
      Some GRolesBindings
  | Deployment => Some GWorkloads
  | Service => Some GServices
  | Ingresses | Route => Some GIngressRoute
  | HorizontalPodAutoscaler => None
  end.

(** The group of a reconciler of [reconcileResources]; status, secrets,
    config maps, autoscalers and the optional components are in none. *)
Definition groupOfReconciler (f : Reconciler) : option Group :=
  match f with
  | reconcileServiceAccounts => Some GServiceAccounts
  | reconcileRoles | reconcileRoleBindings => Some GRolesBindings
  | reconcileDeployments | reconcileStatefulSets => Some GWorkloads
  | reconcileServices => Some GServices
  | reconcileIngresses | reconcileRoutes => Some GIngressRoute
  | reconcilePrometheus | reconcileMetricsServiceMonitor
  | reconcileRepoServerServiceMonitor
  | reconcileServerMetricsServiceMonitor => Some GExtras
  | _ => None
  end.

Fixpoint nondecreasing (l : list nat) : bool :=
  match l with
  | a :: rest =>
      match rest with
      | b :: _ => Nat.leb a b && nondecreasing rest
      | [] => true
      end
  | [] => true
  end.

(** The steps of a pass, as far as they belong to a group, come group by
    group in the order of the specification. *)
Definition followsGroupOrder {Op} (groupOf : Op → option Group)
    (steps : list Op) : bool :=
  nondecreasing (rank <$> omap groupOf steps).

(** Every step of a pass returns nil. *)
Definition allSucceed {Op} : Op → option error := λ _, None.

Definition steadyState : result NamespaceStatus :=
  Ok {| DeletionTimestamp := false |}.

(** The calls made between the state [w] and the later state [w']. *)
Definition newCalls (w w' : World) : list Call :=
  drop (length (calls w)) (calls w').

(** Once a role binding has been deleted, no role is deleted any more. *)
Definition rolesBeforeBindings (t : list Call) : Prop :=
  ∀ pre post ns name, t = pre ++ DeleteRoleBinding ns name :: post →
    ∀ ns' name', DeleteRole ns' name' ∉ post.

(** Once a role has been deleted, no role binding is deleted any more:
    what the specification asks of the cleanup. *)
Definition bindingsBeforeRoles (t : list Call) : Prop :=
  ∀ pre post ns name, t = pre ++ DeleteRole ns name :: post →
    ∀ ns' name', DeleteRoleBinding ns' name' ∉ post.

Definition isSecretCall (c : Call) : Prop :=
  match c with
  | ListSecrets _ _ _ | UpdateSecret _ _ => True
  | _ => False
  end.

(** The names in [r.ManagedNamespaces]. *)
Definition managedNames (r : ReconcileArgoCD) : list string :=
  match ManagedNamespaces r with
  | Some items => Name <$> items
  | None => []
  end.

(** The update event sent when the label of [ns] is removed. *)
Definition labelRemoved (ns : ObjectMeta) : UpdateEvent :=
  {| ObjectOld := ns;
     ObjectNew := deleteLabel ArgoCDManagedByLabel ns |}.

(** The delete predicate does for the deleted namespace what the update
    predicate does when the label is removed. *)
Definition deleteCleansLikeLabelChange (F : Faults) (server : string)
    (e : DeleteEvent) (w : World) : Prop :=
  cluster (snd (DeleteFunc F server e w))
  = cluster (snd (UpdateFunc F server (labelRemoved (Object e)) w)).

(** The error is one of listing the namespaces or of fetching one of
    them: refused by the API server, or the namespace does not exist. *)
Definition fromListOrGet (F : Faults) (err : error) : Prop :=
  (∃ t key value, F t (ListNamespaces key value) = Some err)
  ∨ (∃ t name, F t (GetNamespace name) = Some err)
  ∨ (∃ name, err = errNotFound "namespaces" name).

(** The API server refuses nothing but updates of namespaces. *)
Definition onlyUpdatesFail (F : Faults) : Prop :=
  ∀ t c, is_Some (F t c) → ∃ name, c = UpdateNamespace name.

(** Namespaces are cluster scoped: their own namespace field is empty. *)
Definition clusterScoped (c : Cluster) : Prop :=
  ∀ ns, ns ∈ namespaces c → Namespace ns = "".

(* ===================================================================== *)
(** * Concrete inputs *)
(* ===================================================================== *)

Definition unavailable : error :=
  Err "the server is currently unable to handle the request".

(** Discovery fails for the Route API and finds the other groups. *)
Definition routeDown : API → result bool :=
  λ api, match api with
         | RouteV1 => Fail unavailable
         | _ => Ok true
         end.

(** Discovery fails for the Prometheus API and finds the other groups. *)
Definition prometheusDown : API → result bool :=
  λ api, match api with
         | MonitoringV1 => Fail unavailable
         | _ => Ok true
         end.

(** The Route API has been found by an earlier inspection. *)
Definition routeSeen : Gate :=
  {| flags := setRoute true initialFlags; probed := [] |}.

Definition freshGate : Gate := {| flags := initialFlags; probed := [] |}.

(** A cluster with every optional API and component. *)
Definition fullInput : ReconcileInput :=
  {| routeAPI := true; prometheusAPI := true; hasApplicationSet := true;
     hasSSO := true |}.

Definition mkMeta (ns name : string) (l : list (string * string))
    : ObjectMeta :=
  {| Name := name; Namespace := ns; Labels := Some (list_to_map l);
     Finalizers := [] |}.

Definition defaultServer : string := "https://kubernetes.default.svc".

Definition clusterSecret (namespaces : string) : Secret :=
  {| SecretMeta :=
       mkMeta "ns1" "argocd-default-cluster-config"
              [(ArgoCDSecretTypeLabel, "cluster")];
     Data := list_to_map [("server", defaultServer);
                          ("namespaces", namespaces)] |}.

(** The instance [demo] lives in [ns1] and manages [ns2], where it has
    created a role and a role binding. *)
Definition demo : ObjectMeta :=
  {| Name := "demo"; Namespace := "ns1"; Labels := None;
     Finalizers := [ArgoCDDeletionFinalizer] |}.

Definition demoCluster (namespaces : string) : Cluster :=
  {| namespaces :=
       [mkMeta "" "ns1" []; mkMeta "" "ns2" [(ArgoCDManagedByLabel, "ns1")]];
     roles := [mkMeta "ns2" "demo-argocd-server" [(ArgoCDKeyPartOf, "argocd")]];
     roleBindings :=
       [mkMeta "ns2" "demo-argocd-server" [(ArgoCDKeyPartOf, "argocd")]];
     secrets := [clusterSecret namespaces];
     argocds := [demo] |}.

Definition demoWorld (namespaces : string) : World :=
  {| cluster := demoCluster namespaces; calls := [] |}.

Definition ns2Deleted : DeleteEvent :=
  {| Object := mkMeta "" "ns2" [(ArgoCDManagedByLabel, "ns1")] |}.

(** The [namespaces] field of the stored cluster secrets. *)
Definition storedNamespaces (w : World) : list (option string) :=
  (λ s, Data s !! "namespaces") <$> secrets (cluster w).

(** Every update of a namespace is refused. *)
Definition updatesConflict : Faults :=
  λ _ c, match c with
         | UpdateNamespace _ =>
             Some (Err "the object has been modified")
         | _ => None
         end.

(** Listing namespaces is refused. *)
Definition listRefused : Faults :=
  λ _ c, match c with
         | ListNamespaces _ _ => Some unavailable
         | _ => None
         end.

(* ===================================================================== *)
(** * Further functions of package [argocd] *)
(* ===================================================================== *)

(** [contains] returns true if a string is part of the given slice. *)
Fixpoint contains (s : list string) (g : string) : bool :=
  match s with
  | [] => false
  | a :: rest => if String.eqb a g then true else contains rest g
  end.

(** [len(arg) > 2 && arg[:2] == "--"]. *)
Definition isLongFlag (arg : string) : bool :=
  Nat.ltb 2 (String.length arg) && String.eqb (substring 0 2 arg) "--".

Definition duplicateArgument : error := Err "duplicate argument error".

(** The loop of [isMergable] over [extraArgs]. *)
Fixpoint isMergableLoop (extraArgs cmd : list string) : option error :=
  match extraArgs with
  | [] => None
  | arg :: rest =>
      if isLongFlag arg then
        if contains cmd arg then Some duplicateArgument
        else isMergableLoop rest cmd
      else isMergableLoop rest cmd
  end.

(** [isMergable] returns error if any of the extraArgs is already part of
    the default command Arguments. *)
Definition isMergable (extraArgs cmd : list string) : option error :=
  if Nat.ltb 0 (length extraArgs) then isMergableLoop extraArgs cmd
  else None.

Definition ArgoCDDefaultServerOperationProcessors : Z := 10.
Definition ArgoCDDefaultServerStatusProcessors : Z := 20.

(** [getArgoServerOperationProcessors], on the [int32] value
    [cr.Spec.Controller.Processors.Operation]. *)
Definition getArgoServerOperationProcessors (operation : Z) : Z :=
  let op := ArgoCDDefaultServerOperationProcessors in
  if Z.ltb op operation then operation else op.

(** [getArgoServerStatusProcessors], on the [int32] value
    [cr.Spec.Controller.Processors.Status]. *)
Definition getArgoServerStatusProcessors (status : Z) : Z :=
  let sp := ArgoCDDefaultServerStatusProcessors in
  if Z.ltb sp status then status else sp.

Definition ArgoCDManagedByClusterArgoCDLabel : string :=
  "argocd.argoproj.io/managed-by-cluster-argocd".

(** [for _, namespace := range namespaces.Items]: every name becomes a key
    of the map, with the empty string as its value. *)
Fixpoint addSourceNamespaces (items : list ObjectMeta)
    (m : gmap string string) : gmap string string :=
  match items with
  | [] => m
  | namespace :: rest => addSourceNamespaces rest (<[Name namespace := ""]> m)
  end.

Section SourceNamespaces.
Variable F : Faults.

(** [setManagedSourceNamespaces], on the field [r.ManagedSourceNamespaces]:
    [old] is the map before the call, the result holds the map after it.
    The field is replaced by a fresh map before the namespaces are
    listed. *)
Definition setManagedSourceNamespaces (old : gmap string string)
    (cr : ObjectMeta) : K8s (option error * gmap string string) :=
  let ManagedSourceNamespaces : gmap string string := ∅ in
  namespaces <- listNamespaces F ArgoCDManagedByClusterArgoCDLabel (Namespace cr) ;;
  match namespaces with
  | Fail err => ret (Some err, ManagedSourceNamespaces)
  | Ok items => ret (None, addSourceNamespaces items ManagedSourceNamespaces)
  end.

End SourceNamespaces.

(** The resource types registered with the controller builder. *)
Inductive Kind :=
  | KArgoCD | KConfigMap | KSecret | KService | KDeployment | KIngress
  | KRole | KRoleBinding | KClusterRoleBinding | KClusterRole | KTLSSecret
  | KStatefulSet | KRoute | KPrometheus | KServiceMonitor
  | KDeploymentConfig | KNamespace.

Global Instance Kind_eq_dec : EqDecision Kind.
Proof. solve_decision. Defined.

Inductive Handler :=
  | clusterResourceHandler | tlsSecretHandler | namespaceHandler
  | EnqueueRequestForOwner.

Global Instance Handler_eq_dec : EqDecision Handler.
Proof. solve_decision. Defined.

Inductive Predicate :=
  | deleteSSOPred | deploymentConfigPred | namespaceFilterPredicate.

Global Instance Predicate_eq_dec : EqDecision Predicate.
Proof. solve_decision. Defined.

(** A call of [bldr.For], [bldr.Owns] or [bldr.Watches]. *)
Inductive Registration :=
  | For (k : Kind) (p : Predicate)
  | Owns (k : Kind)
  | Watches (k : Kind) (h : Handler) (p : option Predicate).

Global Instance Registration_eq_dec : EqDecision Registration.
Proof. solve_decision. Defined.

Section ResourceWatches.
Variable discovery : API → result bool.

(** The [InspectCluster] that stands in the same file as
    [setResourceWatches]: it has no probe of the Version API. *)
Definition InspectCluster_v1alpha1 : State Gate (option error) :=
  check verifyPrometheusAPI discovery ;;
  check verifyRouteAPI discovery ;;
  check verifyTemplateAPI discovery ;;
  ret None.

(** [setResourceWatches] will register Watches for each of the supported
    Resources.  [bldr] holds the registrations made so far; an error of the
    inspection is logged. *)
Definition setResourceWatches (bldr : list Registration) (g : Gate)
    : list Registration * Gate :=
  let bldr := bldr ++ [For KArgoCD deleteSSOPred] in
  let bldr := bldr ++ [Owns KConfigMap] in
  let bldr := bldr ++ [Owns KSecret] in
  let bldr := bldr ++ [Owns KService] in
  let bldr := bldr ++ [Owns KDeployment] in
  let bldr := bldr ++ [Owns KIngress] in
  let bldr := bldr ++ [Owns KRole] in
  let bldr := bldr ++ [Owns KRoleBinding] in
  let bldr := bldr ++ [Watches KClusterRoleBinding clusterResourceHandler None] in
  let bldr := bldr ++ [Watches KClusterRole clusterResourceHandler None] in
  let bldr := bldr ++ [Watches KTLSSecret tlsSecretHandler None] in
  let bldr := bldr ++ [Owns KStatefulSet] in
  let '(_, g) := InspectCluster_v1alpha1 g in
  let bldr :=
    if routeAPIFound (flags g) then bldr ++ [Owns KRoute] else bldr in
  let bldr :=
    if prometheusAPIFound (flags g)
    then (bldr ++ [Owns KPrometheus]) ++ [Owns KServiceMonitor]
    else bldr in
  let bldr :=
    if templateAPIFound (flags g)
    then bldr ++ [Watches KDeploymentConfig EnqueueRequestForOwner
                    (Some deploymentConfigPred)]
    else bldr in
  let bldr :=
    bldr ++ [Watches KNamespace namespaceHandler
               (Some namespaceFilterPredicate)] in
  (bldr, g).

End ResourceWatches.

(** [corev1.EnvVar]. *)
Record EnvVar := { EnvName : string; EnvValue : string }.

Section Proxy.

(** [os.Getenv]: the value of a variable, empty when it is not set. *)
Variable Getenv : string → string.

(** [strings.ToLower]. *)
Variable strings_ToLower : string → string.

Definition caseInsensitiveGetenv (s : string) : string * string :=
  let v := Getenv s in
  if negb (String.eqb v "") then (s, v)
  else
    let ls := strings_ToLower s in
    let v := Getenv ls in
    if negb (String.eqb v "") then (ls, v) else ("", "").

(** [for _, p := range proxyKeys]. *)
Fixpoint proxyLoop (proxyKeys : list string) (result : list EnvVar)
    : list EnvVar :=
  match proxyKeys with
  | [] => result
  | p :: rest =>
      let '(k, v) := caseInsensitiveGetenv p in
      if negb (String.eqb k "")
      then proxyLoop rest (result ++ [{| EnvName := k; EnvValue := v |}])
      else proxyLoop rest result
  end.

Definition proxyEnvVars (vars : list EnvVar) : list EnvVar :=
  let result := [] in
  let result := result ++ vars in
  let proxyKeys := ["HTTP_PROXY"; "HTTPS_PROXY"; "NO_PROXY"] in
  proxyLoop proxyKeys result.

End Proxy.

(* ===================================================================== *)
(** * Notions used to state further properties *)
(* ===================================================================== *)

(** The condition under which [reconcileResources] calls a reconciler. *)
Definition gateOf (cr : ReconcileInput) (f : Reconciler) : bool :=
  match f with
  | reconcileRoutes => routeAPI cr
  | reconcilePrometheus | reconcileMetricsServiceMonitor
  | reconcileRepoServerServiceMonitor
  | reconcileServerMetricsServiceMonitor => prometheusAPI cr
  | reconcileApplicationSetController => hasApplicationSet cr
  | reconcileSSO => hasSSO cr
  | _ => true
  end.

Definition terminating : result NamespaceStatus :=
  Ok {| DeletionTimestamp := true |}.

(** The registrations that [setResourceWatches] makes before it inspects
    the cluster. *)
Definition baseWatches : list Registration :=
  [For KArgoCD deleteSSOPred; Owns KConfigMap; Owns KSecret; Owns KService;
   Owns KDeployment; Owns KIngress; Owns KRole; Owns KRoleBinding;
   Watches KClusterRoleBinding clusterResourceHandler None;
   Watches KClusterRole clusterResourceHandler None;
   Watches KTLSSecret tlsSecretHandler None; Owns KStatefulSet].

(** The registrations that depend on the capability flags. *)
Definition optionalWatches (f : Flags) : list Registration :=
  (if routeAPIFound f then [Owns KRoute] else [])
  ++ (if prometheusAPIFound f then [Owns KPrometheus; Owns KServiceMonitor]
      else [])
  ++ (if templateAPIFound f
      then [Watches KDeploymentConfig EnqueueRequestForOwner
              (Some deploymentConfigPred)]
      else []).

Definition namespaceWatch : Registration :=
  Watches KNamespace namespaceHandler (Some namespaceFilterPredicate).

(** The deletion of the server deployment is refused. *)
Definition deploymentStuck : ServerOp → option error :=
  λ op, match op with
        | OpDelete Deployment => Some unavailable
        | _ => None
        end.

(** The probes made between the state [g] and the later state [g']. *)
Definition newProbes (g g' : Gate) : list API :=
  drop (length (probed g)) (probed g').

(** Roles of Argo CD in [ns2] and in [ns3]. *)
Definition otherRolesWorld : World :=
  {| cluster :=
       {| namespaces := [];
          roles :=
            [mkMeta "ns2" "demo-argocd-server" [(ArgoCDKeyPartOf, "argocd")];
             mkMeta "ns3" "demo-argocd-server" [(ArgoCDKeyPartOf, "argocd")]];
          roleBindings := [];
          secrets := [];
          argocds := [] |};
     calls := [] |}.

(** The namespace [ns3] receives the managing-instance label. *)
Definition labelAdded : UpdateEvent :=
  {| ObjectOld := mkMeta "" "ns3" [];
     ObjectNew := mkMeta "" "ns3" [(ArgoCDManagedByLabel, "ns1")] |}.

(** The namespace [ns] without the managing-instance label, when the label
    names [namespace]; unchanged otherwise. *)
Definition stripManagedBy (namespace : string) (ns : ObjectMeta) : ObjectMeta :=
  if decide (hasLabel ArgoCDManagedByLabel namespace ns)
  then deleteLabel ArgoCDManagedByLabel ns
  else ns.

(** No two namespaces of the cluster have the same name. *)
Definition uniqueNames (c : Cluster) : Prop := NoDup (Name <$> namespaces c).

(** The secret [s'] is the secret [s] up to the value of its [namespaces]
    field. *)
Definition sameButNamespaces (s s' : Secret) : Prop :=
  SecretMeta s' = SecretMeta s
  ∧ ∀ key, key ≠ "namespaces" → Data s' !! key = Data s !! key.

(** The entries of the stored list that [sourceNS] is not: what
    [deleteManagedNamespaceFromClusterSecret] keeps. *)
Definition keptNamespaces (sourceNS namespaces : string) : list string :=
  filter (λ n, n ≠ sourceNS) (splitList namespaces).

(** The namespaces [ns3] and [ns4] are source namespaces of the instance in
    [ns1], the namespace [ns5] of another instance. *)
Definition sourceWorld : World :=
  {| cluster :=
       {| namespaces :=
            [mkMeta "" "ns1" [];
             mkMeta "" "ns3" [(ArgoCDManagedByClusterArgoCDLabel, "ns1")];
             mkMeta "" "ns4" [(ArgoCDManagedByClusterArgoCDLabel, "ns1")];
             mkMeta "" "ns5" [(ArgoCDManagedByClusterArgoCDLabel, "ns9")]];
          roles := []; roleBindings := []; secrets := []; argocds := [] |};
     calls := [] |}.

(** An environment that sets [HTTP_PROXY] and, in lower case, [no_proxy]. *)
Definition proxyEnv : string → string :=
  λ s, if String.eqb s "HTTP_PROXY" then "http://proxy:3128"
       else if String.eqb s "no_proxy" then "localhost"
       else "".

(** The lower case of the three proxy keys. *)
Definition lowerKeys : string → string :=
  λ s, if String.eqb s "HTTP_PROXY" then "http_proxy"
       else if String.eqb s "HTTPS_PROXY" then "https_proxy"
       else if String.eqb s "NO_PROXY" then "no_proxy"
       else s.

(** The namespaces fetched in a trace of calls, by name and in order. *)
Definition fetchedNames (t : list Call) : list string :=
  omap (λ c, match c with GetNamespace name => Some name | _ => None end) t.

(** The namespaces whose update was attempted in a trace of calls. *)
Definition updatedNames (t : list Call) : list string :=
  omap (λ c, match c with UpdateNamespace name => Some name | _ => None end) t.

(** Every deletion of a role or of a role binding is refused. *)
Definition deletesRefused : Faults :=
  λ _ c, match c with
         | DeleteRole _ _ | DeleteRoleBinding _ _ => Some (Err "forbidden")
         | _ => None
         end.

(** Listing role bindings is refused. *)
Definition bindingsListRefused : Faults :=
  λ _ c, match c with
         | ListRoleBindings _ _ _ => Some unavailable
         | _ => None
         end.

(** An instance that is not stored in the cluster. *)
Definition goneInstance : ObjectMeta :=
  {| Name := "gone"; Namespace := "ns1"; Labels := None;
     Finalizers := [ArgoCDDeletionFinalizer; "keep"] |}.
(* ===================================================================== *)
(** * Properties of the library functions and of the small helpers *)
(* ===================================================================== *)

Example split_three : strings_Split "a, b ,c" "," = ["a"; " b "; "c"].
Proof. reflexivity. Qed.

Example split_empty : strings_Split "" "," = [""].
Proof. reflexivity. Qed.

Example trim_ascii : strings_TrimSpace "  ns 1 " = "ns 1".
Proof. reflexivity. Qed.

Example sort_three : sort_Strings ["ns2"; "ns10"; "a"] = ["a"; "ns10"; "ns2"].
Proof. vm_compute. reflexivity. Qed.

Example allowed_star_first : allowedNamespace "foo" " * ,bar" = true.
Proof. reflexivity. Qed.

Example allowed_star_second : allowedNamespace "foo" "bar,*" = false.
Proof. reflexivity. Qed.

Example trim_unicode :
  strings_TrimSpace
    (String (ascii_of_nat 194) (String (ascii_of_nat 160)
       ("ns" +:+ String (ascii_of_nat 226) (String (ascii_of_nat 128)
                   (String (ascii_of_nat 137) " "))))) = "ns".
Proof. reflexivity. Qed.

Lemma strings_Split_nonempty s sep : strings_Split s sep ≠ [].
Proof.
  destruct s as [|c s]; simpl; [done|].
  destruct (Ascii.eqb c sep); [done|].
  by destruct (strings_Split s sep).
Qed.

Lemma splitList_length s : 0 < length (splitList s).
Proof.
  unfold splitList. rewrite length_fmap.
  pose proof (strings_Split_nonempty s ",").
  destruct (strings_Split s ","); simpl; [done|lia].
Qed.

Lemma rangeEquals_elem_of elems current :
  rangeEquals elems current = true ↔ current ∈ elems.
Proof.
  induction elems as [|n rest IH]; simpl.
  - split; [done|]. by intros ?%elem_of_nil.
  - rewrite elem_of_cons. destruct (String.eqb_spec n current) as [->|Hne].
    + split; [intros _; by left|done].
    + rewrite IH. split; [by right|]. by intros [?|?].
Qed.

Lemma removeString_filter slice s :
  removeString slice s = filter (λ item, item ≠ s) slice.
Proof.
  induction slice as [|item rest IH]; simpl; [done|].
  destruct (String.eqb_spec item s) as [->|Hne].
  - by rewrite filter_cons_False by (intros H; by apply H).
  - by rewrite filter_cons_True, IH by done.
Qed.

(** C10: [allowedNamespace current namespaces] is true exactly when the
    first element of the comma separated list, once trimmed, is the
    wildcard, or some trimmed element equals [current].  A wildcard at a
    later position is an ordinary element: when the first element is not the
    wildcard, the answer is true only if [current] itself is in the list. *)
Theorem allowedNamespace_wildcard_first_only (current namespaces : string) :
  (allowedNamespace current namespaces = true ↔
     head (splitList namespaces) = Some "*" ∨ current ∈ splitList namespaces)
  ∧ (head (splitList namespaces) ≠ Some "*" →
     allowedNamespace current namespaces = bool_decide (current ∈ splitList namespaces)).
Proof.
  unfold allowedNamespace.
  pose proof (splitList_length namespaces) as Hlen.
  destruct (splitList namespaces) as [|first rest] eqn:Hsplit; simpl in *; [lia|].
  destruct (String.eqb_spec first "*") as [->|Hne].
  - split; [split; [by left|done]|]. by intros [].
  - split.
    + destruct (String.eqb_spec first current) as [->|Hne'].
      * split; [|done]. intros _. right. apply elem_of_cons. by left.
      * rewrite rangeEquals_elem_of, elem_of_cons.
        split; [by right; right|]. intros [[= ?]|[?|?]]; done.
    + intros _. destruct (String.eqb_spec first current) as [->|Hne'].
      * symmetry. apply bool_decide_eq_true. apply elem_of_cons. by left.
      * apply eq_true_iff_eq. rewrite rangeEquals_elem_of, bool_decide_eq_true.
        rewrite elem_of_cons. split; [by right|]. by intros [?|?].
Qed.

Lemma allowedNamespace_wildcard_witness :
  head (splitList "bar, *") ≠ Some "*"
  ∧ allowedNamespace "foo" "bar, *" = false
  ∧ allowedNamespace "*" "bar, *" = true.
Proof.
  split; [by vm_compute|].
  destruct (allowedNamespace_wildcard_first_only "foo" "bar, *") as [_ H1].
  destruct (allowedNamespace_wildcard_first_only "*" "bar, *") as [_ H2].
  split.
  - rewrite H1; [by vm_compute|by vm_compute].
  - rewrite H2; [by vm_compute|by vm_compute].
Defined.

(* ===================================================================== *)
(** * The capability gate *)
(* ===================================================================== *)

Lemma verify_run discovery api g :
  verify discovery api g =
    match discovery api with
    | Fail err =>
        (Some err, {| flags := flags g; probed := probed g ++ [api] |})
    | Ok found =>
        (None,
         {| flags := match api with
                     | ConfigV1 => setVersion found (flags g)
                     | RouteV1 => setRoute found (flags g)
                     | MonitoringV1 => setPrometheus found (flags g)
                     | TemplateV1 => setTemplate found (flags g)
                     end;
            probed := probed g ++ [api] |})
    end.
Proof.
  destruct api; simpl;
    unfold verifyVersionAPI, verifyRouteAPI, verifyPrometheusAPI,
      verifyTemplateAPI, bind, VerifyAPI, ret, assign; simpl;
    by destruct (discovery _).
Qed.

(** C9: a verification function that returns an error leaves all four
    flags as they were, and in particular its own; whenever the flag of an
    API group differs after the call, the call has returned nil, and the
    flag then holds what discovery answered. *)
Theorem verify_error_keeps_flag discovery (api : API) (g : Gate) :
  (∀ err, fst (verify discovery api g) = Some err →
          flags (snd (verify discovery api g)) = flags g)
  ∧ (flagOf api (flags (snd (verify discovery api g))) ≠ flagOf api (flags g) →
     fst (verify discovery api g) = None
     ∧ discovery api = Ok (flagOf api (flags (snd (verify discovery api g))))).
Proof.
  rewrite verify_run. destruct (discovery api) as [found|e]; simpl.
  - split; [done|]. intros _. split; [done|]. by destruct api.
  - split; [done|]. by intros [].
Qed.

Lemma verify_error_keeps_flag_witness :
  fst (verify routeDown RouteV1 routeSeen) = Some unavailable
  ∧ routeAPIFound (flags (snd (verify routeDown RouteV1 routeSeen))) = true.
Proof.
  split; [reflexivity|].
  destruct (verify_error_keeps_flag routeDown RouteV1 routeSeen) as [H _].
  rewrite (H unavailable); reflexivity.
Defined.

Lemma InspectCluster_run discovery g :
  InspectCluster discovery g =
    (firstError discovery allProbes,
     {| flags :=
          {| versionAPIFound :=
               flagAfter discovery (untilFirstFailure discovery allProbes)
                         (flags g) ConfigV1;
             prometheusAPIFound :=
               flagAfter discovery (untilFirstFailure discovery allProbes)
                         (flags g) MonitoringV1;
             routeAPIFound :=
               flagAfter discovery (untilFirstFailure discovery allProbes)
                         (flags g) RouteV1;
             templateAPIFound :=
               flagAfter discovery (untilFirstFailure discovery allProbes)
                         (flags g) TemplateV1 |};
        probed := probed g ++ untilFirstFailure discovery allProbes |}).
Proof.
  destruct g as [[v p r t] tr].
  unfold InspectCluster, bind, ret.
  pose proof (verify_run discovery MonitoringV1) as Hm.
  pose proof (verify_run discovery RouteV1) as Hr.
  pose proof (verify_run discovery TemplateV1) as Ht.
  pose proof (verify_run discovery ConfigV1) as Hv.
  simpl in Hm, Hr, Ht, Hv. rewrite Hm.
  unfold flagAfter, allProbes. simpl.
  destruct (discovery MonitoringV1); simpl; [rewrite Hr|];
    (destruct (discovery RouteV1); simpl; [try rewrite Ht|]);
    (destruct (discovery TemplateV1); simpl; [try rewrite Hv|]);
    (destruct (discovery ConfigV1); simpl);
    rewrite <- ?(assoc_L (++)); reflexivity.
Qed.

Lemma InspectCluster_pkg_run discovery g :
  InspectCluster_pkg discovery g =
    (lastError discovery allProbes None,
     {| flags :=
          {| versionAPIFound := flagAfter discovery allProbes (flags g) ConfigV1;
             prometheusAPIFound :=
               flagAfter discovery allProbes (flags g) MonitoringV1;
             routeAPIFound := flagAfter discovery allProbes (flags g) RouteV1;
             templateAPIFound :=
               flagAfter discovery allProbes (flags g) TemplateV1 |};
        probed := probed g ++ allProbes |}).
Proof.
  destruct g as [[v p r t] tr].
  unfold InspectCluster_pkg, keepError, bind, ret,
    monitoring_VerifyPrometheusAPI, networking_VerifyRouteAPI,
    workloads_VerifyTemplateAPI, cluster_VerifyVersionAPI.
  pose proof (verify_run discovery MonitoringV1) as Hm.
  pose proof (verify_run discovery RouteV1) as Hr.
  pose proof (verify_run discovery TemplateV1) as Ht.
  pose proof (verify_run discovery ConfigV1) as Hv.
  simpl in Hm, Hr, Ht, Hv. rewrite Hm.
  unfold flagAfter, allProbes. simpl.
  destruct (discovery MonitoringV1); simpl; rewrite Hr;
    (destruct (discovery RouteV1); simpl; rewrite Ht);
    (destruct (discovery TemplateV1); simpl; rewrite Hv);
    (destruct (discovery ConfigV1); simpl);
    rewrite <- ?(assoc_L (++)); reflexivity.
Qed.

(** C8, as stated, fails for the [InspectCluster] of TOBEREMOVED.go: when
    the Prometheus probe fails, the Route, Template and Version probes are
    not attempted and their flags stay false although discovery would find
    the three groups. *)
Lemma InspectCluster_stops_at_first_failure :
  ¬ attemptsEveryProbe InspectCluster
  ∧ probed (snd (InspectCluster prometheusDown freshGate)) = [MonitoringV1]
  ∧ routeAPIFound (flags (snd (InspectCluster prometheusDown freshGate))) = false
  ∧ prometheusDown RouteV1 = Ok true.
Proof.
  split; [|by vm_compute].
  intros H. destruct (H prometheusDown freshGate) as [Hp _].
  vm_compute in Hp. discriminate Hp.
Qed.

(** C8, amended: the newer [InspectCluster] attempts the Prometheus, Route,
    Template and Version probes in this order whatever their results, every
    probe that succeeds writes its flag, and the last error is returned.
    The [InspectCluster] of TOBEREMOVED.go attempts them in the same order
    up to and including the first one that fails, returns the error of that
    one, and leaves the flags of the probes it did not reach or that failed
    as they were. *)
Theorem InspectCluster_probes discovery (g : Gate) :
  attemptsEveryProbe InspectCluster_pkg
  ∧ fst (InspectCluster_pkg discovery g) = lastError discovery allProbes None
  ∧ fst (InspectCluster discovery g) = firstError discovery allProbes
  ∧ probed (snd (InspectCluster discovery g))
    = probed g ++ untilFirstFailure discovery allProbes
  ∧ ∀ api, flagOf api (flags (snd (InspectCluster discovery g)))
           = flagAfter discovery (untilFirstFailure discovery allProbes)
                       (flags g) api.
Proof.
  split; [|split; [|split; [|split]]].
  - intros d g'. rewrite InspectCluster_pkg_run. simpl.
    split; [done|]. by intros [].
  - by rewrite InspectCluster_pkg_run.
  - by rewrite InspectCluster_run.
  - by rewrite InspectCluster_run.
  - rewrite InspectCluster_run. by intros [].
Qed.

(* ===================================================================== *)
(** * The order of the per resource reconcilers *)
(* ===================================================================== *)

Ltac step_outcome outcome :=
  match goal with
  | |- context [outcome ?f] => destruct (outcome f); simpl
  end;
  try (rewrite <- ?(assoc_L (++)); reflexivity).

Lemma reconcileAll_run outcome route t :
  reconcileAll outcome route t =
    (fst (firstFailure outcome (OpReconcile <$> serverOrder route)),
     t ++ snd (firstFailure outcome (OpReconcile <$> serverOrder route))).
Proof.
  unfold reconcileAll, invoke, bind, ret, serverOrder.
  destruct route; simpl; repeat step_outcome outcome.
Qed.

Lemma DeleteResources_run outcome route t :
  DeleteResources outcome route t =
    (fst (firstFailure outcome (OpDelete <$> rev (serverOrder route))),
     t ++ snd (firstFailure outcome (OpDelete <$> rev (serverOrder route)))).
Proof.
  unfold DeleteResources, invoke, bind, ret, serverOrder.
  destruct route; simpl; repeat step_outcome outcome.
Qed.

Lemma reconcileResources_run outcome cr t :
  reconcileResources outcome cr t =
    (fst (firstFailure outcome (resourcesOrder cr)),
     t ++ snd (firstFailure outcome (resourcesOrder cr))).
Proof.
  unfold reconcileResources, run, bind, ret, resourcesOrder.
  destruct cr as [[] [] [] []]; simpl; repeat step_outcome outcome.
Qed.

Lemma firstFailure_prefix {Op} (outcome : Op → option error) l :
  snd (firstFailure outcome l) `prefix_of` l.
Proof.
  induction l as [|op rest IH]; simpl; [done|].
  destruct (outcome op).
  - simpl. by apply prefix_cons, prefix_nil.
  - destruct (firstFailure outcome rest). simpl in *. by apply prefix_cons.
Qed.

Lemma firstFailure_allSucceed {Op} (l : list Op) :
  firstFailure allSucceed l = (None, l).
Proof. induction l as [|op rest IH]; simpl; [done|]. by rewrite IH. Qed.

(** The error returned is that of the last step invoked, and every step
    invoked before it returned nil. *)
Lemma firstFailure_error {Op} (outcome : Op → option error) l e :
  fst (firstFailure outcome l) = Some e →
  ∃ done op, snd (firstFailure outcome l) = done ++ [op]
             ∧ outcome op = Some e ∧ Forall (λ o, outcome o = None) done.
Proof.
  induction l as [|op rest IH]; simpl; [done|].
  destruct (outcome op) eqn:Hop; simpl.
  - intros [= ->]. exists [], op. by repeat split.
  - destruct (firstFailure outcome rest) as [e' t']. simpl in *.
    intros He. destruct (IH He) as (dn & op' & -> & Ho & Hd).
    exists (op :: dn), op'. repeat split; [done|]. by constructor.
Qed.

Lemma firstFailure_success {Op} (outcome : Op → option error) l :
  fst (firstFailure outcome l) = None →
  snd (firstFailure outcome l) = l ∧ Forall (λ o, outcome o = None) l.
Proof.
  induction l as [|op rest IH]; simpl; [done|].
  destruct (outcome op) eqn:Hop; simpl; [done|].
  destruct (firstFailure outcome rest) as [e' t']. simpl in *.
  intros He. destruct (IH He) as [-> Hd]. split; [done|]. by constructor.
Qed.

(** C5, as stated, fails for [reconcileResources]: with every reconciler
    succeeding, roles and role bindings are reconciled before the service
    accounts, and services before deployments and stateful sets. *)
Lemma reconcileResources_not_in_group_order :
  followsGroupOrder groupOfReconciler
    (snd (reconcileResources allSucceed fullInput [])) = false
  ∧ take 4 (snd (reconcileResources allSucceed fullInput []))
    = [reconcileStatus; reconcileRoles; reconcileRoleBindings;
       reconcileServiceAccounts]
  ∧ take 3 (drop 7 (snd (reconcileResources allSucceed fullInput [])))
    = [reconcileServices; reconcileDeployments; reconcileStatefulSets].
Proof. by vm_compute. Qed.

(** C5, amended: a steady state pass of [ServerReconciler.Reconcile] invokes
    service account, cluster role, cluster role binding, roles, role
    bindings, deployment, service, autoscaler, ingresses and, when the Route
    API is available, route, in this order, which is the order of the
    groups of the specification; [reconcileResources] invokes its
    reconcilers in the order of [resourcesOrder], where roles and role
    bindings come before service accounts and services before workloads.
    In both, the first reconciler that returns an error ends the pass, and
    that error is returned. *)
Theorem reconcile_order_and_abort
    (outcomeS : ServerOp → option error) (outcomeR : Reconciler → option error)
    (route : bool) (cr : ReconcileInput)
    (t : list ServerOp) (tr : list Reconciler) :
  Reconcile outcomeS steadyState route t
    = (fst (firstFailure outcomeS (OpReconcile <$> serverOrder route)),
       t ++ snd (firstFailure outcomeS (OpReconcile <$> serverOrder route)))
  ∧ followsGroupOrder (groupOfResource ∘ resourceOf)
      (OpReconcile <$> serverOrder route) = true
  ∧ reconcileResources outcomeR cr tr
    = (fst (firstFailure outcomeR (resourcesOrder cr)),
       tr ++ snd (firstFailure outcomeR (resourcesOrder cr)))
  ∧ followsGroupOrder groupOfReconciler (resourcesOrder cr) = false.
Proof.
  split; [|split; [|split]].
  - unfold Reconcile, steadyState. simpl. apply reconcileAll_run.
  - by destruct route.
  - apply reconcileResources_run.
  - by destruct cr as [[] [] [] []].
Qed.

(** C6: when every step succeeds, the resources deleted by
    [ServerReconciler.DeleteResources] are, in order, the reverse of the
    resources reconciled by [ServerReconciler.Reconcile]: route, ingresses,
    horizontal pod autoscaler, service, deployment, role bindings, roles,
    cluster role binding, cluster role, service account.  Whatever the
    steps return, the deletions attempted are an initial part of that
    reversed sequence, and the reconciliations an initial part of the
    forward one. *)
Theorem DeleteResources_reverses_Reconcile
    (outcome : ServerOp → option error) (route : bool) :
  resourceOf <$> snd (DeleteResources allSucceed route [])
    = rev (resourceOf <$> snd (Reconcile allSucceed steadyState route []))
  ∧ snd (DeleteResources allSucceed true [])
    = OpDelete <$> [Route; Ingresses; HorizontalPodAutoscaler; Service;
                    Deployment; RoleBindings; Roles; ClusterRoleBinding;
                    ClusterRole; ServiceAccount]
  ∧ snd (DeleteResources outcome route [])
      `prefix_of` (OpDelete <$> rev (resourceOf <$>
                     snd (Reconcile allSucceed steadyState route [])))
  ∧ snd (Reconcile outcome steadyState route [])
      `prefix_of` (OpReconcile <$> serverOrder route).
Proof.
  split; [|split; [|split]].
  - by destruct route.
  - reflexivity.
  - rewrite DeleteResources_run.
    replace (resourceOf <$> snd (Reconcile allSucceed steadyState route []))
      with (serverOrder route) by (by destruct route).
    cbn [snd app]. apply firstFailure_prefix.
  - unfold Reconcile, steadyState. cbn [DeletionTimestamp].
    rewrite reconcileAll_run. cbn [snd app]. apply firstFailure_prefix.
Qed.

(* ===================================================================== *)
(** * Calls and their effects *)
(* ===================================================================== *)

Lemma call_run {A} F c (run : Cluster → result A * Cluster) w :
  call F c run w =
    match F (calls w) c with
    | Some e => (Fail e, record c w)
    | None => (fst (run (cluster w)),
               {| cluster := snd (run (cluster w)); calls := calls w ++ [c] |})
    end.
Proof. unfold call. destruct (F (calls w) c); [done|]. by destruct (run _). Qed.

Lemma call_calls {A} F c (run : Cluster → result A * Cluster) w :
  calls (snd (call F c run w)) = calls w ++ [c].
Proof. rewrite call_run. by destruct (F (calls w) c). Qed.

Lemma newCalls_app w w' t : calls w' = calls w ++ t → newCalls w w' = t.
Proof. unfold newCalls. intros ->. by rewrite drop_app_length. Qed.

Lemma deleteRole_frame F ns name w :
  let w' := snd (deleteRole F ns name w) in
  calls w' = calls w ++ [DeleteRole ns name]
  ∧ roleBindings (cluster w') = roleBindings (cluster w)
  ∧ secrets (cluster w') = secrets (cluster w)
  ∧ namespaces (cluster w') = namespaces (cluster w).
Proof.
  unfold deleteRole. rewrite call_run.
  destruct (F (calls w) _); [done|]. simpl. by destruct (storeGet _ _ _ _).
Qed.

Lemma deleteRoleBinding_frame F ns name w :
  let w' := snd (deleteRoleBinding F ns name w) in
  calls w' = calls w ++ [DeleteRoleBinding ns name]
  ∧ roles (cluster w') = roles (cluster w)
  ∧ secrets (cluster w') = secrets (cluster w)
  ∧ namespaces (cluster w') = namespaces (cluster w).
Proof.
  unfold deleteRoleBinding. rewrite call_run.
  destruct (F (calls w) _); [done|]. simpl. by destruct (storeGet _ _ _ _).
Qed.

Lemma deleteRoles_frame F ns items w :
  let w' := snd (deleteRoles F ns items w) in
  calls w' = calls w ++ (DeleteRole ns ∘ Name <$> items)
  ∧ roleBindings (cluster w') = roleBindings (cluster w)
  ∧ secrets (cluster w') = secrets (cluster w)
  ∧ namespaces (cluster w') = namespaces (cluster w).
Proof.
  revert w. induction items as [|role rest IH]; intros w; simpl.
  - by rewrite (right_id_L [] (++)).
  - unfold bind. destruct (deleteRole F ns (Name role) w) as [x w1] eqn:Hd.
    pose proof (deleteRole_frame F ns (Name role) w) as H. rewrite Hd in H.
    simpl in H. destruct H as (Hc & Hb & Hs & Hn).
    destruct (IH w1) as (Hc' & Hb' & Hs' & Hn').
    rewrite Hc', Hb', Hs', Hn', Hc, <- (assoc_L (++)). done.
Qed.

Lemma deleteRoleBindings_frame F ns items w :
  let w' := snd (deleteRoleBindings F ns items w) in
  calls w' = calls w ++ (DeleteRoleBinding ns ∘ Name <$> items)
  ∧ roles (cluster w') = roles (cluster w)
  ∧ secrets (cluster w') = secrets (cluster w)
  ∧ namespaces (cluster w') = namespaces (cluster w).
Proof.
  revert w. induction items as [|rb rest IH]; intros w; simpl.
  - by rewrite (right_id_L [] (++)).
  - unfold bind. destruct (deleteRoleBinding F ns (Name rb) w) as [x w1] eqn:Hd.
    pose proof (deleteRoleBinding_frame F ns (Name rb) w) as H. rewrite Hd in H.
    simpl in H. destruct H as (Hc & Hb & Hs & Hn).
    destruct (IH w1) as (Hc' & Hb' & Hs' & Hn').
    rewrite Hc', Hb', Hs', Hn', Hc, <- (assoc_L (++)). done.
Qed.

(** The calls of [deleteRBACsForNamespace]: the roles are listed and
    deleted, then the role bindings are listed and deleted. *)
Lemma deleteRBACsForNamespace_calls F ownerNS sourceNS w :
  ∃ rs bs,
    calls (snd (deleteRBACsForNamespace F ownerNS sourceNS w))
    = calls w
      ++ (ListRoles sourceNS ArgoCDKeyPartOf ArgoCDAppName
          :: (DeleteRole sourceNS <$> rs))
      ++ bs
    ∧ (bs = [] ∨ ∃ names,
         bs = ListRoleBindings sourceNS ArgoCDKeyPartOf ArgoCDAppName
              :: (DeleteRoleBinding sourceNS <$> names)).
Proof.
  unfold deleteRBACsForNamespace, bind, listRoles, listRoleBindings.
  rewrite call_run.
  destruct (F (calls w) _); simpl.
  { exists [], []. split; [|by left]. by rewrite (right_id_L [] (++)). }
  set (rs := storeList id sourceNS ArgoCDKeyPartOf ArgoCDAppName (roles (cluster w))).
  set (w1 := {| cluster := cluster w; calls := _ |}).
  destruct (deleteRoles F sourceNS rs w1) as [x w2] eqn:Hd.
  pose proof (deleteRoles_frame F sourceNS rs w1) as H. rewrite Hd in H.
  simpl in H. destruct H as (Hc & Hb & _).
  rewrite call_run. exists (Name <$> rs).
  destruct (F (calls w2) _); simpl.
  - exists [ListRoleBindings sourceNS ArgoCDKeyPartOf ArgoCDAppName].
    split; [|right; by exists []].
    rewrite Hc. subst w1. simpl. rewrite <- list_fmap_compose.
    by rewrite <- !(assoc_L (++)).
  - set (bs := storeList id sourceNS _ _ _).
    set (w3 := {| cluster := cluster w2; calls := _ |}).
    destruct (deleteRoleBindings F sourceNS bs w3) as [y w4] eqn:Hd'.
    pose proof (deleteRoleBindings_frame F sourceNS bs w3) as H.
    rewrite Hd' in H. simpl in H. destruct H as (Hc' & _).
    simpl. eexists. split; [|right; by exists (Name <$> bs)].
    rewrite Hc'. subst w3. simpl. rewrite Hc. subst w1. simpl.
    rewrite <- !list_fmap_compose. by rewrite <- !(assoc_L (++)).
Qed.

Lemma rolesBeforeBindings_app (xs ys : list Call) :
  (∀ ns name, DeleteRoleBinding ns name ∉ xs) →
  (∀ ns name, DeleteRole ns name ∉ ys) →
  rolesBeforeBindings (xs ++ ys).
Proof.
  intros Hx Hy. induction xs as [|x xs IH]; intros pre post ns name Heq ns' name' Hin.
  - simpl in Heq. apply (Hy ns' name'). rewrite Heq.
    apply elem_of_app. right. by apply elem_of_cons; right.
  - destruct pre as [|p pre]; simpl in Heq; injection Heq as -> Heq.
    + apply (Hx ns name). by apply elem_of_cons; left.
    + eapply IH; [|exact Heq|exact Hin].
      intros ns0 name0 Hin0. apply (Hx ns0 name0). by apply elem_of_cons; right.
Qed.

(** C3, as stated, fails: in a namespace with one role and one role
    binding, the role is deleted first and the role binding second. *)
Lemma deleteRBACsForNamespace_deletes_role_first :
  calls (snd (deleteRBACsForNamespace noFaults "ns1" "ns2" (demoWorld "ns1,ns2")))
  = [ListRoles "ns2" ArgoCDKeyPartOf ArgoCDAppName;
     DeleteRole "ns2" "demo-argocd-server";
     ListRoleBindings "ns2" ArgoCDKeyPartOf ArgoCDAppName;
     DeleteRoleBinding "ns2" "demo-argocd-server"]
  ∧ ¬ bindingsBeforeRoles
        (calls (snd (deleteRBACsForNamespace noFaults "ns1" "ns2"
                       (demoWorld "ns1,ns2")))).
Proof.
  assert (calls (snd (deleteRBACsForNamespace noFaults "ns1" "ns2"
                        (demoWorld "ns1,ns2")))
          = [ListRoles "ns2" ArgoCDKeyPartOf ArgoCDAppName;
             DeleteRole "ns2" "demo-argocd-server";
             ListRoleBindings "ns2" ArgoCDKeyPartOf ArgoCDAppName;
             DeleteRoleBinding "ns2" "demo-argocd-server"]) as Hcalls
    by (by vm_compute).
  split; [exact Hcalls|].
  rewrite Hcalls. intros H.
  apply (H [ListRoles "ns2" ArgoCDKeyPartOf ArgoCDAppName]
           [ListRoleBindings "ns2" ArgoCDKeyPartOf ArgoCDAppName;
            DeleteRoleBinding "ns2" "demo-argocd-server"]
           "ns2" "demo-argocd-server" eq_refl "ns2" "demo-argocd-server").
  apply elem_of_cons; right. by apply elem_of_cons; left.
Qed.

(** What [deleteRBACsForNamespace] returns, by the answers to its two list
    calls: the deletions in between never change it. *)
Lemma deleteRBACsForNamespace_run F ownerNS sourceNS w :
  deleteRBACsForNamespace F ownerNS sourceNS w =
    match F (calls w) (ListRoles sourceNS ArgoCDKeyPartOf ArgoCDAppName) with
    | Some err =>
        (Some err, record (ListRoles sourceNS ArgoCDKeyPartOf ArgoCDAppName) w)
    | None =>
        let w2 :=
          snd (deleteRoles F sourceNS
                 (storeList id sourceNS ArgoCDKeyPartOf ArgoCDAppName
                    (roles (cluster w)))
                 (record (ListRoles sourceNS ArgoCDKeyPartOf ArgoCDAppName) w)) in
        match F (calls w2)
                (ListRoleBindings sourceNS ArgoCDKeyPartOf ArgoCDAppName) with
        | Some err =>
            (Some err,
             record (ListRoleBindings sourceNS ArgoCDKeyPartOf ArgoCDAppName) w2)
        | None =>
            (None,
             snd (deleteRoleBindings F sourceNS
                    (storeList id sourceNS ArgoCDKeyPartOf ArgoCDAppName
                       (roleBindings (cluster w2)))
                    (record (ListRoleBindings sourceNS ArgoCDKeyPartOf
                               ArgoCDAppName) w2)))
        end
    end.
Proof.
  unfold deleteRBACsForNamespace, bind, listRoles, listRoleBindings.
  rewrite call_run. destruct (F (calls w) _); [done|]. cbn [fst snd].
  change {| cluster := cluster w;
            calls := calls w
                     ++ [ListRoles sourceNS ArgoCDKeyPartOf ArgoCDAppName] |}
    with (record (ListRoles sourceNS ArgoCDKeyPartOf ArgoCDAppName) w).
  cbv zeta.
  destruct (deleteRoles F sourceNS _ _) as [x w2]. cbn [fst snd].
  rewrite call_run. destruct (F (calls w2) _); [done|]. cbn [fst snd].
  change {| cluster := cluster w2;
            calls := calls w2
                     ++ [ListRoleBindings sourceNS ArgoCDKeyPartOf
                           ArgoCDAppName] |}
    with (record (ListRoleBindings sourceNS ArgoCDKeyPartOf ArgoCDAppName) w2).
  by destruct (deleteRoleBindings F sourceNS _ _) as [y w4].
Qed.

(** C3, amended: [deleteRBACsForNamespace] lists and deletes the Role
    objects first and lists and deletes the RoleBinding objects second, the
    order in which they are created; once a role binding has been deleted no
    role is deleted any more.  Without faults its calls are the listing of
    the roles, one deletion for each role listed, the listing of the role
    bindings and one deletion for each role binding listed.  An error of the
    listing of the roles is returned and nothing else is called; an error
    of the listing of the role bindings is returned after the roles have
    been deleted.  When both listings succeed the function returns nil and
    attempts every deletion, whichever deletions are refused. *)
Theorem deleteRBACsForNamespace_roles_first
    (F : Faults) (ownerNS sourceNS : string) (w : World) :
  let out := deleteRBACsForNamespace F ownerNS sourceNS w in
  let rolesListed := ListRoles sourceNS ArgoCDKeyPartOf ArgoCDAppName in
  let bindingsListed :=
    ListRoleBindings sourceNS ArgoCDKeyPartOf ArgoCDAppName in
  let roleDeletes :=
    DeleteRole sourceNS ∘ Name
      <$> storeList id sourceNS ArgoCDKeyPartOf ArgoCDAppName
            (roles (cluster w)) in
  let bindingDeletes :=
    DeleteRoleBinding sourceNS ∘ Name
      <$> storeList id sourceNS ArgoCDKeyPartOf ArgoCDAppName
            (roleBindings (cluster w)) in
  rolesBeforeBindings (newCalls w (snd out))
  ∧ newCalls w (snd (deleteRBACsForNamespace noFaults ownerNS sourceNS w))
    = rolesListed :: roleDeletes ++ bindingsListed :: bindingDeletes
  ∧ (∀ err, F (calls w) rolesListed = Some err →
       fst out = Some err
       ∧ newCalls w (snd out) = [rolesListed]
       ∧ cluster (snd out) = cluster w)
  ∧ (∀ err, F (calls w) rolesListed = None →
       F (calls w ++ rolesListed :: roleDeletes) bindingsListed = Some err →
       fst out = Some err
       ∧ newCalls w (snd out) = rolesListed :: roleDeletes ++ [bindingsListed])
  ∧ (F (calls w) rolesListed = None →
     F (calls w ++ rolesListed :: roleDeletes) bindingsListed = None →
     fst out = None
     ∧ newCalls w (snd out)
       = rolesListed :: roleDeletes ++ bindingsListed :: bindingDeletes).
Proof.
  cbv zeta.
  set (rolesListed := ListRoles sourceNS ArgoCDKeyPartOf ArgoCDAppName).
  set (bindingsListed := ListRoleBindings sourceNS ArgoCDKeyPartOf ArgoCDAppName).
  set (rs := storeList id sourceNS ArgoCDKeyPartOf ArgoCDAppName
               (roles (cluster w))).
  set (bs := storeList id sourceNS ArgoCDKeyPartOf ArgoCDAppName
               (roleBindings (cluster w))).
  assert (∀ G,
    let w2 := snd (deleteRoles G sourceNS rs (record rolesListed w)) in
    calls w2 = calls w ++ rolesListed :: (DeleteRole sourceNS ∘ Name <$> rs)
    ∧ roleBindings (cluster w2) = roleBindings (cluster w)) as Hroles.
  { intros G. destruct (deleteRoles_frame G sourceNS rs (record rolesListed w))
      as (Hc & Hb & _). cbv zeta in *. rewrite Hc, Hb. cbn [record calls cluster].
    by rewrite <- (assoc_L (++)). }
  assert (∀ G,
    let w2 := snd (deleteRoles G sourceNS rs (record rolesListed w)) in
    calls (snd (deleteRoleBindings G sourceNS bs (record bindingsListed w2)))
    = calls w ++ rolesListed :: (DeleteRole sourceNS ∘ Name <$> rs)
              ++ bindingsListed :: (DeleteRoleBinding sourceNS ∘ Name <$> bs))
    as Hbindings.
  { intros G w2. destruct (Hroles G) as [Hc _]. fold w2 in Hc.
    destruct (deleteRoleBindings_frame G sourceNS bs (record bindingsListed w2))
      as (Hc' & _). cbv zeta in Hc'. rewrite Hc'. cbn [record calls].
    rewrite Hc. by rewrite <- !(assoc_L (++)). }
  split; [|split; [|split; [|split]]].
  - destruct (deleteRBACsForNamespace_calls F ownerNS sourceNS w)
      as (rs' & bs' & Hc & Hbs).
    rewrite (newCalls_app _ _ _ Hc).
    apply rolesBeforeBindings_app.
    + intros ns name [Hin|Hin]%elem_of_cons; [done|].
      apply list_elem_of_fmap in Hin as (? & ? & ?). done.
    + intros ns name Hin. destruct Hbs as [->|(names & ->)].
      * by apply elem_of_nil in Hin.
      * apply elem_of_cons in Hin as [Hin|Hin]; [done|].
        apply list_elem_of_fmap in Hin as (? & ? & ?). done.
  - apply newCalls_app. rewrite deleteRBACsForNamespace_run. cbn [noFaults].
    cbv zeta. fold rolesListed bindingsListed rs.
    destruct (Hroles noFaults) as [_ Hb]. cbv zeta in Hb. rewrite Hb. fold bs.
    cbn [snd]. apply (Hbindings noFaults).
  - intros err Herr. rewrite deleteRBACsForNamespace_run.
    fold rolesListed. rewrite Herr. cbn [fst snd record cluster].
    split; [done|]. split; [|done]. by apply newCalls_app.
  - intros err Hlist Herr. rewrite deleteRBACsForNamespace_run.
    fold rolesListed bindingsListed rs. rewrite Hlist. cbv zeta.
    destruct (Hroles F) as [Hc _]. cbv zeta in Hc. rewrite Hc, Herr.
    cbn [fst snd]. split; [done|]. apply newCalls_app.
    cbn [record calls]. rewrite Hc. by rewrite <- (assoc_L (++)).
  - intros Hlist Hlist'. rewrite deleteRBACsForNamespace_run.
    fold rolesListed bindingsListed rs. rewrite Hlist. cbv zeta.
    destruct (Hroles F) as [Hc Hb]. cbv zeta in Hc, Hb. rewrite Hc, Hlist', Hb.
    fold bs. cbn [fst snd]. split; [done|]. apply newCalls_app.
    apply (Hbindings F).
Qed.

Lemma deleteRBACsForNamespace_roles_first_witness :
  fst (deleteRBACsForNamespace deletesRefused "ns1" "ns2" (demoWorld "ns1,ns2"))
  = None
  ∧ newCalls (demoWorld "ns1,ns2")
      (snd (deleteRBACsForNamespace deletesRefused "ns1" "ns2"
              (demoWorld "ns1,ns2")))
    = [ListRoles "ns2" ArgoCDKeyPartOf ArgoCDAppName;
       DeleteRole "ns2" "demo-argocd-server";
       ListRoleBindings "ns2" ArgoCDKeyPartOf ArgoCDAppName;
       DeleteRoleBinding "ns2" "demo-argocd-server"]
  ∧ fst (deleteRBACsForNamespace bindingsListRefused "ns1" "ns2"
           (demoWorld "ns1,ns2"))
    = Some unavailable.
Proof.
  destruct (deleteRBACsForNamespace_roles_first deletesRefused "ns1" "ns2"
              (demoWorld "ns1,ns2")) as (_ & _ & _ & _ & Hskip).
  destruct (Hskip eq_refl eq_refl) as [Hnil Htrace].
  destruct (deleteRBACsForNamespace_roles_first bindingsListRefused "ns1" "ns2"
              (demoWorld "ns1,ns2")) as (_ & _ & _ & Hlist & _).
  destruct (Hlist unavailable eq_refl eq_refl) as [Herr _].
  split; [exact Hnil|]. split; [|exact Herr].
  rewrite Htrace. reflexivity.
Defined.

(* ===================================================================== *)
(** * The cluster secret *)
(* ===================================================================== *)

Lemma sort_Strings_Permutation (l1 l2 : list string) :
  l1 ≡ₚ l2 → sort_Strings l1 = sort_Strings l2.
Proof.
  intros Hp. unfold sort_Strings.
  apply (Sorted_unique String.le); [apply Sorted_merge_sort, _..|].
  by rewrite !merge_sort_Permutation.
Qed.

Lemma sort_Strings_sort_app (l1 l2 : list string) :
  sort_Strings (sort_Strings l1 ++ l2) = sort_Strings (l1 ++ l2).
Proof.
  apply sort_Strings_Permutation. unfold sort_Strings.
  by rewrite merge_sort_Permutation.
Qed.

(** What the loop over the stored list computes: the entries kept are the
    trimmed entries different from [sourceNS]; when none is kept the slice
    and the map are left as they were, otherwise the map receives the
    sorted, comma joined entries. *)
Lemma removeFromList_spec sourceNS (l result : list string)
    (data : gmap string string) :
  removeFromList sourceNS l result data =
    match filter (λ n, n ≠ sourceNS) (strings_TrimSpace <$> l) with
    | [] => (result, data)
    | kept =>
        (sort_Strings (result ++ kept),
         <["namespaces" := strings_Join (sort_Strings (result ++ kept)) ","]> data)
    end.
Proof.
  revert result data. induction l as [|n rest IH]; intros result data; simpl.
  - done.
  - destruct (String.eqb_spec (strings_TrimSpace n) sourceNS) as [Heq|Hne].
    + rewrite filter_cons_False by (intros H; by apply H). apply IH.
    + rewrite filter_cons_True by done. rewrite IH.
      destruct (filter _ _) as [|k kept]; [done|]. cbv zeta.
      rewrite sort_Strings_sort_app, <- (assoc_L (++)). simpl.
      by rewrite insert_insert_eq.
Qed.

Lemma updateSecret_frame F ns s w :
  let w' := snd (updateSecret F ns s w) in
  calls w' = calls w ++ [UpdateSecret ns (Name (SecretMeta s))]
  ∧ roles (cluster w') = roles (cluster w)
  ∧ roleBindings (cluster w') = roleBindings (cluster w)
  ∧ namespaces (cluster w') = namespaces (cluster w).
Proof.
  unfold updateSecret. rewrite call_run.
  destruct (F (calls w) _); [done|]. simpl. by destruct (storeGet _ _ _ _).
Qed.

Lemma updateClusterSecrets_frame F server ownerNS sourceNS items w :
  let w' := snd (updateClusterSecrets F server ownerNS sourceNS items w) in
  (∃ t, calls w' = calls w ++ t ∧ Forall isSecretCall t)
  ∧ roles (cluster w') = roles (cluster w)
  ∧ roleBindings (cluster w') = roleBindings (cluster w)
  ∧ namespaces (cluster w') = namespaces (cluster w).
Proof.
  revert w. induction items as [|secret rest IH]; intros w; simpl.
  - split; [|done]. exists []. by rewrite (right_id_L [] (++)).
  - destruct (decide _); [apply IH|].
    destruct (Data secret !! "namespaces"); [|apply IH].
    destruct (removeFromList _ _ _ _) as [res data]. unfold bind.
    destruct (updateSecret F ownerNS (withData secret data) w) as [x w1] eqn:Hu.
    pose proof (updateSecret_frame F ownerNS (withData secret data) w) as H.
    rewrite Hu in H. simpl in H. destruct H as (Hc & Hr & Hb & Hn).
    destruct x as [[]|err]; simpl.
    + destruct (IH w1) as ((t & Ht & HF) & Hr' & Hb' & Hn').
      rewrite Hr', Hb', Hn'. split; [|done].
      exists (UpdateSecret ownerNS (Name (SecretMeta secret)) :: t).
      split; [|by constructor]. by rewrite Ht, Hc, <- (assoc_L (++)).
    + split; [|done]. eexists. split; [exact Hc|]. by repeat constructor.
Qed.

Lemma deleteManagedNamespaceFromClusterSecret_frame F server ownerNS sourceNS w :
  let w' :=
    snd (deleteManagedNamespaceFromClusterSecret F server ownerNS sourceNS w) in
  (∃ t, calls w' = calls w ++ t ∧ Forall isSecretCall t)
  ∧ roles (cluster w') = roles (cluster w)
  ∧ roleBindings (cluster w') = roleBindings (cluster w)
  ∧ namespaces (cluster w') = namespaces (cluster w).
Proof.
  unfold deleteManagedNamespaceFromClusterSecret, bind, listSecrets.
  rewrite call_run. destruct (F (calls w) _); simpl.
  { split; [|done]. eexists. split; [done|]. by repeat constructor. }
  set (w1 := {| cluster := cluster w; calls := _ |}).
  destruct (updateClusterSecrets_frame F server ownerNS sourceNS
              (storeList SecretMeta ownerNS ArgoCDSecretTypeLabel "cluster"
                 (secrets (cluster w))) w1)
    as ((t & Ht & HF) & Hr & Hb & Hn).
  split; [|done]. eexists. split.
  - rewrite Ht. subst w1. simpl. by rewrite <- (assoc_L (++)).
  - by constructor.
Qed.

(** C1: a secret whose list holds [sourceNS] as its only entry.  The call
    succeeds and updates the secret, but the stored list is still
    [sourceNS]: the loop writes the field only after an entry it keeps. *)
Theorem deleteManagedNamespace_keeps_sole_entry :
  let out :=
    deleteManagedNamespaceFromClusterSecret noFaults defaultServer "ns1" "ns2"
      (demoWorld "ns2") in
  fst out = None
  ∧ calls (snd out)
    = [ListSecrets "ns1" ArgoCDSecretTypeLabel "cluster";
       UpdateSecret "ns1" "argocd-default-cluster-config"]
  ∧ storedNamespaces (snd out) = [Some "ns2"]
  ∧ removeFromList "ns2" (strings_Split "ns2" ",") [] ∅ = ([], ∅).
Proof. by vm_compute. Qed.

(** Whenever every stored entry is [sourceNS], the loop changes neither
    the slice nor the map. *)
Lemma removeFromList_nothing_kept sourceNS (l : list string)
    (data : gmap string string) :
  Forall (λ n, strings_TrimSpace n = sourceNS) l →
  removeFromList sourceNS l [] data = ([], data).
Proof.
  intros Hall. rewrite removeFromList_spec.
  replace (filter (λ n, n ≠ sourceNS) (strings_TrimSpace <$> l)) with (@nil string);
    [done|].
  symmetry. induction Hall as [|n rest Hn Hrest IH]; [done|].
  rewrite fmap_cons, filter_cons_False by (intros H; by apply H). exact IH.
Qed.

(** With a second entry the same call leaves the sorted list of the other
    entries. *)
Example deleteManagedNamespace_two_entries :
  storedNamespaces
    (snd (deleteManagedNamespaceFromClusterSecret noFaults defaultServer
            "ns1" "ns2" (demoWorld "ns2, ns1 ,ns0")))
  = [Some "ns0,ns1"].
Proof. by vm_compute. Qed.

(* ===================================================================== *)
(** * The namespace watch predicate *)
(* ===================================================================== *)

(** C4, as stated, fails: when the namespace [ns2], managed by [ns1], is
    deleted, the predicate takes [ns2] out of the cluster secret but
    deletes neither the role nor the role binding, whereas the update
    predicate deletes both when the label is removed. *)
Lemma DeleteFunc_leaves_roles :
  GetLabels (Object ns2Deleted) !! ArgoCDManagedByLabel = Some "ns1"
  ∧ calls (snd (DeleteFunc noFaults defaultServer ns2Deleted (demoWorld "ns1,ns2")))
    = [NewClient; ListSecrets "ns1" ArgoCDSecretTypeLabel "cluster";
       UpdateSecret "ns1" "argocd-default-cluster-config"]
  ∧ Name <$> roles (cluster (snd (DeleteFunc noFaults defaultServer ns2Deleted
                                    (demoWorld "ns1,ns2"))))
    = ["demo-argocd-server"]
  ∧ roles (cluster (snd (UpdateFunc noFaults defaultServer
                           (labelRemoved (Object ns2Deleted))
                           (demoWorld "ns1,ns2")))) = []
  ∧ ¬ deleteCleansLikeLabelChange noFaults defaultServer ns2Deleted
        (demoWorld "ns1,ns2").
Proof.
  do 4 (split; [by vm_compute|]).
  unfold deleteCleansLikeLabelChange. intros H.
  apply (f_equal (λ c, length (roles c))) in H. vm_compute in H. discriminate H.
Qed.

Lemma DeleteFunc_run F server e w :
  DeleteFunc F server e w =
    (false,
     match GetLabels (Object e) !! ArgoCDManagedByLabel with
     | Some owner =>
         if decide (owner ≠ "") then
           match F (calls w) NewClient with
           | Some _ => record NewClient w
           | None =>
               snd (deleteManagedNamespaceFromClusterSecret F server owner
                      (Name (Object e)) (record NewClient w))
           end
         else w
     | None => w
     end).
Proof.
  unfold DeleteFunc.
  destruct (GetLabels (Object e) !! ArgoCDManagedByLabel) as [owner|]; [|done].
  destruct (decide (owner ≠ "")); [|done].
  unfold bind, initK8sClient. rewrite call_run.
  destruct (F (calls w) NewClient); [done|]. simpl.
  change {| cluster := cluster w; calls := calls w ++ [NewClient] |}
    with (record NewClient w).
  by destruct (deleteManagedNamespaceFromClusterSecret _ _ _ _ _).
Qed.

(** What [DeleteFunc] leaves untouched. *)
Lemma DeleteFunc_frame F server e w :
  (∃ t, calls (snd (DeleteFunc F server e w)) = calls w ++ t
        ∧ Forall (λ c, c = NewClient ∨ isSecretCall c) t)
  ∧ roles (cluster (snd (DeleteFunc F server e w))) = roles (cluster w)
  ∧ roleBindings (cluster (snd (DeleteFunc F server e w)))
    = roleBindings (cluster w).
Proof.
  rewrite DeleteFunc_run. cbn [snd].
  assert (∃ t : list Call, calls w = calls w ++ t
            ∧ Forall (λ c, c = NewClient ∨ isSecretCall c) t) as Hnil.
  { exists []. by rewrite (right_id_L [] (++)). }
  destruct (GetLabels (Object e) !! ArgoCDManagedByLabel) as [owner|]; [|done].
  destruct (decide (owner ≠ "")); [|done].
  destruct (F (calls w) NewClient).
  { split; [|done]. exists [NewClient]. split; [done|]. constructor; [by left|done]. }
  destruct (deleteManagedNamespaceFromClusterSecret_frame F server owner
              (Name (Object e)) (record NewClient w))
    as ((t & Ht & HFt) & Hr & Hb & _).
  split; [|done]. exists (NewClient :: t). split.
  - rewrite Ht. simpl. by rewrite <- (assoc_L (++)).
  - constructor; [by left|]. eapply Forall_impl; [exact HFt|]. by right.
Qed.

(** C4, amended: for every namespace delete event the predicate returns
    false and deletes no role and no role binding; when the object carries
    a managing-instance label that is not empty and the client can be
    built, it does what [deleteManagedNamespaceFromClusterSecret] does for
    the owner and the name of the namespace, and nothing else. *)
Theorem DeleteFunc_only_cluster_secret
    (F : Faults) (server : string) (e : DeleteEvent) (w : World) :
  fst (DeleteFunc F server e w) = false
  ∧ roles (cluster (snd (DeleteFunc F server e w))) = roles (cluster w)
  ∧ roleBindings (cluster (snd (DeleteFunc F server e w)))
    = roleBindings (cluster w)
  ∧ (∀ ns name,
       (DeleteRole ns name ∉ newCalls w (snd (DeleteFunc F server e w)))
       ∧ (DeleteRoleBinding ns name
            ∉ newCalls w (snd (DeleteFunc F server e w))))
  ∧ (∀ owner,
       GetLabels (Object e) !! ArgoCDManagedByLabel = Some owner →
       owner ≠ "" →
       F (calls w) NewClient = None →
       snd (DeleteFunc F server e w)
       = snd (deleteManagedNamespaceFromClusterSecret F server owner
                (Name (Object e)) (record NewClient w))).
Proof.
  destruct (DeleteFunc_frame F server e w) as ((t & Ht & HF) & Hr & Hb).
  split; [by rewrite DeleteFunc_run|].
  split; [exact Hr|]. split; [exact Hb|]. split.
  - intros ns name. rewrite (newCalls_app _ _ _ Ht).
    rewrite Forall_forall in HF.
    split; intros Hin; by destruct (HF _ Hin).
  - intros owner Hl Hne HN. rewrite DeleteFunc_run. cbn [snd].
    rewrite Hl, HN. by destruct (decide (owner ≠ "")).
Qed.

Lemma DeleteFunc_only_cluster_secret_witness :
  storedNamespaces
    (snd (DeleteFunc noFaults defaultServer ns2Deleted (demoWorld "ns1,ns2")))
  = [Some "ns1"].
Proof.
  destruct (DeleteFunc_only_cluster_secret noFaults defaultServer ns2Deleted
              (demoWorld "ns1,ns2")) as (_ & _ & _ & _ & H).
  rewrite (H "ns1"); [by vm_compute|by vm_compute|done|done].
Defined.

(* ===================================================================== *)
(** * The managed namespaces of an instance *)
(* ===================================================================== *)

(** C7: [setManagedNamespaces] never changes the cluster.  When the list
    call succeeds it returns nil and the names stored in
    [r.ManagedNamespaces] are exactly the names of the namespaces whose
    managing-instance label equals [cr.Namespace], together with
    [cr.Namespace] itself, labelled or not.  When the list call fails, its
    error is returned and the reconciler is left as it was. *)
Theorem setManagedNamespaces_spec
    (F : Faults) (r : ReconcileArgoCD) (cr : ObjectMeta) (w : World) :
  cluster (snd (setManagedNamespaces F r cr w)) = cluster w
  ∧ (fst (fst (setManagedNamespaces F r cr w)) = None →
     Namespace cr ∈ managedNames (snd (fst (setManagedNamespaces F r cr w)))
     ∧ ∀ n, n ∈ managedNames (snd (fst (setManagedNamespaces F r cr w))) ↔
            (∃ ns, ns ∈ namespaces (cluster w)
                   ∧ GetLabels ns !! ArgoCDManagedByLabel = Some (Namespace cr)
                   ∧ Name ns = n)
            ∨ n = Namespace cr)
  ∧ (F (calls w) (ListNamespaces ArgoCDManagedByLabel (Namespace cr)) = None →
     fst (fst (setManagedNamespaces F r cr w)) = None)
  ∧ (∀ err,
       F (calls w) (ListNamespaces ArgoCDManagedByLabel (Namespace cr)) = Some err →
       fst (setManagedNamespaces F r cr w) = (Some err, r)).
Proof.
  unfold setManagedNamespaces, bind, listNamespaces. rewrite call_run.
  destruct (F (calls w) _) as [e|]; simpl.
  - split; [done|]. split; [done|]. split; [done|]. by intros ? [= ->].
  - split; [done|]. split; [|done]. intros _.
    unfold managedNames. simpl. split.
    + rewrite fmap_app. apply elem_of_app. right. by apply list_elem_of_singleton.
    + intros n. rewrite fmap_app, elem_of_app, list_elem_of_fmap. simpl.
      rewrite list_elem_of_singleton. split.
      * intros [(ns & -> & Hin)| ->]; [|by right].
        apply list_elem_of_filter in Hin as [Hl Hin]. left. by exists ns.
      * intros [(ns & Hin & Hl & <-)| ->]; [|by right].
        left. exists ns. split; [done|]. by apply list_elem_of_filter.
Qed.

Lemma setManagedNamespaces_spec_witness :
  managedNames
    (snd (fst (setManagedNamespaces noFaults {| ManagedNamespaces := None |}
                 demo (demoWorld "ns1,ns2"))))
  = ["ns2"; "ns1"]
  ∧ "ns1" ∈ managedNames
      (snd (fst (setManagedNamespaces noFaults {| ManagedNamespaces := None |}
                   demo (demoWorld "ns1,ns2")))).
Proof.
  split; [by vm_compute|].
  destruct (setManagedNamespaces_spec noFaults {| ManagedNamespaces := None |}
              demo (demoWorld "ns1,ns2")) as (_ & H & _).
  destruct (H eq_refl) as [Hin _]. exact Hin.
Defined.

(* ===================================================================== *)
(** * Removing the label when the instance is deleted *)
(* ===================================================================== *)

Lemma storeGet_storeUpdate {A} (meta : A → ObjectMeta) ns name x (l : list A) :
  is_Some (storeGet meta ns name l) →
  is_Some (storeGet meta ns name (storeUpdate meta x l)).
Proof.
  induction l as [|y rest IH]; simpl; [done|].
  destruct (decide (hasKey (Namespace (meta x)) (Name (meta x)) (meta y)))
    as [[Hk1 Hk2]|Hk]; simpl.
  - destruct (decide (hasKey ns name (meta y))) as [[H1 H2]|Hn].
    + intros _. rewrite decide_True; [done|]. split; congruence.
    + intros Hs. destruct (decide (hasKey ns name (meta x))); [done|exact Hs].
  - destruct (decide (hasKey ns name (meta y))); [done|]. apply IH.
Qed.

Lemma getNamespace_run F name w :
  getNamespace F name w =
    (match F (calls w) (GetNamespace name) with
     | Some e => Fail e
     | None =>
         match storeGet id "" name (namespaces (cluster w)) with
         | Some ns => Ok ns
         | None => Fail (errNotFound "namespaces" name)
         end
     end, record (GetNamespace name) w).
Proof.
  unfold getNamespace. rewrite call_run.
  destruct (F (calls w) _); [done|]. by destruct (storeGet _ _ _ _).
Qed.

Lemma updateNamespace_frame F ns w :
  let w' := snd (updateNamespace F ns w) in
  argocds (cluster w') = argocds (cluster w)
  ∧ (∀ n, is_Some (storeGet id "" n (namespaces (cluster w))) →
          is_Some (storeGet id "" n (namespaces (cluster w')))).
Proof.
  unfold updateNamespace. rewrite call_run.
  destruct (F (calls w) _); [done|]. simpl.
  destruct (storeGet id (Namespace ns) (Name ns) _); simpl; [|done].
  split; [done|]. intros n. apply storeGet_storeUpdate.
Qed.

Lemma removeManagedByLabelLoop_error F namespace items w err :
  fst (removeManagedByLabelLoop F namespace items w) = Some err →
  fromListOrGet F err.
Proof.
  revert w. induction items as [|n rest IH]; intros w; simpl; [done|].
  unfold bind. rewrite getNamespace_run.
  destruct (F (calls w) (GetNamespace (Name n))) as [e|] eqn:HF; simpl.
  { intros [= ->]. right; left. by exists (calls w), (Name n). }
  destruct (storeGet id "" (Name n) _) as [ns|]; simpl.
  2:{ intros [= <-]. right; right. by exists (Name n). }
  destruct (Labels ns) as [labels|]; [|apply IH].
  destruct (labels !! ArgoCDManagedByLabel) as [n'|]; [|apply IH].
  destruct (decide (n' ≠ namespace)); [apply IH|].
  destruct (updateNamespace F _ _) as [x w2]. apply IH.
Qed.

Lemma removeManagedByLabelLoop_frame F namespace items w :
  argocds (cluster (snd (removeManagedByLabelLoop F namespace items w)))
  = argocds (cluster w).
Proof.
  revert w. induction items as [|n rest IH]; intros w; simpl; [done|].
  unfold bind. rewrite getNamespace_run.
  destruct (F (calls w) (GetNamespace (Name n))) as [e|]; simpl; [done|].
  destruct (storeGet id "" (Name n) _) as [ns|]; simpl; [|done].
  assert (argocds (cluster (snd (removeManagedByLabelLoop F namespace rest
                                   (record (GetNamespace (Name n)) w))))
          = argocds (cluster w)) as Hskip by (by rewrite IH).
  destruct (Labels ns) as [labels|]; [|exact Hskip].
  destruct (labels !! ArgoCDManagedByLabel) as [n'|]; [|exact Hskip].
  destruct (decide (n' ≠ namespace)); [exact Hskip|].
  pose proof (updateNamespace_frame F (deleteLabel ArgoCDManagedByLabel ns)
                (record (GetNamespace (Name n)) w)) as [Ha _].
  destruct (updateNamespace F _ _) as [x w2]. simpl in Ha.
  by rewrite IH, Ha.
Qed.

Lemma removeManagedByLabelLoop_swallows F namespace items w :
  onlyUpdatesFail F →
  Forall (λ n, is_Some (storeGet id "" (Name n) (namespaces (cluster w)))) items →
  fst (removeManagedByLabelLoop F namespace items w) = None.
Proof.
  intros HF. revert w. induction items as [|n rest IH]; intros w Hall; simpl;
    [done|].
  apply Forall_cons in Hall as [[ns Hns] Hrest].
  unfold bind. rewrite getNamespace_run.
  destruct (F (calls w) (GetNamespace (Name n))) as [e|] eqn:He.
  { destruct (HF (calls w) (GetNamespace (Name n))) as [? ?]; [by rewrite He|done]. }
  rewrite Hns. simpl.
  assert (fst (removeManagedByLabelLoop F namespace rest
                 (record (GetNamespace (Name n)) w)) = None) as Hskip
    by (by apply IH).
  destruct (Labels ns) as [labels|]; [|exact Hskip].
  destruct (labels !! ArgoCDManagedByLabel) as [n'|]; [|exact Hskip].
  destruct (decide (n' ≠ namespace)); [exact Hskip|].
  pose proof (updateNamespace_frame F (deleteLabel ArgoCDManagedByLabel ns)
                (record (GetNamespace (Name n)) w)) as [_ Hk].
  destruct (updateNamespace F _ _) as [x w2]. simpl in Hk.
  apply IH. eapply Forall_impl; [exact Hrest|]. intros m. apply Hk.
Qed.

Lemma storeGet_elem_of (l : list ObjectMeta) name :
  (∀ ns, ns ∈ l → Namespace ns = "") →
  (∃ ns, ns ∈ l ∧ Name ns = name) →
  is_Some (storeGet id "" name l).
Proof.
  intros Hsc (ns & Hin & Hname).
  induction l as [|y rest IH]; [by apply elem_of_nil in Hin|]. simpl.
  destruct (decide (hasKey "" name y)) as [|Hk]; [done|].
  apply elem_of_cons in Hin as [->|Hin].
  - destruct Hk. split; [|done]. apply Hsc. by apply elem_of_cons; left.
  - apply IH; [|done]. intros m Hm. apply Hsc. by apply elem_of_cons; right.
Qed.

Lemma removeManagedByLabelFromNamespaces_run F namespace w :
  removeManagedByLabelFromNamespaces F namespace w =
    match F (calls w) (ListNamespaces ArgoCDManagedByLabel namespace) with
    | Some err =>
        (Some err, record (ListNamespaces ArgoCDManagedByLabel namespace) w)
    | None =>
        removeManagedByLabelLoop F namespace
          (filter (hasLabel ArgoCDManagedByLabel namespace)
                  (namespaces (cluster w)) ++ [metaNamed namespace])
          (record (ListNamespaces ArgoCDManagedByLabel namespace) w)
    end.
Proof.
  unfold removeManagedByLabelFromNamespaces, bind, listNamespaces.
  rewrite call_run. by destruct (F (calls w) _).
Qed.

Lemma updateArgoCD_failure F a w err :
  fst (updateArgoCD F a w) = Fail err →
  cluster (snd (updateArgoCD F a w)) = cluster w.
Proof.
  unfold updateArgoCD. rewrite call_run.
  destruct (F (calls w) _); [done|]. simpl.
  by destruct (storeGet id (Namespace a) (Name a) _).
Qed.

Lemma removeDeletionFinalizer_failure F argocd w err :
  fst (fst (removeDeletionFinalizer F argocd w)) = Some err →
  cluster (snd (removeDeletionFinalizer F argocd w)) = cluster w.
Proof.
  unfold removeDeletionFinalizer, bind.
  set (a := withFinalizers argocd _).
  pose proof (updateArgoCD_failure F a w) as H.
  destruct (updateArgoCD F a w) as [[[]|e] w1]; simpl in *; [done|].
  intros _. by apply (H e).
Qed.

Lemma storeGet_Some {A} (meta : A → ObjectMeta) ns name (l : list A) y :
  storeGet meta ns name l = Some y → y ∈ l ∧ hasKey ns name (meta y).
Proof.
  induction l as [|z rest IH]; simpl; [done|].
  destruct (decide (hasKey ns name (meta z))) as [Hk|Hk].
  - intros [= ->]. split; [by apply elem_of_cons; left|done].
  - intros [Hin Hkey]%IH. split; [by apply elem_of_cons; right|done].
Qed.

Lemma NoDup_Name_eq (l : list ObjectMeta) x y :
  NoDup (Name <$> l) → x ∈ l → y ∈ l → Name x = Name y → x = y.
Proof.
  induction l as [|z rest IH]; [by intros _ ?%elem_of_nil|].
  rewrite fmap_cons, NoDup_cons. intros [Hz Hnd] Hx Hy Heq.
  apply elem_of_cons in Hx as [->|Hx], Hy as [->|Hy]; [done| | |by apply IH].
  - destruct Hz. rewrite Heq. by apply list_elem_of_fmap_2.
  - destruct Hz. rewrite <- Heq. by apply list_elem_of_fmap_2.
Qed.

Lemma hasLabel_managedBy ns namespace :
  hasLabel ArgoCDManagedByLabel namespace ns ↔
  ∃ labels, Labels ns = Some labels
            ∧ labels !! ArgoCDManagedByLabel = Some namespace.
Proof.
  unfold hasLabel, GetLabels. destruct (Labels ns) as [labels|]; simpl.
  - split; [by exists labels|]. by intros (? & [= <-] & ?).
  - split; [by rewrite lookup_empty|]. by intros (? & ? & ?).
Qed.

Lemma storeGet_storeUpdate_ne {A} (meta : A → ObjectMeta) ns name x (l : list A) :
  Name (meta x) ≠ name →
  storeGet meta ns name (storeUpdate meta x l) = storeGet meta ns name l.
Proof.
  intros Hne. induction l as [|y rest IH]; simpl; [done|].
  destruct (decide (hasKey (Namespace (meta x)) (Name (meta x)) (meta y)))
    as [[_ Hk]|Hk]; simpl.
  - rewrite decide_False by (by intros [_ ?]).
    rewrite decide_False; [done|]. intros [_ ?]. congruence.
  - destruct (decide (hasKey ns name (meta y))); [done|exact IH].
Qed.

(** An update of a namespace is one call, and it leaves the namespaces of
    another name as they are, whether it succeeds or not. *)
Lemma updateNamespace_other F ns w :
  calls (snd (updateNamespace F ns w)) = calls w ++ [UpdateNamespace (Name ns)]
  ∧ ∀ name, Name ns ≠ name →
      storeGet id "" name (namespaces (cluster (snd (updateNamespace F ns w))))
      = storeGet id "" name (namespaces (cluster w)).
Proof.
  unfold updateNamespace. rewrite call_run.
  destruct (F (calls w) _); [done|]. cbn [fst snd calls cluster].
  destruct (storeGet id (Namespace ns) (Name ns) _); cbn [snd setNamespaces namespaces];
    [|done].
  split; [done|]. intros name Hne. by apply (storeGet_storeUpdate_ne id).
Qed.

(** One round of the loop when the namespace is fetched: whatever the
    update returns, the loop goes on with the remaining namespaces. *)
Lemma removeManagedByLabelLoop_cons F namespace n rest w ns0 :
  F (calls w) (GetNamespace (Name n)) = None →
  storeGet id "" (Name n) (namespaces (cluster w)) = Some ns0 →
  removeManagedByLabelLoop F namespace (n :: rest) w
  = removeManagedByLabelLoop F namespace rest
      (if decide (hasLabel ArgoCDManagedByLabel namespace ns0)
       then snd (updateNamespace F (deleteLabel ArgoCDManagedByLabel ns0)
                   (record (GetNamespace (Name n)) w))
       else record (GetNamespace (Name n)) w).
Proof.
  intros HF Hget. cbn [removeManagedByLabelLoop]. unfold bind.
  rewrite getNamespace_run, HF, Hget. cbn [fst snd].
  destruct (decide (hasLabel ArgoCDManagedByLabel namespace ns0)) as [Hl|Hl].
  - apply hasLabel_managedBy in Hl as (labels & HL & Hlk). rewrite HL, Hlk.
    destruct (decide (namespace ≠ namespace)) as [Hne|_]; [done|].
    by destruct (updateNamespace F _ _).
  - destruct (Labels ns0) as [labels|] eqn:HL; [|done].
    destruct (labels !! ArgoCDManagedByLabel) as [n'|] eqn:Hlk; [|done].
    destruct (decide (n' ≠ namespace)) as [|Heq]; [done|].
    destruct Hl. apply hasLabel_managedBy. exists labels. split; [done|].
    rewrite Hlk. f_equal. by destruct (decide (n' = namespace)).
Qed.

(** The calls of the loop when it returns nil: every namespace of the list
    has been fetched, in order, and for every namespace that carried the
    label an update has been attempted. *)
Lemma removeManagedByLabelLoop_trace F namespace items w :
  ∃ t,
    calls (snd (removeManagedByLabelLoop F namespace items w)) = calls w ++ t
    ∧ (fst (removeManagedByLabelLoop F namespace items w) = None →
       fetchedNames t = Name <$> items
       ∧ ∀ n ns, n ∈ items →
           storeGet id "" (Name n) (namespaces (cluster w)) = Some ns →
           hasLabel ArgoCDManagedByLabel namespace ns →
           Name n ∈ updatedNames t).
Proof.
  revert w. induction items as [|n0 rest IH]; intros w.
  - exists []. cbn [removeManagedByLabelLoop ret fst snd].
    rewrite (right_id_L [] (++)). split; [done|]. intros _. split; [done|].
    by intros n ns ?%elem_of_nil.
  - destruct (F (calls w) (GetNamespace (Name n0))) as [e|] eqn:HF.
    { exists [GetNamespace (Name n0)]. cbn [removeManagedByLabelLoop].
      unfold bind. rewrite getNamespace_run, HF. by cbn [fst snd record calls]. }
    destruct (storeGet id "" (Name n0) (namespaces (cluster w))) as [ns0|]
      eqn:Hget.
    2:{ exists [GetNamespace (Name n0)]. cbn [removeManagedByLabelLoop].
        unfold bind. rewrite getNamespace_run, HF, Hget.
        by cbn [fst snd record calls]. }
    destruct (storeGet_Some _ _ _ _ _ Hget) as [_ [_ Hname0]]. cbn [id] in Hname0.
    rewrite (removeManagedByLabelLoop_cons _ _ _ _ _ _ HF Hget).
    destruct (decide (hasLabel ArgoCDManagedByLabel namespace ns0)) as [Hl|Hl].
    + destruct (updateNamespace_other F (deleteLabel ArgoCDManagedByLabel ns0)
                  (record (GetNamespace (Name n0)) w)) as [Hc Hother].
      change (Name (deleteLabel ArgoCDManagedByLabel ns0)) with (Name ns0)
        in Hc, Hother.
      set (w2 := snd (updateNamespace F _ _)) in *.
      destruct (IH w2) as (t' & Hc' & Hres).
      exists (GetNamespace (Name n0) :: UpdateNamespace (Name ns0) :: t').
      split.
      { rewrite Hc', Hc. cbn [record calls].
        by rewrite <- !(assoc_L (++)). }
      intros Hnone. destruct (Hres Hnone) as [Hf Hu]. split.
      { cbn [fetchedNames omap list_omap] in *. by rewrite fmap_cons, <- Hf. }
      intros n ns Hin Hgetn Hlabel.
      destruct (decide (Name n = Name n0)) as [Heq|Hne].
      * cbn [updatedNames omap list_omap]. apply elem_of_cons. left. congruence.
      * cbn [updatedNames omap list_omap]. apply elem_of_cons. right.
        apply (Hu n ns); [|
          rewrite Hother by congruence; exact Hgetn|exact Hlabel].
        apply elem_of_cons in Hin as [->|Hin]; [done|exact Hin].
    + destruct (IH (record (GetNamespace (Name n0)) w)) as (t' & Hc' & Hres).
      exists (GetNamespace (Name n0) :: t'). split.
      { rewrite Hc'. cbn [record calls]. by rewrite <- (assoc_L (++)). }
      intros Hnone. destruct (Hres Hnone) as [Hf Hu]. split.
      { cbn [fetchedNames omap list_omap] in *. by rewrite fmap_cons, <- Hf. }
      intros n ns Hin Hgetn Hlabel.
      destruct (decide (Name n = Name n0)) as [Heq|Hne].
      * rewrite Heq, Hget in Hgetn. injection Hgetn as <-. done.
      * cbn [updatedNames omap list_omap].
        apply (Hu n ns); [|exact Hgetn|exact Hlabel].
        apply elem_of_cons in Hin as [->|Hin]; [done|exact Hin].
Qed.

Lemma runCleanup_app (a b : list (K8s (option error))) w :
  runCleanup (a ++ b) w =
    match fst (runCleanup a w) with
    | Some e => runCleanup a w
    | None => runCleanup b (snd (runCleanup a w))
    end.
Proof.
  revert w. induction a as [|step rest IH]; intros w; [done|].
  cbn [app runCleanup]. unfold bind.
  destruct (step w) as [[e|] w1]; [done|]. apply IH.
Qed.

(** C2, as stated, fails: the update that removes the label from [ns2] is
    refused, yet [removeManagedByLabelFromNamespaces] returns nil; the
    label is still on [ns2], and a deletion pass that follows the
    specification removes the finalizer of the instance. *)
Lemma removeManagedByLabel_swallows_update_error :
  fst (removeManagedByLabelFromNamespaces updatesConflict "ns1"
         (demoWorld "ns1,ns2")) = None
  ∧ calls (snd (removeManagedByLabelFromNamespaces updatesConflict "ns1"
                  (demoWorld "ns1,ns2")))
    = [ListNamespaces ArgoCDManagedByLabel "ns1"; GetNamespace "ns2";
       UpdateNamespace "ns2"; GetNamespace "ns1"]
  ∧ updatesConflict
      [ListNamespaces ArgoCDManagedByLabel "ns1"; GetNamespace "ns2"]
      (UpdateNamespace "ns2") = Some (Err "the object has been modified")
  ∧ (λ n, GetLabels n !! ArgoCDManagedByLabel)
      <$> namespaces (cluster (snd (removeManagedByLabelFromNamespaces
                                      updatesConflict "ns1"
                                      (demoWorld "ns1,ns2"))))
    = [None; Some "ns1"]
  ∧ fst (deletionPass updatesConflict [] demo (demoWorld "ns1,ns2")) = None
  ∧ Finalizers
      <$> argocds (cluster (snd (deletionPass updatesConflict [] demo
                                   (demoWorld "ns1,ns2"))))
    = [[]].
Proof. do 5 (split; [by vm_compute|]). by vm_compute. Qed.

(** C2, amended: [removeManagedByLabelFromNamespaces] returns an error only
    when listing the namespaces or fetching one of them fails; when nothing
    but updates of namespaces are refused it returns nil, the refusal being
    logged.  Whenever it returns nil the loop has gone through the whole
    list: every listed namespace and the namespace of the instance have
    been fetched, in order, and, the names of the namespaces being
    distinct, an update has been attempted for every namespace that carried
    the label, whichever updates were refused.  It never touches the
    instance.  In a deletion pass that follows the specification, with any
    cleanup steps before this one, an error of this step ends the pass
    before [removeDeletionFinalizer]; a pass that fails leaves the stored
    instances as the cleanup steps left them, so the finalizer is not
    removed; and a pass that returns nil has seen every cleanup step, this
    step and the removal of the finalizer return nil. *)
Theorem removeManagedByLabel_errors
    (F : Faults) (steps : list (K8s (option error))) (argocd : ObjectMeta)
    (w : World) :
  let namespace := Namespace argocd in
  let out := removeManagedByLabelFromNamespaces F namespace w in
  let cleaned := snd (runCleanup steps w) in
  (∀ err, fst out = Some err → fromListOrGet F err)
  ∧ (onlyUpdatesFail F →
     clusterScoped (cluster w) →
     (∃ ns, ns ∈ namespaces (cluster w) ∧ Name ns = namespace) →
     fst out = None)
  ∧ (fst out = None →
     fetchedNames (newCalls w (snd out))
     = (Name <$> filter (hasLabel ArgoCDManagedByLabel namespace)
                   (namespaces (cluster w)))
       ++ [namespace]
     ∧ (clusterScoped (cluster w) →
        uniqueNames (cluster w) →
        ∀ ns, ns ∈ namespaces (cluster w) →
              hasLabel ArgoCDManagedByLabel namespace ns →
              Name ns ∈ updatedNames (newCalls w (snd out))))
  ∧ argocds (cluster (snd out)) = argocds (cluster w)
  ∧ (∀ err,
       fst (runCleanup steps w) = None →
       fst (removeManagedByLabelFromNamespaces F namespace cleaned) = Some err →
       deletionPass F steps argocd w
       = removeManagedByLabelFromNamespaces F namespace cleaned)
  ∧ (∀ err,
       fst (deletionPass F steps argocd w) = Some err →
       argocds (cluster (snd (deletionPass F steps argocd w)))
       = argocds (cluster cleaned))
  ∧ (fst (deletionPass F steps argocd w) = None →
     fst (runCleanup steps w) = None
     ∧ (∀ pre step post,
          steps = pre ++ step :: post →
          fst (step (snd (runCleanup pre w))) = None)
     ∧ fst (removeManagedByLabelFromNamespaces F namespace cleaned) = None
     ∧ fst (fst (removeDeletionFinalizer F argocd
                   (snd (removeManagedByLabelFromNamespaces F namespace
                           cleaned))))
       = None).
Proof.
  cbv zeta.
  assert (∀ w0,
    argocds (cluster (snd (removeManagedByLabelFromNamespaces F
                             (Namespace argocd) w0)))
    = argocds (cluster w0)) as Hframe.
  { intros w0. rewrite removeManagedByLabelFromNamespaces_run.
    destruct (F (calls w0) _); [done|].
    by rewrite removeManagedByLabelLoop_frame. }
  split; [|split; [|split; [|split; [apply Hframe|split; [|split]]]]].
  - intros err Herr.
    rewrite removeManagedByLabelFromNamespaces_run in Herr.
    destruct (F (calls w) _) as [e|] eqn:HF.
    + injection Herr as ->. left.
      by exists (calls w), ArgoCDManagedByLabel, (Namespace argocd).
    + by apply removeManagedByLabelLoop_error in Herr.
  - intros HF Hsc Hown. rewrite removeManagedByLabelFromNamespaces_run.
    destruct (F (calls w) _) as [e|] eqn:He.
    { destruct (HF _ _ (mk_is_Some _ _ He)) as [? ?]. done. }
    apply removeManagedByLabelLoop_swallows; [done|].
    apply Forall_app. split.
    + apply Forall_forall. intros n Hn. simpl.
      apply list_elem_of_filter in Hn as [_ Hn].
      apply storeGet_elem_of; [exact Hsc|]. by exists n.
    + constructor; [|done]. simpl. by apply storeGet_elem_of.
  - rewrite removeManagedByLabelFromNamespaces_run.
    destruct (F (calls w) _) as [e|]; [done|]. intros Hnone.
    set (listed := filter (hasLabel ArgoCDManagedByLabel (Namespace argocd))
                     (namespaces (cluster w))) in *.
    set (w0 := record (ListNamespaces ArgoCDManagedByLabel (Namespace argocd)) w)
      in *.
    destruct (removeManagedByLabelLoop_trace F (Namespace argocd)
                (listed ++ [metaNamed (Namespace argocd)]) w0)
      as (t & Hc & Hres).
    destruct (Hres Hnone) as [Hf Hu].
    assert (newCalls w (snd (removeManagedByLabelLoop F (Namespace argocd)
                               (listed ++ [metaNamed (Namespace argocd)]) w0))
            = ListNamespaces ArgoCDManagedByLabel (Namespace argocd) :: t)
      as ->.
    { apply newCalls_app. rewrite Hc. subst w0. cbn [record calls].
      by rewrite <- (assoc_L (++)). }
    split.
    + unfold fetchedNames in *. cbn [omap list_omap]. rewrite Hf.
      by rewrite fmap_app.
    + intros Hsc Hnd ns Hin Hlabel. unfold updatedNames in *.
      cbn [omap list_omap].
      apply (Hu ns ns); [| |exact Hlabel].
      * apply elem_of_app. left. by apply list_elem_of_filter.
      * subst w0. cbn [record cluster].
        destruct (storeGet_elem_of (namespaces (cluster w)) (Name ns) Hsc)
          as [y Hy]; [by exists ns|].
        rewrite Hy. f_equal.
        destruct (storeGet_Some _ _ _ _ _ Hy) as [Hyin [_ Hyname]].
        by apply (NoDup_Name_eq (namespaces (cluster w))).
  - intros err Hclean Herr. unfold deletionPass, bind.
    destruct (runCleanup steps w) as [[e|] w1]; cbn [fst snd] in *; [done|].
    destruct (removeManagedByLabelFromNamespaces F (Namespace argocd) w1)
      as [[e|] w2]; cbn [fst snd] in *; [by injection Herr as ->|done].
  - intros err. unfold deletionPass, bind.
    destruct (runCleanup steps w) as [[e|] w1] eqn:Hclean; cbn [fst snd];
      [done|].
    pose proof (Hframe w1) as Hw1.
    destruct (removeManagedByLabelFromNamespaces F (Namespace argocd) w1)
      as [[e|] w2] eqn:Hrm; cbn [fst snd] in *; [done|].
    pose proof (removeDeletionFinalizer_failure F argocd w2) as Hfin.
    destruct (removeDeletionFinalizer F argocd w2) as [[e' a'] w3];
      cbn [fst snd ret] in *.
    intros ->. by rewrite (Hfin err).
  - unfold deletionPass, bind. intros Hpass.
    assert (fst (runCleanup steps w) = None) as Hclean.
    { destruct (runCleanup steps w) as [[e|] w1]; [done|done]. }
    split; [exact Hclean|]. split.
    { intros pre step post ->. rewrite runCleanup_app in Hclean.
      destruct (fst (runCleanup pre w)) as [e|] eqn:Hpre; [congruence|].
      cbn [runCleanup] in Hclean. unfold bind in Hclean.
      by destruct (step (snd (runCleanup pre w))) as [[e|] w1]. }
    destruct (runCleanup steps w) as [[e|] w1]; cbn [fst snd] in *; [done|].
    destruct (removeManagedByLabelFromNamespaces F (Namespace argocd) w1)
      as [[e|] w2]; cbn [fst snd] in *; [done|].
    split; [done|].
    by destruct (removeDeletionFinalizer F argocd w2) as [[e' a'] w3].
Qed.

Lemma removeManagedByLabel_errors_witness :
  fromListOrGet listRefused unavailable
  ∧ fst (deletionPass listRefused
           [deleteRBACsForNamespace listRefused "ns1" "ns2"] demo
           (demoWorld "ns1,ns2"))
    = Some unavailable
  ∧ Finalizers
      <$> argocds (cluster (snd (deletionPass listRefused
                                   [deleteRBACsForNamespace listRefused
                                      "ns1" "ns2"]
                                   demo (demoWorld "ns1,ns2"))))
    = [[ArgoCDDeletionFinalizer]]
  ∧ fetchedNames
      (newCalls (demoWorld "ns1,ns2")
         (snd (removeManagedByLabelFromNamespaces updatesConflict "ns1"
                 (demoWorld "ns1,ns2"))))
    = ["ns2"; "ns1"]
  ∧ "ns2" ∈ updatedNames
      (newCalls (demoWorld "ns1,ns2")
         (snd (removeManagedByLabelFromNamespaces updatesConflict "ns1"
                 (demoWorld "ns1,ns2")))).
Proof.
  destruct (removeManagedByLabel_errors listRefused
              [deleteRBACsForNamespace listRefused "ns1" "ns2"] demo
              (demoWorld "ns1,ns2")) as (Hsrc & _ & _ & _ & Hend & Hfin & _).
  destruct (removeManagedByLabel_errors updatesConflict [] demo
              (demoWorld "ns1,ns2")) as (_ & _ & Hloop & _).
  destruct (Hloop eq_refl) as [Hfetched Hupdated].
  assert (clusterScoped (cluster (demoWorld "ns1,ns2"))) as Hsc.
  { intros ns Hin. simpl in Hin.
    repeat (apply elem_of_cons in Hin as [->|Hin]; [reflexivity|]).
    by apply elem_of_nil in Hin. }
  assert (uniqueNames (cluster (demoWorld "ns1,ns2"))) as Hnd
    by (apply (bool_decide_unpack _); by vm_compute).
  split; [exact (Hsrc unavailable eq_refl)|].
  split; [by rewrite (Hend unavailable eq_refl eq_refl)|].
  split; [by rewrite (Hfin unavailable eq_refl)|].
  split; [etrans; [exact Hfetched|by vm_compute]|].
  apply (Hupdated Hsc Hnd (mkMeta "" "ns2" [(ArgoCDManagedByLabel, "ns1")])).
  - apply elem_of_cons. right. apply elem_of_cons. by left.
  - reflexivity.
Defined.

(* ===================================================================== *)
(** * Finalizers *)
(* ===================================================================== *)

Lemma removeString_app slice1 slice2 s :
  removeString (slice1 ++ slice2) s
  = removeString slice1 s ++ removeString slice2 s.
Proof. rewrite !removeString_filter. apply filter_app. Qed.

Lemma removeString_absent slice s : s ∉ slice → removeString slice s = slice.
Proof.
  induction slice as [|item rest IH]; simpl; [done|].
  intros Hnin. apply not_elem_of_cons in Hnin as [Hne Hnin].
  destruct (String.eqb_spec item s) as [->|_]; [done|]. by rewrite IH.
Qed.

(** X1: [removeString slice s] is [slice] without the elements equal to
    [s]: every other element is kept, as often as it occurs and in its
    place, so that [s] does not occur in the result however often it
    occurred in [slice]; removing again changes nothing. *)
Theorem removeString_removes_all (slice : list string) (s : string) :
  removeString slice s = filter (λ item, item ≠ s) slice
  ∧ (s ∉ removeString slice s)
  ∧ (∀ x, x ∈ removeString slice s ↔ x ∈ slice ∧ x ≠ s)
  ∧ removeString slice s `sublist_of` slice
  ∧ removeString (removeString slice s) s = removeString slice s.
Proof.
  split; [apply removeString_filter|].
  rewrite !removeString_filter. split; [|split; [|split]].
  - intros [? _]%list_elem_of_filter. done.
  - intros x. rewrite list_elem_of_filter. tauto.
  - apply sublist_filter.
  - rewrite <- removeString_filter. apply removeString_absent.
    intros [? _]%list_elem_of_filter. done.
Qed.

Lemma storeGet_storeUpdate_same {A} (meta : A → ObjectMeta) x (l : list A) :
  is_Some (storeGet meta (Namespace (meta x)) (Name (meta x)) l) →
  storeGet meta (Namespace (meta x)) (Name (meta x)) (storeUpdate meta x l)
  = Some x.
Proof.
  induction l as [|y rest IH]; simpl; [by intros [? ?]|].
  destruct (decide (hasKey (Namespace (meta x)) (Name (meta x)) (meta y)))
    as [Hk|Hk]; simpl.
  - intros _. by rewrite decide_True.
  - rewrite decide_False by done. apply IH.
Qed.

Lemma updateArgoCD_run F a w :
  updateArgoCD F a w =
    match F (calls w) (UpdateArgoCD (Namespace a) (Name a)) with
    | Some e => (Fail e, record (UpdateArgoCD (Namespace a) (Name a)) w)
    | None =>
        match storeGet id (Namespace a) (Name a) (argocds (cluster w)) with
        | Some _ =>
            (Ok (),
             {| cluster := setArgoCDs (cluster w)
                             (storeUpdate id a (argocds (cluster w)));
                calls := calls w ++ [UpdateArgoCD (Namespace a) (Name a)] |})
        | None =>
            (Fail (errNotFound "argocds" (Name a)),
             record (UpdateArgoCD (Namespace a) (Name a)) w)
        end
    end.
Proof.
  unfold updateArgoCD. rewrite call_run.
  destruct (F (calls w) _); [done|]. by destruct (storeGet _ _ _ _).
Qed.

(** X2: [removeDeletionFinalizer] makes one call, the update of the given
    object without the deletion finalizer, its other finalizers kept in
    order; that object is the one in memory afterwards, whether or not the
    update succeeds.  It returns nil exactly when the update succeeds.  When
    the update fails, the error returned wraps the error of the update, and
    the cluster is unchanged. *)
Theorem removeDeletionFinalizer_effect
    (F : Faults) (argocd : ObjectMeta) (w : World) :
  let stripped :=
    withFinalizers argocd
      (filter (λ f, f ≠ ArgoCDDeletionFinalizer) (Finalizers argocd)) in
  let out := removeDeletionFinalizer F argocd w in
  snd (fst out) = stripped
  ∧ (ArgoCDDeletionFinalizer ∉ Finalizers (snd (fst out)))
  ∧ snd out = snd (updateArgoCD F stripped w)
  ∧ newCalls w (snd out) = [UpdateArgoCD (Namespace argocd) (Name argocd)]
  ∧ (fst (fst out) = None ↔ fst (updateArgoCD F stripped w) = Ok ())
  ∧ (∀ cause,
       fst (updateArgoCD F stripped w) = Fail cause →
       fst (fst out)
       = Some (Errorf "failed to remove deletion finalizer from "
                 (Name argocd) cause))
  ∧ (∀ err,
       fst (fst out) = Some err →
       cluster (snd out) = cluster w
       ∧ ∃ cause,
           fst (updateArgoCD F stripped w) = Fail cause
           ∧ err = Errorf "failed to remove deletion finalizer from "
                     (Name argocd) cause).
Proof.
  cbv zeta. unfold removeDeletionFinalizer, bind.
  rewrite removeString_filter.
  set (a := withFinalizers argocd _).
  assert (ArgoCDDeletionFinalizer ∉ Finalizers a) as Hnin.
  { subst a. cbn [withFinalizers Finalizers].
    intros [? _]%list_elem_of_filter. done. }
  pose proof (updateArgoCD_failure F a w) as Hfail.
  assert (calls (snd (updateArgoCD F a w))
          = calls w ++ [UpdateArgoCD (Namespace argocd) (Name argocd)]) as Hc.
  { unfold updateArgoCD. by rewrite call_calls. }
  destruct (updateArgoCD F a w) as [[[]|e] w1]; cbn [fst snd ret] in *.
  - split; [done|]. split; [exact Hnin|]. split; [done|].
    split; [by apply newCalls_app|]. split; [done|]. split; [done|]. done.
  - split; [done|]. split; [exact Hnin|]. split; [done|].
    split; [by apply newCalls_app|]. split; [done|].
    split; [by intros cause [= ->]|].
    intros err [= <-]. split; [by apply (Hfail e)|]. by exists e.
Qed.

Lemma removeDeletionFinalizer_effect_witness :
  fst (fst (removeDeletionFinalizer noFaults demo (demoWorld "ns1,ns2"))) = None
  ∧ fst (fst (removeDeletionFinalizer noFaults goneInstance
                (demoWorld "ns1,ns2")))
    = Some (Errorf "failed to remove deletion finalizer from " "gone"
              (errNotFound "argocds" "gone"))
  ∧ Finalizers (snd (fst (removeDeletionFinalizer noFaults goneInstance
                            (demoWorld "ns1,ns2"))))
    = ["keep"].
Proof.
  destruct (removeDeletionFinalizer_effect noFaults demo (demoWorld "ns1,ns2"))
    as (_ & _ & _ & _ & Hnil & _).
  destruct (removeDeletionFinalizer_effect noFaults goneInstance
              (demoWorld "ns1,ns2")) as (Hobj & _ & _ & _ & _ & Herr & _).
  split; [apply Hnil; reflexivity|].
  split; [apply (Herr (errNotFound "argocds" "gone")); reflexivity|].
  rewrite Hobj. reflexivity.
Defined.

(** X3: adding the deletion finalizer and then removing it leaves the
    object in memory with the finalizers it had, except that every earlier
    occurrence of the deletion finalizer is gone as well; an object that
    did not carry the finalizer is restored exactly. *)
Theorem add_then_remove_finalizer
    (F : Faults) (argocd : ObjectMeta) (w : World) :
  let added := addDeletionFinalizer F argocd w in
  let removed := removeDeletionFinalizer F (snd (fst added)) (snd added) in
  Finalizers (snd (fst added)) = Finalizers argocd ++ [ArgoCDDeletionFinalizer]
  ∧ Finalizers (snd (fst removed))
    = removeString (Finalizers argocd) ArgoCDDeletionFinalizer
  ∧ (ArgoCDDeletionFinalizer ∉ Finalizers argocd → snd (fst removed) = argocd).
Proof.
  assert (snd (fst (addDeletionFinalizer F argocd w))
          = withFinalizers argocd (Finalizers argocd ++ [ArgoCDDeletionFinalizer]))
    as Hadd.
  { unfold addDeletionFinalizer, bind. by destruct (updateArgoCD F _ w) as [[[]|e] w1]. }
  assert (∀ a w', snd (fst (removeDeletionFinalizer F a w'))
          = withFinalizers a (removeString (Finalizers a) ArgoCDDeletionFinalizer))
    as Hrem.
  { intros a w'. unfold removeDeletionFinalizer, bind.
    by destruct (updateArgoCD F _ w') as [[[]|e] w1]. }
  cbv zeta. rewrite Hrem, Hadd. simpl.
  rewrite removeString_app. simpl. rewrite (right_id_L [] (++)).
  split; [done|]. split; [done|].
  intros Hnin. rewrite removeString_absent by done. by destruct argocd.
Qed.

Lemma add_then_remove_finalizer_witness :
  snd (fst (removeDeletionFinalizer noFaults
              (snd (fst (addDeletionFinalizer noFaults
                           (mkMeta "ns1" "demo" []) (demoWorld "ns1,ns2"))))
              (snd (addDeletionFinalizer noFaults (mkMeta "ns1" "demo" [])
                      (demoWorld "ns1,ns2")))))
  = mkMeta "ns1" "demo" [].
Proof.
  destruct (add_then_remove_finalizer noFaults (mkMeta "ns1" "demo" [])
              (demoWorld "ns1,ns2")) as (_ & _ & H).
  apply H. simpl. apply not_elem_of_nil.
Defined.

(* ===================================================================== *)
(** * Command line arguments and processor counts *)
(* ===================================================================== *)

Lemma contains_elem_of s g : contains s g = true ↔ g ∈ s.
Proof.
  induction s as [|a rest IH]; simpl.
  - split; [done|]. by intros ?%elem_of_nil.
  - rewrite elem_of_cons. destruct (String.eqb_spec a g) as [->|Hne].
    + split; [by left|done].
    + rewrite IH. split; [by right|]. by intros [?|?].
Qed.

Lemma isMergableLoop_None extraArgs cmd :
  isMergableLoop extraArgs cmd = None ↔
  ∀ arg, arg ∈ extraArgs → isLongFlag arg = true → arg ∉ cmd.
Proof.
  induction extraArgs as [|a rest IH]; simpl.
  - split; [|done]. by intros _ ? ?%elem_of_nil.
  - destruct (isLongFlag a) eqn:Hflag.
    + destruct (contains cmd a) eqn:Hc.
      * split; [done|]. intros H. exfalso.
        apply (H a); [by apply elem_of_cons; left|done|].
        by apply contains_elem_of.
      * rewrite IH. split.
        -- intros H arg [->|Hin]%elem_of_cons Hf; [|by apply H].
           intros Hin%contains_elem_of. congruence.
        -- intros H arg Hin. apply H. by apply elem_of_cons; right.
    + rewrite IH. split.
      * intros H arg [->|Hin]%elem_of_cons Hf; [congruence|by apply H].
      * intros H arg Hin. apply H. by apply elem_of_cons; right.
Qed.

(** X4: [isMergable extraArgs cmd] returns nil exactly when no extra
    argument that is longer than two bytes and starts with two dashes
    occurs in [cmd]; otherwise it returns the duplicate argument error.
    Extra arguments without the two dashes, and the bare two dashes, never
    make it fail, even when they occur in [cmd]. *)
Theorem isMergable_duplicate_flags (extraArgs cmd : list string) :
  (isMergable extraArgs cmd = None ↔
     ∀ arg, arg ∈ extraArgs → isLongFlag arg = true → arg ∉ cmd)
  ∧ (isMergable extraArgs cmd = None
     ∨ isMergable extraArgs cmd = Some duplicateArgument)
  ∧ (∀ arg, isLongFlag arg = false →
            isMergable (arg :: extraArgs) cmd = isMergable extraArgs cmd).
Proof.
  assert (isMergable extraArgs cmd = isMergableLoop extraArgs cmd) as Hloop.
  { unfold isMergable. by destruct extraArgs. }
  split; [|split].
  - rewrite Hloop. apply isMergableLoop_None.
  - rewrite Hloop. clear Hloop. induction extraArgs as [|a rest IH]; simpl.
    + by left.
    + destruct (isLongFlag a); [|done]. destruct (contains cmd a); [by right|done].
  - intros arg Hflag. rewrite Hloop. unfold isMergable. simpl. by rewrite Hflag.
Qed.

Lemma isMergable_duplicate_flags_witness :
  isMergable ["--"; "--loglevel"] ["argocd"; "--"] = None.
Proof.
  destruct (isMergable_duplicate_flags ["--loglevel"] ["argocd"; "--"])
    as (_ & _ & H).
  rewrite (H "--"); reflexivity.
Defined.

(** X5: the number of operation processors is never below the default of
    10 and the number of status processors never below the default of 20:
    a configured value is used only when it is larger than the default, and
    the result is the larger of the two. *)
Theorem processors_at_least_default (operation status : Z) :
  getArgoServerOperationProcessors operation = (10 `max` operation)%Z
  ∧ getArgoServerStatusProcessors status = (20 `max` status)%Z
  ∧ (10 ≤ getArgoServerOperationProcessors operation)%Z
  ∧ (20 ≤ getArgoServerStatusProcessors status)%Z
  ∧ (getArgoServerOperationProcessors operation ≠ operation →
     (operation < 10)%Z
     ∧ getArgoServerOperationProcessors operation = 10%Z)
  ∧ (getArgoServerStatusProcessors status ≠ status →
     (status < 20)%Z ∧ getArgoServerStatusProcessors status = 20%Z).
Proof.
  unfold getArgoServerOperationProcessors, getArgoServerStatusProcessors,
    ArgoCDDefaultServerOperationProcessors, ArgoCDDefaultServerStatusProcessors.
  cbv zeta. destruct (Z.ltb_spec 10 operation), (Z.ltb_spec 20 status); lia.
Qed.

Lemma processors_at_least_default_witness :
  getArgoServerOperationProcessors 3 = 10%Z
  ∧ getArgoServerStatusProcessors (-1) = 20%Z.
Proof.
  destruct (processors_at_least_default 3 (-1)) as (_ & _ & _ & _ & H1 & H2).
  split; [apply H1|apply H2]; by vm_compute.
Defined.

(* ===================================================================== *)
(** * More on the order of the reconcilers *)
(* ===================================================================== *)

Lemma Forall_prefix {A} (P : A → Prop) (l1 l2 : list A) :
  l1 `prefix_of` l2 → Forall P l2 → Forall P l1.
Proof. intros [k ->] H. by apply Forall_app in H as [H _]. Qed.

Lemma Reconcile_ops outcome status route :
  snd (Reconcile outcome status route [])
  = match status with
    | Fail _ => []
    | Ok ns =>
        snd (firstFailure outcome
               (if DeletionTimestamp ns
                then OpDelete <$> rev (serverOrder route)
                else OpReconcile <$> serverOrder route))
    end.
Proof.
  unfold Reconcile. destruct status as [[[]]|e]; [| |done];
    cbn [DeletionTimestamp].
  - by rewrite DeleteResources_run.
  - by rewrite reconcileAll_run.
Qed.

(** X6: [ServerReconciler.Reconcile] invokes nothing when the namespace of
    the instance cannot be fetched, only deletions when that namespace is
    being deleted, and only reconciliations otherwise; whatever the steps
    return, it touches the route only when the Route API is available. *)
Theorem Reconcile_modes
    (outcome : ServerOp → option error) (route : bool) (e : error)
    (status : result NamespaceStatus) :
  Reconcile outcome (Fail e) route [] = (Some e, [])
  ∧ Reconcile outcome terminating route [] = DeleteResources outcome route []
  ∧ Forall (λ op, ∃ res, op = OpDelete res)
      (snd (Reconcile outcome terminating route []))
  ∧ Forall (λ op, ∃ res, op = OpReconcile res)
      (snd (Reconcile outcome steadyState route []))
  ∧ Forall (λ op, resourceOf op = Route → route = true)
      (snd (Reconcile outcome status route [])).
Proof.
  split; [done|]. split; [done|]. split; [|split].
  - rewrite Reconcile_ops. cbv [terminating steadyState DeletionTimestamp].
    eapply Forall_prefix; [apply firstFailure_prefix|].
    apply Forall_fmap, Forall_forall. intros res _. by exists res.
  - rewrite Reconcile_ops. cbv [terminating steadyState DeletionTimestamp].
    eapply Forall_prefix; [apply firstFailure_prefix|].
    apply Forall_fmap, Forall_forall. intros res _. by exists res.
  - rewrite Reconcile_ops. destruct status as [[d]|e']; [|done].
    eapply Forall_prefix; [apply firstFailure_prefix|].
    destruct d, route; simpl; repeat constructor; done.
Qed.

(** X7: when [ServerReconciler.DeleteResources] returns an error, that
    error is the one of the last deletion it attempted, every deletion
    before it succeeded, and the resources later in the order were not
    deleted; when it returns nil, every resource of the order was deleted
    and every deletion succeeded. *)
Theorem DeleteResources_stops_at_first_error
    (outcome : ServerOp → option error) (route : bool) :
  (∀ e, fst (DeleteResources outcome route []) = Some e →
        ∃ done res,
          snd (DeleteResources outcome route []) = done ++ [OpDelete res]
          ∧ outcome (OpDelete res) = Some e
          ∧ Forall (λ op, outcome op = None) done
          ∧ done ++ [OpDelete res]
              `prefix_of` (OpDelete <$> rev (serverOrder route)))
  ∧ (fst (DeleteResources outcome route []) = None →
     snd (DeleteResources outcome route [])
     = OpDelete <$> rev (serverOrder route)
     ∧ Forall (λ op, outcome op = None) (snd (DeleteResources outcome route []))).
Proof.
  rewrite DeleteResources_run. cbn [fst snd app]. split.
  - intros e He.
    pose proof (firstFailure_prefix outcome (OpDelete <$> rev (serverOrder route)))
      as Hpre.
    destruct (firstFailure_error _ _ _ He) as (dn & op & Hs & Ho & Hd).
    rewrite Hs in Hpre |- *.
    assert (∃ res, op = OpDelete res) as [res ->].
    { destruct Hpre as [k Hk].
      assert (op ∈ OpDelete <$> rev (serverOrder route)) as Hin.
      { rewrite Hk. apply elem_of_app. left. apply elem_of_app. right.
        by apply list_elem_of_singleton. }
      apply list_elem_of_fmap in Hin as (res & -> & _). by exists res. }
    by exists dn, res.
  - intros Hn. destruct (firstFailure_success _ _ Hn) as [Hs Hf].
    by rewrite Hs.
Qed.

Lemma DeleteResources_stops_at_first_error_witness :
  snd (DeleteResources deploymentStuck true [])
  = OpDelete <$> [Route; Ingresses; HorizontalPodAutoscaler; Service; Deployment]
  ∧ ∃ done res,
      snd (DeleteResources deploymentStuck true []) = done ++ [OpDelete res]
      ∧ deploymentStuck (OpDelete res) = Some unavailable.
Proof.
  split; [reflexivity|].
  destruct (DeleteResources_stops_at_first_error deploymentStuck true) as [H _].
  destruct (H unavailable eq_refl) as (dn & res & Hs & Ho & _).
  by exists dn, res.
Defined.

Lemma firstFailure_head {Op} (outcome : Op → option error) op l :
  head (snd (firstFailure outcome (op :: l))) = Some op.
Proof.
  cbn [firstFailure]. destruct (outcome op); [done|].
  by destruct (firstFailure outcome l).
Qed.

(** X8: in a pass of [reconcileResources] every reconciler is called at
    most once, [reconcileStatus] is always called first, and a reconciler
    that depends on the Route API, on the Prometheus API, on the
    ApplicationSet section or on the SSO section is never called when that
    API is unavailable or that section is absent. *)
Theorem reconcileResources_gates
    (outcome : Reconciler → option error) (cr : ReconcileInput) :
  NoDup (snd (reconcileResources outcome cr []))
  ∧ head (snd (reconcileResources outcome cr [])) = Some reconcileStatus
  ∧ Forall (λ f, gateOf cr f = true) (snd (reconcileResources outcome cr [])).
Proof.
  rewrite reconcileResources_run. cbn [snd app].
  pose proof (firstFailure_prefix outcome (resourcesOrder cr)) as Hpre.
  split; [|split].
  - assert (NoDup (resourcesOrder cr)) as Hnd
      by (destruct cr as [[] [] [] []]; apply (bool_decide_unpack _);
          by vm_compute).
    destruct Hpre as [k Hk]. rewrite Hk in Hnd.
    by apply NoDup_app in Hnd as [Hnd _].
  - unfold resourcesOrder. cbn [app]. apply firstFailure_head.
  - eapply Forall_prefix; [exact Hpre|].
    destruct cr as [[] [] [] []]; simpl; repeat constructor.
Qed.

(* ===================================================================== *)
(** * The watches registered at start-up *)
(* ===================================================================== *)

Lemma InspectCluster_v1alpha1_run discovery g :
  InspectCluster_v1alpha1 discovery g =
    (firstError discovery [MonitoringV1; RouteV1; TemplateV1],
     {| flags :=
          {| versionAPIFound := versionAPIFound (flags g);
             prometheusAPIFound :=
               flagAfter discovery
                 (untilFirstFailure discovery [MonitoringV1; RouteV1; TemplateV1])
                 (flags g) MonitoringV1;
             routeAPIFound :=
               flagAfter discovery
                 (untilFirstFailure discovery [MonitoringV1; RouteV1; TemplateV1])
                 (flags g) RouteV1;
             templateAPIFound :=
               flagAfter discovery
                 (untilFirstFailure discovery [MonitoringV1; RouteV1; TemplateV1])
                 (flags g) TemplateV1 |};
        probed := probed g
                  ++ untilFirstFailure discovery
                       [MonitoringV1; RouteV1; TemplateV1] |}).
Proof.
  destruct g as [[v p r t] tr].
  unfold InspectCluster_v1alpha1, bind, ret.
  pose proof (verify_run discovery MonitoringV1) as Hm.
  pose proof (verify_run discovery RouteV1) as Hr.
  pose proof (verify_run discovery TemplateV1) as Ht.
  simpl in Hm, Hr, Ht. rewrite Hm.
  unfold flagAfter. simpl.
  destruct (discovery MonitoringV1); simpl; [rewrite Hr|];
    (destruct (discovery RouteV1); simpl; [try rewrite Ht|]);
    (destruct (discovery TemplateV1); simpl);
    rewrite <- ?(assoc_L (++)); reflexivity.
Qed.

Lemma setResourceWatches_run discovery bldr g :
  setResourceWatches discovery bldr g =
    (bldr ++ baseWatches
       ++ optionalWatches (flags (snd (InspectCluster_v1alpha1 discovery g)))
       ++ [namespaceWatch],
     snd (InspectCluster_v1alpha1 discovery g)).
Proof.
  unfold setResourceWatches.
  destruct (InspectCluster_v1alpha1 discovery g) as [err g'].
  unfold optionalWatches, baseWatches, namespaceWatch. simpl.
  destruct (routeAPIFound (flags g')), (prometheusAPIFound (flags g')),
    (templateAPIFound (flags g')); simpl;
    rewrite <- ?(assoc_L (++)); reflexivity.
Qed.

(** X9: [setResourceWatches] always registers the twelve basic watches
    first and the namespace watch with its filter predicate last, whatever
    the inspection of the cluster returns; in between it registers the
    Route, Prometheus and DeploymentConfig watches exactly for the flags
    that are set after the inspection.  The inspection never probes the
    Version API.  When the Prometheus probe fails on a fresh process, none
    of the optional watches is registered, even if discovery would find the
    Route and Template APIs. *)
Theorem setResourceWatches_registrations (discovery : API → result bool)
    (g : Gate) :
  fst (setResourceWatches discovery [] g)
  = baseWatches ++ optionalWatches (flags (snd (setResourceWatches discovery [] g)))
    ++ [namespaceWatch]
  ∧ (Owns KRoute ∈ fst (setResourceWatches discovery [] g) ↔
     routeAPIFound (flags (snd (setResourceWatches discovery [] g))) = true)
  ∧ (ConfigV1 ∉ newProbes g (snd (setResourceWatches discovery [] g)))
  ∧ versionAPIFound (flags (snd (setResourceWatches discovery [] g)))
    = versionAPIFound (flags g)
  ∧ (∀ e, discovery MonitoringV1 = Fail e →
          fst (setResourceWatches discovery [] freshGate)
          = baseWatches ++ [namespaceWatch]).
Proof.
  rewrite setResourceWatches_run. cbn [fst snd app].
  split; [done|]. split; [|split; [|split]].
  - rewrite !elem_of_app. unfold optionalWatches.
    split.
    + intros [Hin|[Hin|Hin]].
      * by vm_compute in Hin; repeat (apply elem_of_cons in Hin as [?|Hin]; [done|]);
          apply elem_of_nil in Hin.
      * destruct (routeAPIFound _); [done|].
        rewrite !elem_of_app in Hin. destruct Hin as [Hin|[Hin|Hin]].
        -- by apply elem_of_nil in Hin.
        -- destruct (prometheusAPIFound _);
             repeat (apply elem_of_cons in Hin as [?|Hin]; [done|]);
             by apply elem_of_nil in Hin.
        -- destruct (templateAPIFound _);
             repeat (apply elem_of_cons in Hin as [?|Hin]; [done|]);
             by apply elem_of_nil in Hin.
      * apply list_elem_of_singleton in Hin. done.
    + intros ->. right; left. apply elem_of_app. left. by apply list_elem_of_singleton.
  - rewrite InspectCluster_v1alpha1_run. unfold newProbes. simpl.
    rewrite drop_app_length.
    destruct (discovery MonitoringV1), (discovery RouteV1), (discovery TemplateV1);
      simpl; intros Hin;
      repeat (apply elem_of_cons in Hin as [?|Hin]; [done|]);
      by apply elem_of_nil in Hin.
  - by rewrite InspectCluster_v1alpha1_run.
  - intros e He. rewrite setResourceWatches_run, InspectCluster_v1alpha1_run.
    unfold flagAfter, optionalWatches. simpl. rewrite He.
    by destruct (discovery RouteV1), (discovery TemplateV1).
Qed.

Lemma setResourceWatches_registrations_witness :
  prometheusDown RouteV1 = Ok true
  ∧ Owns KRoute ∉ fst (setResourceWatches prometheusDown [] freshGate).
Proof.
  split; [reflexivity|].
  destruct (setResourceWatches_registrations prometheusDown freshGate)
    as (_ & _ & _ & _ & H).
  rewrite (H unavailable eq_refl). apply (bool_decide_unpack _). by vm_compute.
Defined.

(* ===================================================================== *)
(** * What the cleanup of a namespace leaves behind *)
(* ===================================================================== *)

Lemma storeDelete_absent {A} (meta : A → ObjectMeta) ns name (l : list A) :
  storeGet meta ns name l = None → storeDelete meta ns name l = l.
Proof.
  unfold storeDelete. induction l as [|y rest IH]; simpl; [done|].
  destruct (decide (hasKey ns name (meta y))) as [Hk|Hk]; [done|].
  intros Hn. by rewrite filter_cons_True, IH by done.
Qed.

Lemma filter_none {A} (P : A → Prop) `{!∀ x, Decision (P x)} (l : list A) :
  (∀ x, x ∈ l → ¬ P x) → filter P l = [].
Proof.
  induction l as [|y rest IH]; [done|]. intros Hall.
  rewrite filter_cons_False by (apply Hall; by apply elem_of_cons; left).
  apply IH. intros x Hx. apply Hall. by apply elem_of_cons; right.
Qed.

(** Deleting the objects named by [items] in namespace [ns]. *)
Lemma foldl_storeDelete_elem_of ns (items l : list ObjectMeta) y :
  y ∈ foldl (λ l r, storeDelete id ns (Name r) l) l items ↔
  y ∈ l ∧ ¬ (Namespace y = ns ∧ Name y ∈ Name <$> items).
Proof.
  revert l. induction items as [|r rest IH]; intros l; simpl.
  - split; [|by intros [? _]]. intros Hy. split; [done|].
    by intros [_ ?%elem_of_nil].
  - rewrite IH. unfold storeDelete at 1. rewrite list_elem_of_filter.
    unfold hasKey. simpl. rewrite elem_of_cons. tauto.
Qed.

Lemma deleteRole_noFaults ns name w :
  roles (cluster (snd (deleteRole noFaults ns name w)))
  = storeDelete id ns name (roles (cluster w)).
Proof.
  unfold deleteRole. rewrite call_run. simpl.
  destruct (storeGet id ns name (roles (cluster w))) eqn:Hg; simpl; [done|].
  by rewrite storeDelete_absent.
Qed.

Lemma deleteRoleBinding_noFaults ns name w :
  roleBindings (cluster (snd (deleteRoleBinding noFaults ns name w)))
  = storeDelete id ns name (roleBindings (cluster w)).
Proof.
  unfold deleteRoleBinding. rewrite call_run. simpl.
  destruct (storeGet id ns name (roleBindings (cluster w))) eqn:Hg; simpl;
    [done|].
  by rewrite storeDelete_absent.
Qed.

Lemma deleteRoles_noFaults ns items w :
  roles (cluster (snd (deleteRoles noFaults ns items w)))
  = foldl (λ l r, storeDelete id ns (Name r) l) (roles (cluster w)) items.
Proof.
  revert w. induction items as [|r rest IH]; intros w; simpl; [done|].
  unfold bind. pose proof (deleteRole_noFaults ns (Name r) w) as H.
  destruct (deleteRole noFaults ns (Name r) w) as [x w1]. simpl in H.
  by rewrite IH, H.
Qed.

Lemma deleteRoleBindings_noFaults ns items w :
  roleBindings (cluster (snd (deleteRoleBindings noFaults ns items w)))
  = foldl (λ l r, storeDelete id ns (Name r) l) (roleBindings (cluster w)) items.
Proof.
  revert w. induction items as [|r rest IH]; intros w; simpl; [done|].
  unfold bind. pose proof (deleteRoleBinding_noFaults ns (Name r) w) as H.
  destruct (deleteRoleBinding noFaults ns (Name r) w) as [x w1]. simpl in H.
  by rewrite IH, H.
Qed.

(** The outcome of [deleteRBACsForNamespace] when no call fails. *)
Lemma deleteRBACsForNamespace_noFaults ownerNS sourceNS w :
  let del := λ l (r : ObjectMeta), storeDelete id sourceNS (Name r) l in
  let rs := storeList id sourceNS ArgoCDKeyPartOf ArgoCDAppName
              (roles (cluster w)) in
  let bs := storeList id sourceNS ArgoCDKeyPartOf ArgoCDAppName
              (roleBindings (cluster w)) in
  let out := deleteRBACsForNamespace noFaults ownerNS sourceNS w in
  fst out = None
  ∧ roles (cluster (snd out)) = foldl del (roles (cluster w)) rs
  ∧ roleBindings (cluster (snd out)) = foldl del (roleBindings (cluster w)) bs
  ∧ calls (snd out)
    = calls w
      ++ ListRoles sourceNS ArgoCDKeyPartOf ArgoCDAppName
      :: (DeleteRole sourceNS ∘ Name <$> rs)
      ++ ListRoleBindings sourceNS ArgoCDKeyPartOf ArgoCDAppName
      :: (DeleteRoleBinding sourceNS ∘ Name <$> bs)
  ∧ secrets (cluster (snd out)) = secrets (cluster w)
  ∧ namespaces (cluster (snd out)) = namespaces (cluster w).
Proof.
  cbv zeta.
  unfold deleteRBACsForNamespace, bind, listRoles, listRoleBindings.
  rewrite call_run. cbn [noFaults fst snd].
  set (rs := storeList id sourceNS ArgoCDKeyPartOf ArgoCDAppName (roles (cluster w))).
  set (w1 := {| cluster := cluster w; calls := _ |}).
  pose proof (deleteRoles_frame noFaults sourceNS rs w1) as Hfr.
  pose proof (deleteRoles_noFaults sourceNS rs w1) as Hro.
  destruct (deleteRoles noFaults sourceNS rs w1) as [x w2].
  cbn [snd] in Hfr, Hro. destruct Hfr as (Hc & Hb & Hs & Hn).
  rewrite call_run. cbn [noFaults fst snd]. rewrite Hb.
  set (bs := storeList id sourceNS ArgoCDKeyPartOf ArgoCDAppName
               (roleBindings (cluster w1))).
  set (w3 := {| cluster := cluster w2; calls := _ |}).
  pose proof (deleteRoleBindings_frame noFaults sourceNS bs w3) as Hfr'.
  pose proof (deleteRoleBindings_noFaults sourceNS bs w3) as Hbi.
  destruct (deleteRoleBindings noFaults sourceNS bs w3) as [y w4].
  cbn [snd] in Hfr', Hbi. destruct Hfr' as (Hc' & Hr' & Hs' & Hn').
  cbn [ret fst snd]. subst bs w3 rs w1. cbn [cluster calls] in *.
  split; [done|]. split; [by rewrite Hr', Hro|].
  split; [by rewrite Hbi, Hb|].
  split; [|by rewrite Hs', Hn', Hs, Hn].
  rewrite Hc', Hc. by rewrite <- !(assoc_L (++)).
Qed.

Lemma storeList_foldl_storeDelete ns key value (l : list ObjectMeta) :
  storeList id ns key value
    (foldl (λ l r, storeDelete id ns (Name r) l) l (storeList id ns key value l))
  = [].
Proof.
  unfold storeList at 1. apply filter_none. intros y Hy [Hns Hl].
  apply foldl_storeDelete_elem_of in Hy as [Hin Hnot]. apply Hnot.
  split; [done|]. apply list_elem_of_fmap. exists y. split; [done|].
  unfold storeList. by apply list_elem_of_filter.
Qed.

Lemma deleteRBACsForNamespace_clears_namespace_lemma ownerNS sourceNS w :
  storeList id sourceNS ArgoCDKeyPartOf ArgoCDAppName
    (roles (cluster (snd (deleteRBACsForNamespace noFaults ownerNS sourceNS w))))
  = []
  ∧ storeList id sourceNS ArgoCDKeyPartOf ArgoCDAppName
      (roleBindings (cluster (snd (deleteRBACsForNamespace noFaults ownerNS
                                     sourceNS w))))
    = [].
Proof.
  destruct (deleteRBACsForNamespace_noFaults ownerNS sourceNS w)
    as (_ & Hr & Hb & _).
  rewrite Hr, Hb. split; apply storeList_foldl_storeDelete.
Qed.

(** X10: when no call fails, [deleteRBACsForNamespace] returns nil and
    leaves in [sourceNS] no role and no role binding that carries the
    part-of label of Argo CD; roles and role bindings of other namespaces
    all remain.  The argument [ownerNS] plays no part in it. *)
Theorem deleteRBACsForNamespace_clears_namespace
    (ownerNS ownerNS' sourceNS : string) (w : World) :
  fst (deleteRBACsForNamespace noFaults ownerNS sourceNS w) = None
  ∧ storeList id sourceNS ArgoCDKeyPartOf ArgoCDAppName
      (roles (cluster (snd (deleteRBACsForNamespace noFaults ownerNS sourceNS w))))
    = []
  ∧ storeList id sourceNS ArgoCDKeyPartOf ArgoCDAppName
      (roleBindings (cluster (snd (deleteRBACsForNamespace noFaults ownerNS
                                     sourceNS w))))
    = []
  ∧ (∀ y, Namespace y ≠ sourceNS →
          (y ∈ roles (cluster (snd (deleteRBACsForNamespace noFaults ownerNS
                                      sourceNS w)))
           ↔ y ∈ roles (cluster w))
          ∧ (y ∈ roleBindings (cluster (snd (deleteRBACsForNamespace noFaults
                                               ownerNS sourceNS w)))
             ↔ y ∈ roleBindings (cluster w)))
  ∧ ∀ F, deleteRBACsForNamespace F ownerNS sourceNS w
         = deleteRBACsForNamespace F ownerNS' sourceNS w.
Proof.
  destruct (deleteRBACsForNamespace_noFaults ownerNS sourceNS w)
    as (Hres & Hr & Hb & _).
  split; [exact Hres|]. rewrite Hr, Hb.
  split; [apply storeList_foldl_storeDelete|].
  split; [apply storeList_foldl_storeDelete|].
  split; [|done].
  intros y Hy. rewrite !foldl_storeDelete_elem_of. tauto.
Qed.

Lemma deleteRBACsForNamespace_clears_namespace_witness :
  mkMeta "ns3" "demo-argocd-server" [(ArgoCDKeyPartOf, "argocd")]
    ∈ roles (cluster (snd (deleteRBACsForNamespace noFaults "ns1" "ns2"
                             otherRolesWorld))).
Proof.
  destruct (deleteRBACsForNamespace_clears_namespace "ns1" "ns1" "ns2"
              otherRolesWorld) as (_ & _ & _ & H & _).
  apply H; [by vm_compute|].
  apply elem_of_cons; right. by apply elem_of_cons; left.
Defined.

Lemma deleteRBACsForNamespace_nothing_listed ownerNS sourceNS w :
  storeList id sourceNS ArgoCDKeyPartOf ArgoCDAppName (roles (cluster w)) = [] →
  storeList id sourceNS ArgoCDKeyPartOf ArgoCDAppName (roleBindings (cluster w))
  = [] →
  deleteRBACsForNamespace noFaults ownerNS sourceNS w
  = (None,
     record (ListRoleBindings sourceNS ArgoCDKeyPartOf ArgoCDAppName)
       (record (ListRoles sourceNS ArgoCDKeyPartOf ArgoCDAppName) w)).
Proof.
  intros Hr Hb.
  unfold deleteRBACsForNamespace, bind, listRoles, listRoleBindings.
  rewrite call_run. cbn [noFaults fst snd]. rewrite Hr. cbn [deleteRoles ret].
  rewrite call_run. cbn [noFaults fst snd cluster]. rewrite Hb. done.
Qed.

(** X11: a second run of [deleteRBACsForNamespace], when no call fails,
    finds nothing to delete: it makes the two list calls only and leaves
    the cluster as the first run left it. *)
Theorem deleteRBACsForNamespace_idempotent
    (ownerNS sourceNS : string) (w : World) :
  let w1 := snd (deleteRBACsForNamespace noFaults ownerNS sourceNS w) in
  let w2 := snd (deleteRBACsForNamespace noFaults ownerNS sourceNS w1) in
  newCalls w1 w2
  = [ListRoles sourceNS ArgoCDKeyPartOf ArgoCDAppName;
     ListRoleBindings sourceNS ArgoCDKeyPartOf ArgoCDAppName]
  ∧ cluster w2 = cluster w1.
Proof.
  cbv zeta.
  set (w1 := snd (deleteRBACsForNamespace noFaults ownerNS sourceNS w)).
  destruct (deleteRBACsForNamespace_clears_namespace_lemma ownerNS sourceNS w)
    as (Hr0 & Hb0). fold w1 in Hr0, Hb0.
  rewrite (deleteRBACsForNamespace_nothing_listed _ _ _ Hr0 Hb0).
  split; [|done]. apply newCalls_app. simpl. by rewrite <- (assoc_L (++)).
Qed.

Lemma deleteRBACsForNamespace_frame F ownerNS sourceNS w :
  namespaces (cluster (snd (deleteRBACsForNamespace F ownerNS sourceNS w)))
  = namespaces (cluster w)
  ∧ secrets (cluster (snd (deleteRBACsForNamespace F ownerNS sourceNS w)))
    = secrets (cluster w).
Proof.
  unfold deleteRBACsForNamespace, bind, listRoles, listRoleBindings.
  rewrite call_run. destruct (F (calls w) _); [done|]. cbn [fst snd].
  set (w1 := {| cluster := cluster w; calls := _ |}).
  destruct (deleteRoles_frame F sourceNS
              (storeList id sourceNS ArgoCDKeyPartOf ArgoCDAppName
                 (roles (cluster w))) w1) as (_ & _ & Hs & Hn).
  destruct (deleteRoles F sourceNS _ w1) as [x w2]. cbn [snd] in Hs, Hn.
  rewrite call_run. destruct (F (calls w2) _); [by cbn; rewrite Hs, Hn|].
  cbn [fst snd].
  set (w3 := {| cluster := cluster w2; calls := _ |}).
  destruct (deleteRoleBindings_frame F sourceNS
              (storeList id sourceNS ArgoCDKeyPartOf ArgoCDAppName
                 (roleBindings (cluster w2))) w3) as (_ & _ & Hs' & Hn').
  destruct (deleteRoleBindings F sourceNS _ w3) as [y w4]. cbn in *.
  by rewrite Hs', Hn', Hs, Hn.
Qed.

Lemma cleanupOldOwner_frame F server owner name w :
  namespaces (cluster (snd (cleanupOldOwner F server owner name w)))
  = namespaces (cluster w).
Proof.
  unfold cleanupOldOwner, bind.
  destruct (deleteRBACsForNamespace_frame F owner name w) as [Hn _].
  destruct (deleteRBACsForNamespace F owner name w) as [x w1]. cbn [snd] in Hn.
  destruct (deleteManagedNamespaceFromClusterSecret_frame F server owner name w1)
    as (_ & _ & _ & Hn').
  destruct (deleteManagedNamespaceFromClusterSecret F server owner name w1)
    as [y w2]. cbn in *. by rewrite Hn', Hn.
Qed.

Lemma UpdateFunc_run F server e w :
  UpdateFunc F server e w =
    match GetLabels (ObjectNew e) !! ArgoCDManagedByLabel,
          GetLabels (ObjectOld e) !! ArgoCDManagedByLabel with
    | Some valNew, Some valOld =>
        if decide (valOld ≠ valNew) then
          match F (calls w) NewClient with
          | Some _ => (false, record NewClient w)
          | None =>
              (true,
               snd (cleanupOldOwner F server valOld (Name (ObjectOld e))
                      (record NewClient w)))
          end
        else (true, w)
    | Some _, None => (true, w)
    | None, Some ns =>
        if decide (ns ≠ "") then
          match F (calls w) NewClient with
          | Some _ => (false, record NewClient w)
          | None =>
              (false,
               snd (cleanupOldOwner F server ns (Name (ObjectOld e))
                      (record NewClient w)))
          end
        else (false, w)
    | None, None => (false, w)
    end.
Proof.
  unfold UpdateFunc.
  destruct (GetLabels (ObjectNew e) !! ArgoCDManagedByLabel) as [valNew|],
    (GetLabels (ObjectOld e) !! ArgoCDManagedByLabel) as [valOld|];
    try done.
  - destruct (decide (valOld ≠ valNew)); [|done].
    unfold bind, initK8sClient. rewrite call_run.
    destruct (F (calls w) NewClient); [done|]. cbn [fst snd].
    change {| cluster := cluster w; calls := calls w ++ [NewClient] |}
      with (record NewClient w).
    by destruct (cleanupOldOwner _ _ _ _ _).
  - destruct (decide (valOld ≠ "")); [|done].
    unfold bind, initK8sClient. rewrite call_run.
    destruct (F (calls w) NewClient); [done|]. cbn [fst snd].
    change {| cluster := cluster w; calls := calls w ++ [NewClient] |}
      with (record NewClient w).
    by destruct (cleanupOldOwner _ _ _ _ _).
Qed.

(** X12: the update predicate never changes a namespace object.  It makes
    no call at all when the old object has no managing-instance label or
    when old and new object carry the same value.  Unless the client cannot
    be built, it returns true exactly when the new object carries the
    label.  When the value of the label has changed, the cleanup it runs is
    the one for the old value and the name of the namespace. *)
Theorem UpdateFunc_triggers
    (F : Faults) (server : string) (e : UpdateEvent) (w : World) :
  namespaces (cluster (snd (UpdateFunc F server e w))) = namespaces (cluster w)
  ∧ (GetLabels (ObjectOld e) !! ArgoCDManagedByLabel = None
     ∨ GetLabels (ObjectOld e) !! ArgoCDManagedByLabel
       = GetLabels (ObjectNew e) !! ArgoCDManagedByLabel →
     snd (UpdateFunc F server e w) = w)
  ∧ (F (calls w) NewClient = None →
     fst (UpdateFunc F server e w)
     = bool_decide (is_Some (GetLabels (ObjectNew e) !! ArgoCDManagedByLabel)))
  ∧ (∀ valOld valNew,
       GetLabels (ObjectOld e) !! ArgoCDManagedByLabel = Some valOld →
       GetLabels (ObjectNew e) !! ArgoCDManagedByLabel = Some valNew →
       valOld ≠ valNew →
       F (calls w) NewClient = None →
       snd (UpdateFunc F server e w)
       = snd (cleanupOldOwner F server valOld (Name (ObjectOld e))
                (record NewClient w))).
Proof.
  rewrite UpdateFunc_run.
  destruct (GetLabels (ObjectNew e) !! ArgoCDManagedByLabel) as [valNew|] eqn:Hn,
    (GetLabels (ObjectOld e) !! ArgoCDManagedByLabel) as [valOld|] eqn:Ho.
  - destruct (decide (valOld ≠ valNew)) as [Hne|Heq].
    + destruct (F (calls w) NewClient) eqn:HF; cbn [fst snd].
      * split; [done|]. split; [intros [?|[= ?]]; try done; by destruct Hne|]. split; [done|].
        by intros.
      * split; [by rewrite cleanupOldOwner_frame|].
        split; [intros [?|[= ?]]; try done; by destruct Hne|]. split; [done|].
        by intros ? ? [= <-] [= <-] _ _.
    + cbn [fst snd]. split; [done|]. split; [done|]. split; [done|].
      intros ? ? [= <-] [= <-] ?. by destruct Heq.
  - cbn [fst snd]. split; [done|]. split; [done|]. split; [done|]. by intros.
  - destruct (decide (valOld ≠ "")) as [Hne|Heq].
    + destruct (F (calls w) NewClient) eqn:HF; cbn [fst snd].
      * split; [done|]. split; [intros [?|?]; try done; congruence|]. split; [done|]. by intros.
      * split; [by rewrite cleanupOldOwner_frame|].
        split; [intros [?|?]; try done; congruence|]. split; [done|]. by intros.
    + cbn [fst snd]. split; [done|]. split; [done|]. split; [done|]. by intros.
  - cbn [fst snd]. split; [done|]. split; [done|]. split; [done|]. by intros.
Qed.

Lemma UpdateFunc_triggers_witness :
  UpdateFunc noFaults defaultServer labelAdded (demoWorld "ns1,ns2")
  = (true, demoWorld "ns1,ns2").
Proof.
  destruct (UpdateFunc_triggers noFaults defaultServer labelAdded
              (demoWorld "ns1,ns2")) as (_ & Hsame & Hret & _).
  destruct (UpdateFunc noFaults defaultServer labelAdded (demoWorld "ns1,ns2"))
    as [b w'] eqn:Hrun.
  cbn [fst snd] in Hsame, Hret.
  rewrite Hsame by (left; reflexivity). by rewrite Hret.
Defined.

(* ===================================================================== *)
(** * What the removal of the label leaves behind *)
(* ===================================================================== *)

Lemma storeUpdate_fmap (l : list ObjectMeta) x :
  (∀ ns, ns ∈ l → Namespace ns = "") →
  NoDup (Name <$> l) →
  Namespace x = "" →
  storeUpdate id x l = (λ ns, if decide (Name ns = Name x) then x else ns) <$> l.
Proof.
  intros Hsc Hnd Hx. induction l as [|y rest IH]; [done|].
  rewrite fmap_cons in Hnd. apply NoDup_cons in Hnd as [Hy Hnd].
  assert (Namespace y = "") as Hyns by (apply Hsc; by apply elem_of_cons; left).
  assert (∀ ns, ns ∈ rest → Namespace ns = "") as Hsc'
    by (intros ns Hin; apply Hsc; by apply elem_of_cons; right).
  cbn [storeUpdate fmap list_fmap]. unfold hasKey. cbn [id].
  destruct (decide (Namespace y = Namespace x ∧ Name y = Name x)) as [[_ Hn]|Hk].
  - rewrite decide_True by done. f_equal.
    rewrite <- (list_fmap_id rest) at 1. apply Forall_fmap_ext_1, Forall_forall.
    intros ns Hin. rewrite decide_False; [done|].
    intros Heq. apply Hy. rewrite Hn, <- Heq. by apply list_elem_of_fmap_2.
  - rewrite decide_False by (intros Hn; apply Hk; split; congruence).
    f_equal. by apply IH.
Qed.

Lemma removeManagedByLabelLoop_app F namespace (a b : list ObjectMeta) w :
  removeManagedByLabelLoop F namespace (a ++ b) w =
    match fst (removeManagedByLabelLoop F namespace a w) with
    | Some e => removeManagedByLabelLoop F namespace a w
    | None =>
        removeManagedByLabelLoop F namespace b
          (snd (removeManagedByLabelLoop F namespace a w))
    end.
Proof.
  revert w. induction a as [|n rest IH]; intros w; [done|].
  cbn [app removeManagedByLabelLoop]. unfold bind.
  destruct (getNamespace F (Name n) w) as [[ns|e] w1]; [|done].
  destruct (Labels ns) as [labels|]; [|apply IH].
  destruct (labels !! ArgoCDManagedByLabel) as [n'|]; [|apply IH].
  destruct (decide (n' ≠ namespace)); [apply IH|].
  destruct (updateNamespace F _ w1) as [x w2]. apply IH.
Qed.

Lemma stripManagedBy_not_labelled namespace ns :
  ¬ hasLabel ArgoCDManagedByLabel namespace (stripManagedBy namespace ns).
Proof.
  unfold stripManagedBy.
  destruct (decide (hasLabel ArgoCDManagedByLabel namespace ns)) as [Hl|Hl];
    [|done].
  unfold hasLabel, GetLabels, deleteLabel. simpl.
  destruct (Labels ns); simpl; [by rewrite lookup_delete_eq|by rewrite lookup_empty].
Qed.

Lemma stripManagedBy_idem namespace ns :
  stripManagedBy namespace (stripManagedBy namespace ns)
  = stripManagedBy namespace ns.
Proof.
  unfold stripManagedBy at 1.
  rewrite decide_False; [done|apply stripManagedBy_not_labelled].
Qed.

Lemma stripManagedBy_meta namespace ns :
  Name (stripManagedBy namespace ns) = Name ns
  ∧ Namespace (stripManagedBy namespace ns) = Namespace ns.
Proof. unfold stripManagedBy. by destruct (decide _). Qed.

(** One turn of the loop when no call fails. *)
Lemma removeManagedByLabelLoop_step namespace n rest w ns0 :
  storeGet id "" (Name n) (namespaces (cluster w)) = Some ns0 →
  removeManagedByLabelLoop noFaults namespace (n :: rest) w
  = removeManagedByLabelLoop noFaults namespace rest
      (if decide (hasLabel ArgoCDManagedByLabel namespace ns0)
       then {| cluster :=
                 setNamespaces (cluster w)
                   (storeUpdate id (deleteLabel ArgoCDManagedByLabel ns0)
                      (namespaces (cluster w)));
               calls := (calls w ++ [GetNamespace (Name n)])
                        ++ [UpdateNamespace (Name ns0)] |}
       else record (GetNamespace (Name n)) w).
Proof.
  intros Hget. destruct (storeGet_Some _ _ _ _ _ Hget) as [_ [Hns Hname]].
  cbn [id] in Hns, Hname.
  cbn [removeManagedByLabelLoop]. unfold bind. rewrite getNamespace_run.
  cbn [noFaults]. rewrite Hget.
  destruct (decide (hasLabel ArgoCDManagedByLabel namespace ns0)) as [Hl|Hl].
  - apply hasLabel_managedBy in Hl as (labels & HL & Hlk). rewrite HL, Hlk.
    destruct (decide (namespace ≠ namespace)) as [Hne|_]; [done|].
    unfold updateNamespace. rewrite call_run. cbn [noFaults fst snd].
    cbn [deleteLabel withLabels Name Namespace record cluster calls].
    rewrite Hns, Hname, Hget. done.
  - destruct (Labels ns0) as [labels|] eqn:HL; [|done].
    destruct (labels !! ArgoCDManagedByLabel) as [n'|] eqn:Hlk; [|done].
    destruct (decide (n' ≠ namespace)) as [Hne|Heq]; [done|].
    destruct Hl. apply hasLabel_managedBy. exists labels. split; [done|].
    rewrite Hlk. f_equal. by destruct (decide (n' = namespace)).
Qed.

Lemma pick_cons (n : ObjectMeta) (rest : list ObjectMeta) (ns a b : ObjectMeta) :
  (if decide (Name ns ∈ Name <$> n :: rest) then a else b)
  = if decide (Name ns = Name n) then a
    else if decide (Name ns ∈ Name <$> rest) then a else b.
Proof.
  destruct (decide (Name ns ∈ Name <$> n :: rest)) as [Hin|Hin];
    rewrite fmap_cons, elem_of_cons in Hin;
    destruct (decide (Name ns = Name n)), (decide (Name ns ∈ Name <$> rest));
    tauto.
Qed.

Lemma removeManagedByLabelLoop_strips namespace items w :
  clusterScoped (cluster w) →
  uniqueNames (cluster w) →
  Forall (λ n, is_Some (storeGet id "" (Name n) (namespaces (cluster w)))) items →
  fst (removeManagedByLabelLoop noFaults namespace items w) = None
  ∧ namespaces (cluster (snd (removeManagedByLabelLoop noFaults namespace
                                items w)))
    = (λ ns, if decide (Name ns ∈ Name <$> items)
             then stripManagedBy namespace ns else ns)
      <$> namespaces (cluster w).
Proof.
  revert w. induction items as [|n rest IH]; intros w Hsc Hnd Hall.
  - split; [done|]. cbn [removeManagedByLabelLoop ret snd].
    rewrite <- (list_fmap_id (namespaces (cluster w))) at 1.
    apply Forall_fmap_ext_1, Forall_forall. intros ns _.
    rewrite decide_False; [done|]. by intros ?%elem_of_nil.
  - apply Forall_cons in Hall as [[ns0 Hget] Hrest].
    rewrite (removeManagedByLabelLoop_step _ _ _ _ _ Hget).
    destruct (storeGet_Some _ _ _ _ _ Hget) as [Hin0 [Hns0 Hname0]].
    cbn [id] in Hns0, Hname0.
    destruct (decide (hasLabel ArgoCDManagedByLabel namespace ns0)) as [Hl|Hl].
    + set (x := deleteLabel ArgoCDManagedByLabel ns0).
      assert (storeUpdate id x (namespaces (cluster w))
              = (λ ns, if decide (Name ns = Name n) then x else ns)
                <$> namespaces (cluster w)) as Hupd.
      { rewrite storeUpdate_fmap; [|done|done|done].
        apply Forall_fmap_ext_1, Forall_forall. intros ns _.
        by rewrite <- Hname0. }
      set (w2 := {| cluster := _; calls := _ |}).
      assert (namespaces (cluster w2)
              = (λ ns, if decide (Name ns = Name n) then x else ns)
                <$> namespaces (cluster w)) as Hw2 by exact Hupd.
      assert (Name <$> namespaces (cluster w2) = Name <$> namespaces (cluster w))
        as Hnames.
      { rewrite Hw2, <- list_fmap_compose.
        apply Forall_fmap_ext_1, Forall_forall. intros ns _. cbn.
        destruct (decide (Name ns = Name n)) as [->|]; [|done]. done. }
      destruct (IH w2) as [Hres Hfinal].
      * intros ns Hin. rewrite Hw2 in Hin.
        apply list_elem_of_fmap in Hin as (ns' & -> & Hin').
        destruct (decide (Name ns' = Name n)); [done|by apply Hsc].
      * unfold uniqueNames. by rewrite Hnames.
      * eapply Forall_impl; [exact Hrest|]. intros m [y Hy].
        apply storeGet_elem_of.
        -- intros ns Hin. rewrite Hw2 in Hin.
           apply list_elem_of_fmap in Hin as (ns' & -> & Hin').
           destruct (decide (Name ns' = Name n)); [done|by apply Hsc].
        -- destruct (storeGet_Some _ _ _ _ _ Hy) as [Hyin [_ Hyname]].
           cbn [id] in Hyname.
           assert (Name m ∈ Name <$> namespaces (cluster w2)) as Hm.
           { rewrite Hnames, <- Hyname. by apply list_elem_of_fmap_2. }
           apply list_elem_of_fmap in Hm as (z & Hz & Hzin). by exists z.
      * split; [exact Hres|]. rewrite Hfinal, Hw2, <- list_fmap_compose.
        apply Forall_fmap_ext_1, Forall_forall. intros ns Hin.
        cbv beta delta [compose]. rewrite pick_cons.
        assert (stripManagedBy namespace ns0 = x) as Hx
          by (unfold stripManagedBy; by rewrite decide_True).
        destruct (decide (Name ns = Name n)) as [Heq|Hne]; [|done].
        assert (ns = ns0) as ->
          by (eapply NoDup_Name_eq; [exact Hnd|done..|congruence]).
        rewrite Hx, <- Hx, stripManagedBy_idem. by destruct (decide _).
    + destruct (IH (record (GetNamespace (Name n)) w)) as [Hres Hfinal];
        [done..|].
      split; [exact Hres|]. rewrite Hfinal. cbn [record cluster].
      apply Forall_fmap_ext_1, Forall_forall. intros ns Hin.
      rewrite pick_cons.
      destruct (decide (Name ns = Name n)) as [Heq|Hne]; [|done].
      assert (ns = ns0) as ->
        by (eapply NoDup_Name_eq; [exact Hnd|done..|congruence]).
      assert (stripManagedBy namespace ns0 = ns0) as ->
        by (unfold stripManagedBy; by rewrite decide_False).
      by destruct (decide _).
Qed.

(** The outcome of [removeManagedByLabelFromNamespaces] when no call fails
    and the namespaces have distinct names. *)
Lemma removeManagedByLabelFromNamespaces_strips namespace w :
  clusterScoped (cluster w) →
  uniqueNames (cluster w) →
  namespaces (cluster (snd (removeManagedByLabelFromNamespaces noFaults
                              namespace w)))
  = stripManagedBy namespace <$> namespaces (cluster w)
  ∧ (fst (removeManagedByLabelFromNamespaces noFaults namespace w) = None ↔
     ∃ ns, ns ∈ namespaces (cluster w) ∧ Name ns = namespace).
Proof.
  intros Hsc Hnd.
  rewrite removeManagedByLabelFromNamespaces_run. cbn [noFaults].
  set (w0 := record (ListNamespaces ArgoCDManagedByLabel namespace) w).
  set (listed := filter (hasLabel ArgoCDManagedByLabel namespace)
                   (namespaces (cluster w))).
  rewrite removeManagedByLabelLoop_app.
  destruct (removeManagedByLabelLoop_strips namespace listed w0) as [Hres Hfin];
    [done|done| |].
  { apply Forall_forall. intros n Hn.
    apply list_elem_of_filter in Hn as [_ Hn].
    apply storeGet_elem_of; [exact Hsc|]. by exists n. }
  rewrite Hres.
  set (w1 := snd (removeManagedByLabelLoop noFaults namespace listed w0)) in *.
  assert (namespaces (cluster w1)
          = stripManagedBy namespace <$> namespaces (cluster w)) as Hw1.
  { rewrite Hfin. apply Forall_fmap_ext_1, Forall_forall. intros ns Hin.
    destruct (decide (Name ns ∈ Name <$> listed)) as [_|Hnl]; [done|].
    unfold stripManagedBy.
    destruct (decide (hasLabel ArgoCDManagedByLabel namespace ns)) as [Hl|];
      [|done].
    destruct Hnl. apply list_elem_of_fmap_2. by apply list_elem_of_filter. }
  assert (clusterScoped (cluster w1)) as Hsc1.
  { intros ns Hin. rewrite Hw1 in Hin.
    apply list_elem_of_fmap in Hin as (ns' & -> & Hin').
    destruct (stripManagedBy_meta namespace ns') as [_ ->]. by apply Hsc. }
  destruct (storeGet id "" namespace (namespaces (cluster w1))) as [ns1|] eqn:Hget.
  - destruct (storeGet_Some _ _ _ _ _ Hget) as [Hin1 [_ Hname1]].
    cbn [id] in Hname1.
    rewrite (removeManagedByLabelLoop_step namespace (metaNamed namespace) []
               w1 ns1 Hget).
    rewrite decide_False.
    2:{ rewrite Hw1 in Hin1. apply list_elem_of_fmap in Hin1 as (ns' & -> & _).
        apply stripManagedBy_not_labelled. }
    cbn [removeManagedByLabelLoop ret fst snd record cluster].
    split; [exact Hw1|]. split; [intros _|done].
    rewrite Hw1 in Hin1. apply list_elem_of_fmap in Hin1 as (ns' & -> & Hin').
    exists ns'. split; [done|].
    by destruct (stripManagedBy_meta namespace ns') as [<- _].
  - cbn [removeManagedByLabelLoop]. unfold bind. rewrite getNamespace_run.
    cbn [noFaults metaNamed Name]. rewrite Hget.
    cbn [fst snd record cluster]. split; [exact Hw1|]. split; [done|].
    intros (ns & Hin & Hname). exfalso.
    assert (is_Some (storeGet id "" namespace (namespaces (cluster w1)))) as [? ?].
    { apply storeGet_elem_of; [exact Hsc1|].
      exists (stripManagedBy namespace ns). split.
      - rewrite Hw1. by apply list_elem_of_fmap_2.
      - by destruct (stripManagedBy_meta namespace ns) as [-> _]. }
    congruence.
Qed.

(** X13: when no call fails and the namespaces of the cluster have
    distinct names, [removeManagedByLabelFromNamespaces] removes the
    managing-instance label from exactly the namespaces where it names the
    instance: afterwards no namespace is managed by the instance, every
    other namespace and every other label is as before, and no namespace
    is added or removed.  It returns nil exactly when the namespace of the
    instance exists; when it does not, the labels are removed all the same
    and the not-found error of the last fetch is returned. *)
Theorem removeManagedByLabel_removes_every_label
    (namespace : string) (w : World) :
  clusterScoped (cluster w) →
  uniqueNames (cluster w) →
  namespaces (cluster (snd (removeManagedByLabelFromNamespaces noFaults
                              namespace w)))
  = stripManagedBy namespace <$> namespaces (cluster w)
  ∧ Forall (λ ns, GetLabels ns !! ArgoCDManagedByLabel ≠ Some namespace)
      (namespaces (cluster (snd (removeManagedByLabelFromNamespaces noFaults
                                   namespace w))))
  ∧ (∀ ns key,
       Name (stripManagedBy namespace ns) = Name ns
       ∧ (key ≠ ArgoCDManagedByLabel ∨
          GetLabels ns !! ArgoCDManagedByLabel ≠ Some namespace →
          GetLabels (stripManagedBy namespace ns) !! key = GetLabels ns !! key))
  ∧ (fst (removeManagedByLabelFromNamespaces noFaults namespace w) = None ↔
     ∃ ns, ns ∈ namespaces (cluster w) ∧ Name ns = namespace)
  ∧ (fst (removeManagedByLabelFromNamespaces noFaults namespace w) = None
     ∨ fst (removeManagedByLabelFromNamespaces noFaults namespace w)
       = Some (errNotFound "namespaces" namespace)).
Proof.
  intros Hsc Hnd.
  destruct (removeManagedByLabelFromNamespaces_strips namespace w Hsc Hnd)
    as [Hfin Hres].
  split; [exact Hfin|]. split; [|split; [|split; [exact Hres|]]].
  - rewrite Hfin. apply Forall_fmap, Forall_forall. intros ns _.
    apply stripManagedBy_not_labelled.
  - intros ns key. split; [apply stripManagedBy_meta|].
    unfold stripManagedBy.
    destruct (decide (hasLabel ArgoCDManagedByLabel namespace ns)) as [Hl|Hl];
      [|done].
    intros [Hk|Hk]; [|done].
    unfold GetLabels, deleteLabel. simpl.
    destruct (Labels ns); simpl; [by rewrite lookup_delete_ne|done].
  - rewrite removeManagedByLabelFromNamespaces_run. cbn [noFaults].
    rewrite removeManagedByLabelLoop_app.
    destruct (removeManagedByLabelLoop_strips namespace
                (filter (hasLabel ArgoCDManagedByLabel namespace)
                   (namespaces (cluster w)))
                (record (ListNamespaces ArgoCDManagedByLabel namespace) w))
      as [Hres' _]; [done|done| |].
    { apply Forall_forall. intros n Hn.
      apply list_elem_of_filter in Hn as [_ Hn].
      apply storeGet_elem_of; [exact Hsc|]. by exists n. }
    rewrite Hres'. cbn [removeManagedByLabelLoop]. unfold bind.
    rewrite getNamespace_run. cbn [noFaults metaNamed Name].
    destruct (storeGet id "" namespace _) as [ns1|]; [|by right].
    left. cbn [fst].
    destruct (Labels ns1) as [labels|]; [|done].
    destruct (labels !! ArgoCDManagedByLabel) as [n'|]; [|done].
    destruct (decide (n' ≠ namespace)); [done|].
    by destruct (updateNamespace noFaults _ _).
Qed.

Lemma removeManagedByLabel_removes_every_label_witness :
  (λ ns, (Name ns, GetLabels ns !! ArgoCDManagedByLabel))
    <$> namespaces (cluster (snd (removeManagedByLabelFromNamespaces noFaults
                                    "ns1" (demoWorld "ns1,ns2"))))
  = [("ns1", None); ("ns2", None)].
Proof.
  assert (clusterScoped (cluster (demoWorld "ns1,ns2"))) as Hsc.
  { intros ns Hin. simpl in Hin.
    repeat (apply elem_of_cons in Hin as [->|Hin]; [reflexivity|]).
    by apply elem_of_nil in Hin. }
  assert (uniqueNames (cluster (demoWorld "ns1,ns2"))) as Hnd
    by (apply (bool_decide_unpack _); by vm_compute).
  destruct (removeManagedByLabel_removes_every_label "ns1"
              (demoWorld "ns1,ns2") Hsc Hnd) as (H & _).
  rewrite H. by vm_compute.
Defined.

(** X14: after [removeManagedByLabelFromNamespaces] has run without a
    failing call, [setManagedNamespaces] for an instance of that namespace
    finds no labelled namespace: the managed namespaces are the namespace of
    the instance alone. *)
Theorem setManagedNamespaces_after_label_removal
    (r : ReconcileArgoCD) (cr : ObjectMeta) (w : World) :
  clusterScoped (cluster w) →
  uniqueNames (cluster w) →
  managedNames
    (snd (fst (setManagedNamespaces noFaults r cr
                 (snd (removeManagedByLabelFromNamespaces noFaults
                         (Namespace cr) w)))))
  = [Namespace cr].
Proof.
  intros Hsc Hnd.
  destruct (removeManagedByLabelFromNamespaces_strips (Namespace cr) w Hsc Hnd)
    as [Hfin _].
  unfold setManagedNamespaces, bind, listNamespaces. rewrite call_run.
  cbn [noFaults fst snd ret managedNames ManagedNamespaces].
  rewrite Hfin.
  rewrite (filter_none (hasLabel ArgoCDManagedByLabel (Namespace cr))); [done|].
  intros ns Hin. apply list_elem_of_fmap in Hin as (ns' & -> & _).
  apply stripManagedBy_not_labelled.
Qed.

Lemma setManagedNamespaces_after_label_removal_witness :
  managedNames
    (snd (fst (setManagedNamespaces noFaults {| ManagedNamespaces := None |} demo
                 (snd (removeManagedByLabelFromNamespaces noFaults
                         (Namespace demo) (demoWorld "ns1,ns2"))))))
  = ["ns1"].
Proof.
  apply (setManagedNamespaces_after_label_removal _ demo (demoWorld "ns1,ns2")).
  - intros ns Hin. simpl in Hin.
    repeat (apply elem_of_cons in Hin as [->|Hin]; [reflexivity|]).
    by apply elem_of_nil in Hin.
  - apply (bool_decide_unpack _). by vm_compute.
Defined.

(* ===================================================================== *)
(** * Source namespaces *)
(* ===================================================================== *)

Lemma addSourceNamespaces_lookup items (m : gmap string string) k :
  addSourceNamespaces items m !! k
  = if decide (k ∈ Name <$> items) then Some "" else m !! k.
Proof.
  revert m. induction items as [|n rest IH]; intros m; simpl; [done|].
  rewrite IH. destruct (decide (k ∈ Name <$> rest)) as [Hin|Hnin].
  - rewrite decide_True; [done|]. by apply elem_of_cons; right.
  - destruct (decide (k = Name n)) as [->|Hne].
    + rewrite lookup_insert_eq, decide_True; [done|]. by apply elem_of_cons; left.
    + rewrite lookup_insert_ne by done. rewrite decide_False; [done|].
      by intros [?|?]%elem_of_cons.
Qed.

(** X15: [setManagedSourceNamespaces] replaces the map of source
    namespaces, whatever it held.  When the list call fails, its error is
    returned and the map is left empty.  Otherwise the keys of the new map
    are exactly the names of the namespaces whose managed-by-cluster label
    names the namespace of the instance, every value is the empty string,
    and the cluster is not changed. *)
Theorem setManagedSourceNamespaces_keys
    (F : Faults) (old : gmap string string) (cr : ObjectMeta) (w : World) :
  let out := setManagedSourceNamespaces F old cr w in
  let list := ListNamespaces ArgoCDManagedByClusterArgoCDLabel (Namespace cr) in
  cluster (snd out) = cluster w
  ∧ calls (snd out) = calls w ++ [list]
  ∧ (∀ err, F (calls w) list = Some err →
       fst out = (Some err, ∅))
  ∧ (F (calls w) list = None →
       fst (fst out) = None
       ∧ ∀ name value,
           snd (fst out) !! name = Some value ↔
           value = ""
           ∧ ∃ ns, ns ∈ namespaces (cluster w)
                   ∧ GetLabels ns !! ArgoCDManagedByClusterArgoCDLabel
                     = Some (Namespace cr)
                   ∧ Name ns = name).
Proof.
  unfold setManagedSourceNamespaces, bind, listNamespaces. rewrite call_run.
  cbv zeta.
  destruct (F (calls w) _) as [e|] eqn:HF; cbn [fst snd ret record cluster calls].
  - split; [done|]. split; [done|]. split; [by intros err [= ->]|done].
  - split; [done|]. split; [done|]. split; [done|]. intros _. split; [done|].
    intros name value. rewrite addSourceNamespaces_lookup.
    destruct (decide (name ∈ Name <$> _)) as [Hin|Hnin].
    + apply list_elem_of_fmap in Hin as (ns & -> & Hin).
      apply list_elem_of_filter in Hin as [Hl Hin].
      split; [intros [= <-]; split; [done|by exists ns]|by intros [-> _]].
    + rewrite lookup_empty. split; [done|].
      intros [_ (ns & Hin & Hl & Hname)]. destruct Hnin.
      apply list_elem_of_fmap. exists ns. split; [done|].
      by apply list_elem_of_filter.
Qed.

Lemma setManagedSourceNamespaces_keys_witness :
  map_to_list
    (snd (fst (setManagedSourceNamespaces noFaults {[ "stale" := "x" ]} demo
                 sourceWorld)))
  ≡ₚ [("ns3", ""); ("ns4", "")]
  ∧ ∀ value,
      snd (fst (setManagedSourceNamespaces noFaults {[ "stale" := "x" ]} demo
                  sourceWorld)) !! "ns5" ≠ Some value.
Proof.
  split; [by vm_compute|]. intros value Hv.
  destruct (setManagedSourceNamespaces_keys noFaults {[ "stale" := "x" ]} demo
              sourceWorld) as (_ & _ & _ & H).
  destruct (H eq_refl) as [_ Hkeys].
  apply Hkeys in Hv as [_ (ns & Hin & Hl & Hname)].
  simpl in Hin.
  repeat (apply elem_of_cons in Hin as [->|Hin]; [by vm_compute in Hl, Hname|]).
  by apply elem_of_nil in Hin.
Defined.

(* ===================================================================== *)
(** * Proxy variables *)
(* ===================================================================== *)

Lemma proxyLoop_spec Getenv lower keys result :
  ∃ added,
    proxyLoop Getenv lower keys result = result ++ added
    ∧ (length added ≤ length keys)%nat
    ∧ Forall (λ e, EnvName e ≠ "" ∧ EnvValue e ≠ ""
                   ∧ EnvValue e = Getenv (EnvName e)
                   ∧ ∃ p, p ∈ keys ∧ (EnvName e = p ∨ EnvName e = lower p))
        added
    ∧ (∀ p, p ∈ keys → p ≠ "" → Getenv p ≠ "" →
         {| EnvName := p; EnvValue := Getenv p |} ∈ added)
    ∧ ((∀ p, p ∈ keys → Getenv p = "" ∧ Getenv (lower p) = "") → added = []).
Proof.
  revert result. induction keys as [|p rest IH]; intros result.
  - exists []. simpl. rewrite (right_id_L [] (++)).
    split; [done|]. split; [done|]. split; [done|].
    split; [by intros p ?%elem_of_nil|done].
  - cbn [proxyLoop]. unfold caseInsensitiveGetenv.
    destruct (String.eqb_spec (Getenv p) "") as [Hu|Hu]; cbn [negb].
    + destruct (String.eqb_spec (Getenv (lower p)) "") as [Hl|Hl]; cbn [negb].
      * cbn [String.eqb negb].
        destruct (IH result) as (added & -> & Hlen & Hall & Hup & Hnone).
        exists added. split; [done|]. split; [simpl; lia|]. split; [|split].
        -- eapply Forall_impl; [exact Hall|].
           intros e (? & ? & ? & q & Hq & Hn). repeat (split; [done|]).
           exists q. split; [by apply elem_of_cons; right|done].
        -- intros q [->|Hq]%elem_of_cons Hq0 Hq1; [done|by apply Hup].
        -- intros Hunset. apply Hnone. intros q Hq. apply Hunset.
           by apply elem_of_cons; right.
      * destruct (String.eqb_spec (lower p) "") as [Hk|Hk]; cbn [negb].
        -- destruct (IH result) as (added & -> & Hlen & Hall & Hup & Hnone).
           exists added. split; [done|]. split; [simpl; lia|]. split; [|split].
           ++ eapply Forall_impl; [exact Hall|].
              intros e (? & ? & ? & q & Hq & Hn). repeat (split; [done|]).
              exists q. split; [by apply elem_of_cons; right|done].
           ++ intros q [->|Hq]%elem_of_cons Hq0 Hq1; [done|by apply Hup].
           ++ intros Hunset. apply Hnone. intros q Hq. apply Hunset.
              by apply elem_of_cons; right.
        -- destruct (IH (result ++ [{| EnvName := lower p;
                                       EnvValue := Getenv (lower p) |}]))
             as (added & -> & Hlen & Hall & Hup & Hnone).
           exists ({| EnvName := lower p; EnvValue := Getenv (lower p) |}
                   :: added).
           split; [by rewrite <- (assoc_L (++))|]. split; [simpl; lia|].
           split; [|split].
           ++ constructor.
              ** cbn [EnvName EnvValue]. repeat (split; [done|]).
                 exists p. split; [by apply elem_of_cons; left|by right].
              ** eapply Forall_impl; [exact Hall|].
                 intros e (? & ? & ? & q & Hq & Hn). repeat (split; [done|]).
                 exists q. split; [by apply elem_of_cons; right|done].
           ++ intros q [->|Hq]%elem_of_cons Hq0 Hq1; [done|].
              apply elem_of_cons; right. by apply Hup.
           ++ intros Hunset. destruct Hl. apply (Hunset p).
              by apply elem_of_cons; left.
    + destruct (String.eqb_spec p "") as [Hk|Hk]; cbn [negb].
      * destruct (IH result) as (added & -> & Hlen & Hall & Hup & Hnone).
        exists added. split; [done|]. split; [simpl; lia|]. split; [|split].
        -- eapply Forall_impl; [exact Hall|].
           intros e (? & ? & ? & q & Hq & Hn). repeat (split; [done|]).
           exists q. split; [by apply elem_of_cons; right|done].
        -- intros q [->|Hq]%elem_of_cons Hq0 Hq1; [done|by apply Hup].
        -- intros Hunset. destruct Hu. apply (Hunset p).
           by apply elem_of_cons; left.
      * destruct (IH (result ++ [{| EnvName := p; EnvValue := Getenv p |}]))
          as (added & -> & Hlen & Hall & Hup & Hnone).
        exists ({| EnvName := p; EnvValue := Getenv p |} :: added).
        split; [by rewrite <- (assoc_L (++))|]. split; [simpl; lia|].
        split; [|split].
        -- constructor.
           ++ cbn [EnvName EnvValue]. repeat (split; [done|]).
              exists p. split; [by apply elem_of_cons; left|by left].
           ++ eapply Forall_impl; [exact Hall|].
              intros e (? & ? & ? & q & Hq & Hn). repeat (split; [done|]).
              exists q. split; [by apply elem_of_cons; right|done].
        -- intros q [->|Hq]%elem_of_cons Hq0 Hq1;
             [by apply elem_of_cons; left|].
           apply elem_of_cons; right. by apply Hup.
        -- intros Hunset. destruct Hu. apply (Hunset p).
           by apply elem_of_cons; left.
Qed.

(** X16: [proxyEnvVars] returns the given variables first, in their order,
    followed by at most three proxy variables.  Every variable it adds has
    a name and a value that are not empty, the value is the one the
    environment holds for that name, and the name is one of the three proxy
    keys or its lower case.  A key that is set in upper case is added under
    that name.  When neither spelling of any key is set, the given
    variables are returned as they are. *)
Theorem proxyEnvVars_appends_set_keys
    (Getenv strings_ToLower : string → string) (vars : list EnvVar) :
  ∃ added,
    proxyEnvVars Getenv strings_ToLower vars = vars ++ added
    ∧ (length added ≤ 3)%nat
    ∧ Forall (λ e, EnvName e ≠ "" ∧ EnvValue e ≠ ""
                   ∧ EnvValue e = Getenv (EnvName e)
                   ∧ ∃ p, p ∈ ["HTTP_PROXY"; "HTTPS_PROXY"; "NO_PROXY"]
                          ∧ (EnvName e = p ∨ EnvName e = strings_ToLower p))
        added
    ∧ (∀ p, p ∈ ["HTTP_PROXY"; "HTTPS_PROXY"; "NO_PROXY"] →
         Getenv p ≠ "" →
         {| EnvName := p; EnvValue := Getenv p |} ∈ added)
    ∧ ((∀ p, p ∈ ["HTTP_PROXY"; "HTTPS_PROXY"; "NO_PROXY"] →
          Getenv p = "" ∧ Getenv (strings_ToLower p) = "") →
       added = []).
Proof.
  unfold proxyEnvVars. cbv zeta. rewrite (left_id_L [] (++)).
  destruct (proxyLoop_spec Getenv strings_ToLower
              ["HTTP_PROXY"; "HTTPS_PROXY"; "NO_PROXY"] vars)
    as (added & Heq & Hlen & Hall & Hup & Hnone).
  exists added. split; [done|]. split; [done|]. split; [done|].
  split; [|done]. intros p Hp Hset. apply Hup; [done| |done].
  intros ->. revert Hp. apply (bool_decide_unpack _). by vm_compute.
Qed.

Lemma proxyEnvVars_appends_set_keys_witness :
  proxyEnvVars proxyEnv lowerKeys [{| EnvName := "A"; EnvValue := "1" |}]
  = [{| EnvName := "A"; EnvValue := "1" |};
     {| EnvName := "HTTP_PROXY"; EnvValue := "http://proxy:3128" |};
     {| EnvName := "no_proxy"; EnvValue := "localhost" |}]
  ∧ {| EnvName := "HTTP_PROXY"; EnvValue := "http://proxy:3128" |}
    ∈ proxyEnvVars proxyEnv lowerKeys [].
Proof.
  split; [by vm_compute|].
  destruct (proxyEnvVars_appends_set_keys proxyEnv lowerKeys [])
    as (added & -> & _ & _ & Hup & _).
  apply (Hup "HTTP_PROXY"); [|by vm_compute].
  apply elem_of_cons. by left.
Defined.

(* ===================================================================== *)
(** * The cluster secret: what the cleanup leaves alone *)
(* ===================================================================== *)

Lemma removeFromList_other_keys sourceNS l result (data : gmap string string) key :
  key ≠ "namespaces" →
  snd (removeFromList sourceNS l result data) !! key = data !! key.
Proof.
  intros Hne. rewrite removeFromList_spec.
  destruct (filter _ _); cbn [snd]; [done|].
  by rewrite lookup_insert_ne.
Qed.

Lemma storeUpdate_Forall {A} (meta : A → ObjectMeta) (P : A → Prop) x l :
  P x → Forall P l → Forall P (storeUpdate meta x l).
Proof.
  intros Hx Hl. induction Hl as [|y rest Hy Hrest IH]; simpl; [done|].
  destruct (decide _); by constructor.
Qed.

Lemma storeUpdate_length {A} (meta : A → ObjectMeta) x (l : list A) :
  length (storeUpdate meta x l) = length l.
Proof.
  induction l as [|y rest IH]; simpl; [done|].
  destruct (decide _); simpl; by rewrite ?IH.
Qed.

Lemma updateSecret_secrets F ns s w (P : Secret → Prop) :
  P s → Forall P (secrets (cluster w)) →
  Forall P (secrets (cluster (snd (updateSecret F ns s w))))
  ∧ length (secrets (cluster (snd (updateSecret F ns s w))))
    = length (secrets (cluster w))
  ∧ argocds (cluster (snd (updateSecret F ns s w))) = argocds (cluster w).
Proof.
  intros Hs Hall. unfold updateSecret. rewrite call_run.
  destruct (F (calls w) _); [done|].
  destruct (storeGet _ _ _ _); cbn [snd cluster setSecrets secrets argocds];
    [|done].
  split; [by apply storeUpdate_Forall|]. split; [apply storeUpdate_length|done].
Qed.

Lemma updateClusterSecrets_secrets F server ownerNS sourceNS items w
    (before : list Secret) :
  let P := λ s', ∃ s, s ∈ before ∧ sameButNamespaces s s' in
  Forall P items → Forall P (secrets (cluster w)) →
  Forall P (secrets (cluster (snd (updateClusterSecrets F server ownerNS
                                     sourceNS items w))))
  ∧ length (secrets (cluster (snd (updateClusterSecrets F server ownerNS
                                     sourceNS items w))))
    = length (secrets (cluster w))
  ∧ argocds (cluster (snd (updateClusterSecrets F server ownerNS
                             sourceNS items w)))
    = argocds (cluster w).
Proof.
  intros P Hitems. revert w.
  induction Hitems as [|secret rest Hsecret Hrest IH]; intros w Hw; simpl;
    [done|].
  destruct (decide _); [by apply IH|].
  destruct (Data secret !! "namespaces") as [namespaces|]; [|by apply IH].
  destruct (removeFromList sourceNS (strings_Split namespaces ",") []
              (Data secret)) as [result data] eqn:Hloop.
  unfold bind.
  destruct (updateSecret_secrets F ownerNS (withData secret data) w P)
    as (Hall & Hlen & Harg); [|done|].
  { destruct Hsecret as (s & Hin & Hmeta & Hdata). exists s. split; [done|].
    split; [done|]. intros key Hkey. cbn [withData Data].
    replace data with
      (snd (removeFromList sourceNS (strings_Split namespaces ",") []
              (Data secret))) by (by rewrite Hloop).
    rewrite removeFromList_other_keys by done. by apply Hdata. }
  destruct (updateSecret F ownerNS (withData secret data) w) as [[[]|err] w1];
    cbn [fst snd ret] in *; [|done].
  destruct (IH w1 Hall) as (? & ? & ?). split; [done|]. split; congruence.
Qed.

(** X17: whatever calls fail, [deleteManagedNamespaceFromClusterSecret]
    creates and deletes no secret, and every secret stored afterwards is a
    secret stored before with, at most, another value of its [namespaces]
    field: the metadata and every other field of the data are as they
    were.  Namespaces, roles, role bindings and Argo CD instances are not
    changed. *)
Theorem deleteManagedNamespace_touches_only_namespaces_field
    (F : Faults) (server ownerNS sourceNS : string) (w : World) :
  let w' :=
    snd (deleteManagedNamespaceFromClusterSecret F server ownerNS sourceNS w) in
  length (secrets (cluster w')) = length (secrets (cluster w))
  ∧ Forall (λ s', ∃ s, s ∈ secrets (cluster w) ∧ sameButNamespaces s s')
      (secrets (cluster w'))
  ∧ namespaces (cluster w') = namespaces (cluster w)
  ∧ roles (cluster w') = roles (cluster w)
  ∧ roleBindings (cluster w') = roleBindings (cluster w)
  ∧ argocds (cluster w') = argocds (cluster w).
Proof.
  assert (Forall (λ s', ∃ s, s ∈ secrets (cluster w) ∧ sameButNamespaces s s')
            (secrets (cluster w))) as Hrefl.
  { apply Forall_forall. intros s Hin. by exists s. }
  destruct (deleteManagedNamespaceFromClusterSecret_frame F server ownerNS
              sourceNS w) as (_ & Hr & Hb & Hn).
  cbv zeta. split; [|split; [|split; [exact Hn|split; [exact Hr|split;
    [exact Hb|]]]]];
    unfold deleteManagedNamespaceFromClusterSecret, bind, listSecrets;
    rewrite call_run; destruct (F (calls w) _); cbn [fst snd record cluster];
    try done.
  - set (w0 := {| cluster := cluster w; calls := _ |}).
    destruct (updateClusterSecrets_secrets F server ownerNS sourceNS
                (storeList SecretMeta ownerNS ArgoCDSecretTypeLabel "cluster"
                   (secrets (cluster w))) w0 (secrets (cluster w)))
      as (_ & Hlen & _); [|done|done].
    apply Forall_forall. intros s [_ Hin]%list_elem_of_filter. by exists s.
  - set (w0 := {| cluster := cluster w; calls := _ |}).
    destruct (updateClusterSecrets_secrets F server ownerNS sourceNS
                (storeList SecretMeta ownerNS ArgoCDSecretTypeLabel "cluster"
                   (secrets (cluster w))) w0 (secrets (cluster w)))
      as (Hall & _ & _); [|done|done].
    apply Forall_forall. intros s [_ Hin]%list_elem_of_filter. by exists s.
  - set (w0 := {| cluster := cluster w; calls := _ |}).
    destruct (updateClusterSecrets_secrets F server ownerNS sourceNS
                (storeList SecretMeta ownerNS ArgoCDSecretTypeLabel "cluster"
                   (secrets (cluster w))) w0 (secrets (cluster w)))
      as (_ & _ & Harg); [|done|done].
    apply Forall_forall. intros s [_ Hin]%list_elem_of_filter. by exists s.
Qed.

(** X18: the loop of [deleteManagedNamespaceFromClusterSecret] over the
    stored list.  When some entry, once trimmed, is not [sourceNS], the
    [namespaces] field receives the comma joined entries that are not
    [sourceNS], trimmed and sorted once: sorting the slice after every entry
    gives the same as sorting at the end.  The written entries are in
    ascending order, they are the kept entries with their repetitions, and
    [sourceNS] is not among them. *)
Theorem cluster_secret_receives_sorted_rest
    (sourceNS namespaces : string) (data : gmap string string) :
  keptNamespaces sourceNS namespaces ≠ [] →
  removeFromList sourceNS (strings_Split namespaces ",") [] data
  = (sort_Strings (keptNamespaces sourceNS namespaces),
     <["namespaces" :=
         strings_Join (sort_Strings (keptNamespaces sourceNS namespaces)) ","]>
       data)
  ∧ Sorted String.le (sort_Strings (keptNamespaces sourceNS namespaces))
  ∧ sort_Strings (keptNamespaces sourceNS namespaces)
    ≡ₚ keptNamespaces sourceNS namespaces
  ∧ sourceNS ∉ sort_Strings (keptNamespaces sourceNS namespaces).
Proof.
  intros Hkept. rewrite removeFromList_spec.
  unfold keptNamespaces, splitList in *.
  destruct (filter _ _) as [|n kept] eqn:Hf; [done|]. cbn [app].
  split; [done|]. split; [apply Sorted_merge_sort, _|].
  split; [apply merge_sort_Permutation|].
  unfold sort_Strings. rewrite merge_sort_Permutation, <- Hf.
  by intros [? _]%list_elem_of_filter.
Qed.

Lemma cluster_secret_receives_sorted_rest_witness :
  snd (removeFromList "ns2" (strings_Split "ns3, ns2 ,ns1,ns3" ",") [] ∅)
    !! "namespaces"
  = Some "ns1,ns3,ns3".
Proof.
  destruct (cluster_secret_receives_sorted_rest "ns2" "ns3, ns2 ,ns1,ns3" ∅)
    as [-> _]; [by vm_compute|by vm_compute].
Defined.

(* ===================================================================== *)
(** * Lists of namespaces *)
(* ===================================================================== *)

Lemma strings_Split_app a b sep :
  strings_Split (a +:+ String sep b) sep
  = strings_Split a sep ++ strings_Split b sep.
Proof.
  induction a as [|c a IH]; simpl.
  - by rewrite Ascii.eqb_refl.
  - destruct (Ascii.eqb c sep); [by rewrite IH|].
    rewrite IH. pose proof (strings_Split_nonempty a sep).
    by destruct (strings_Split a sep).
Qed.

Lemma allowedNamespace_iff current namespaces :
  allowedNamespace current namespaces = true ↔
  head (splitList namespaces) = Some "*" ∨ current ∈ splitList namespaces.
Proof.
  unfold allowedNamespace.
  pose proof (splitList_length namespaces) as Hlen.
  destruct (splitList namespaces) as [|first rest] eqn:Hsplit; simpl in *; [lia|].
  destruct (String.eqb_spec first "*") as [->|Hne]; [split; [by left|done]|].
  destruct (String.eqb_spec first current) as [->|Hne'].
  - split; [intros _; right; by apply elem_of_cons; left|done].
  - rewrite rangeEquals_elem_of, elem_of_cons. split; [by right; right|].
    by intros [[= ?]|[?|?]].
Qed.

(** X19: appending entries to the list of cluster-config namespaces never
    withdraws a permission, and the appended entries count by name only: a
    namespace is allowed by [a,b] exactly when it is allowed by [a] or is
    one of the trimmed entries of [b].  A wildcard among the appended
    entries allows only the namespace named by the wildcard character. *)
Theorem allowedNamespace_append (current a b : string) :
  (allowedNamespace current (a +:+ "," +:+ b) = true ↔
   allowedNamespace current a = true ∨ current ∈ splitList b)
  ∧ splitList (a +:+ "," +:+ b) = splitList a ++ splitList b.
Proof.
  assert (splitList (a +:+ "," +:+ b) = splitList a ++ splitList b) as Happ.
  { unfold splitList. change ("," +:+ b) with (String "," b).
    by rewrite strings_Split_app, fmap_app. }
  split; [|exact Happ].
  rewrite !allowedNamespace_iff, Happ.
  pose proof (splitList_length a) as Hlen.
  destruct (splitList a) as [|first rest]; simpl in *; [lia|].
  rewrite !elem_of_cons, elem_of_app.
  split; [intros [?|[?|[?|?]]]|intros [[?|[?|?]]|?]]; auto.
Qed.

Lemma containsString_elem_of arr s :
  containsString arr s = true ↔ s ∈ strings_TrimSpace <$> arr.
Proof.
  induction arr as [|val rest IH]; simpl.
  - split; [done|]. by intros ?%elem_of_nil.
  - rewrite elem_of_cons. destruct (String.eqb_spec (strings_TrimSpace val) s)
      as [->|Hne].
    + split; [intros _; by left|done].
    + rewrite IH. split; [by right|]. by intros [?|?].
Qed.

(** X20: [containsString] compares the trimmed elements, [removeString]
    the elements as they are.  So [containsString] finds [s] exactly when
    some element is [s] once trimmed, and it still finds [s] after
    [removeString] has removed it exactly when some element differs from
    [s] only by the white space around it. *)
Theorem containsString_after_removeString (arr : list string) (s : string) :
  (containsString arr s = true ↔ ∃ val, val ∈ arr ∧ strings_TrimSpace val = s)
  ∧ (containsString (removeString arr s) s = true ↔
     ∃ val, val ∈ arr ∧ val ≠ s ∧ strings_TrimSpace val = s).
Proof.
  rewrite !containsString_elem_of, removeString_filter. split.
  - rewrite list_elem_of_fmap. split; intros (val & ? & ?); by exists val.
  - rewrite list_elem_of_fmap. split.
    + intros (val & -> & [Hne Hin]%list_elem_of_filter). by exists val.
    + intros (val & Hin & Hne & <-). exists val. split; [done|].
      by apply list_elem_of_filter.
Qed.
